(** * DeepSeek chat relay: SSE tee, capture and persistence

    A shallow embedding of the chat relay ([src/index.ts], [routeChat]) and
    of the browser consumer ([public/chat.js], [onSend]) together with the
    earlier and later variants of both that live in the repository.

    JavaScript strings are sequences of UTF-16 code units, byte chunks are
    [Uint8Array]s, the D1 database is a pair of tables, and the effects of a
    request (database writes, the upstream call, reads, enqueues, close) are
    recorded in order in a log. *)

From Stdlib Require Import Ascii String Strings.Byte.
From Stdlib Require Import List NArith ZArith Bool Lia Arith.
From Stdlib Require Import Sorting.Sorted Sorting.Permutation.
Import ListNotations.

(* ================================================================== *)
(** ** JavaScript strings *)
(* ================================================================== *)

Module JS.

(** A string is its list of UTF-16 code units. *)
Definition jsstring := list N.

(** An ASCII literal of the source text. *)
Definition lit (s : string) : jsstring :=
  map N_of_ascii (list_ascii_of_string s).

Fixpoint str_eqb (a b : jsstring) : bool :=
  match a, b with
  | [], [] => true
  | x :: a', y :: b' => (x =? y)%N && str_eqb a' b'
  | _, _ => false
  end.

(** [WhiteSpace] and [LineTerminator] of ECMAScript: what [\s] matches and
    what [String.prototype.trim] removes. *)
Definition is_space (c : N) : bool :=
  ((9 <=? c) && (c <=? 13) || (c =? 32) || (c =? 160) || (c =? 5760)
   || (8192 <=? c) && (c <=? 8202) || (c =? 8232) || (c =? 8233)
   || (c =? 8239) || (c =? 8287) || (c =? 12288) || (c =? 65279))%N.

Fixpoint trimStart (s : jsstring) : jsstring :=
  match s with
  | c :: r => if is_space c then trimStart r else s
  | [] => []
  end.

Definition trimEnd (s : jsstring) : jsstring := rev (trimStart (rev s)).

(** [s.trim()] *)
Definition trim (s : jsstring) : jsstring := trimEnd (trimStart s).

(** [s.startsWith(p)] *)
Fixpoint startsWith (s p : jsstring) {struct p} : bool :=
  match p with
  | [] => true
  | x :: p' =>
      match s with
      | [] => false
      | y :: s' => (x =? y)%N && startsWith s' p'
      end
  end.

(** The first occurrence of [sep] in [s]: the text before it and the text
    after it. *)
Fixpoint cut (sep s : jsstring) {struct s} : option (jsstring * jsstring) :=
  if startsWith s sep then Some ([], skipn (length sep) s)
  else match s with
       | [] => None
       | c :: r =>
           match cut sep r with
           | Some (b, a) => Some (c :: b, a)
           | None => None
           end
       end.

Fixpoint split_fuel (n : nat) (sep s : jsstring) : list jsstring :=
  match n with
  | O => [s]
  | S n' =>
      match cut sep s with
      | None => [s]
      | Some (b, a) => b :: split_fuel n' sep a
      end
  end.

(** [s.split(sep)] for a non-empty string separator: the pieces between the
    successive occurrences of [sep], found left to right. Each cut removes
    at least one code unit, so [length s] rounds are enough. *)
Definition split (s sep : jsstring) : list jsstring :=
  split_fuel (length s) sep s.

(** [a.find(p)] *)
Fixpoint find_first {A} (p : A -> bool) (l : list A) : option A :=
  match l with
  | [] => None
  | x :: r => if p x then Some x else find_first p r
  end.

(** [a.pop()] on the result of a split: the last piece, and what is left. *)
Definition pop (l : list jsstring) : list jsstring * option jsstring :=
  match l with
  | [] => ([], None)
  | _ => (removelast l, Some (last l []))
  end.

(** [s.slice(0, n)] *)
Definition slice0 (n : nat) (s : jsstring) : jsstring := firstn n s.

(** [a.slice(-n)] on an array *)
Definition slice_last {A} (n : nat) (l : list A) : list A :=
  skipn (length l - n) l.

(** [s.replace(/^data:\s?/, '')]: the prefix and one white space after
    it, if any, are removed. *)
Definition strip_data (line : jsstring) : jsstring :=
  if startsWith line (lit "data:") then
    match skipn 5 line with
    | c :: r => if is_space c then r else c :: r
    | [] => []
    end
  else line.

(** [s.replace(/^[Bb]earer\s+/, '')]: the word and all the white space
    after it are removed, if there is some. *)
Definition strip_bearer (s : jsstring) : jsstring :=
  match s with
  | b :: r =>
      if ((b =? 66) || (b =? 98))%N && startsWith r (lit "earer") then
        match skipn 5 r with
        | c :: r' => if is_space c then trimStart r' else s
        | [] => s
        end
      else s
  | [] => s
  end.

End JS.

(* ================================================================== *)
(** ** [TextDecoder] and [TextEncoder] (UTF-8) *)
(* ================================================================== *)

Module Encoding.
Import JS.

(** The state of the platform's UTF-8 decoder between two bytes. *)
Record utf8_state := {
  code_point : N;
  bytes_seen : N;
  bytes_needed : N;
  lower : N;
  upper : N
}.

Definition utf8_init : utf8_state :=
  {| code_point := 0; bytes_seen := 0; bytes_needed := 0;
     lower := 128; upper := 191 |}.

Definition REPLACEMENT : N := 65533.

(** A byte read while no sequence is open. *)
Definition utf8_start (b : N) : list N * utf8_state :=
  (if b <=? 127 then ([b], utf8_init)
   else if (194 <=? b) && (b <=? 223) then
     ([], {| code_point := N.land b 31; bytes_seen := 0; bytes_needed := 1;
             lower := 128; upper := 191 |})
   else if (224 <=? b) && (b <=? 239) then
     ([], {| code_point := N.land b 15; bytes_seen := 0; bytes_needed := 2;
             lower := if b =? 224 then 160 else 128;
             upper := if b =? 237 then 159 else 191 |})
   else if (240 <=? b) && (b <=? 244) then
     ([], {| code_point := N.land b 7; bytes_seen := 0; bytes_needed := 3;
             lower := if b =? 240 then 144 else 128;
             upper := if b =? 244 then 143 else 191 |})
   else ([REPLACEMENT], utf8_init))%N.

(** One byte through the decoder: the scalar values it emits (U+FFFD for
    an error) and the next state. A byte that breaks an open sequence is
    read again as the start of a new one. *)
Definition utf8_byte (st : utf8_state) (b : N) : list N * utf8_state :=
  (if bytes_needed st =? 0 then utf8_start b
   else if (b <? lower st) || (upper st <? b) then
     let (out, st') := utf8_start b in (REPLACEMENT :: out, st')
   else
     let cp := N.lor (N.shiftl (code_point st) 6) (N.land b 63) in
     let seen := bytes_seen st + 1 in
     if seen =? bytes_needed st then ([cp], utf8_init)
     else ([], {| code_point := cp; bytes_seen := seen;
                  bytes_needed := bytes_needed st;
                  lower := 128; upper := 191 |}))%N.

Fixpoint utf8_bytes (st : utf8_state) (bs : list byte) : list N * utf8_state :=
  match bs with
  | [] => ([], st)
  | b :: r =>
      let (o1, st1) := utf8_byte st (Byte.to_N b) in
      let (o2, st2) := utf8_bytes st1 r in
      (o1 ++ o2, st2)
  end.

(** End of input with a sequence still open. *)
Definition utf8_flush (st : utf8_state) : list N :=
  if (bytes_needed st =? 0)%N then [] else [REPLACEMENT].

(** A scalar value as UTF-16 code units. *)
Definition utf16_of_scalar (cp : N) : jsstring :=
  (if cp <? 65536 then [cp]
   else let c := cp - 65536 in
        [55296 + N.shiftr c 10; 56320 + N.land c 1023])%N.

(** The decoder's output filter: the first scalar value ever produced is
    dropped when it is the byte order mark. *)
Fixpoint serialize (bom_seen : bool) (out : list N) : jsstring * bool :=
  match out with
  | [] => ([], bom_seen)
  | cp :: r =>
      if bom_seen then
        let (s, b) := serialize true r in (utf16_of_scalar cp ++ s, b)
      else if (cp =? 65279)%N then serialize true r
      else let (s, b) := serialize true r in (utf16_of_scalar cp ++ s, b)
  end.

Record TextDecoder := {
  dec_state : utf8_state;
  bom_seen : bool;
  do_not_flush : bool
}.

(** [new TextDecoder()] *)
Definition new_TextDecoder : TextDecoder :=
  {| dec_state := utf8_init; bom_seen := false; do_not_flush := false |}.

(** [d.decode(input, { stream })]: a call that follows a non-streaming call
    starts afresh; a non-streaming call flushes an open sequence. *)
Definition decode (d : TextDecoder) (input : list byte) (stream : bool)
  : jsstring * TextDecoder :=
  let st0 := if do_not_flush d then dec_state d else utf8_init in
  let bom0 := if do_not_flush d then bom_seen d else false in
  let (out, st1) := utf8_bytes st0 input in
  let out' := if stream then out else out ++ utf8_flush st1 in
  let (s, bom1) := serialize bom0 out' in
  (s, {| dec_state := if stream then st1 else utf8_init;
         bom_seen := bom1; do_not_flush := stream |}).

(** The texts that successive [decode(value, { stream: true })] calls on
    one decoder return. *)
Fixpoint decode_stream (d : TextDecoder) (chunks : list (list byte))
  : list jsstring :=
  match chunks with
  | [] => []
  | value :: rest =>
      let (s, d') := decode d value true in s :: decode_stream d' rest
  end.

(** The text [new TextDecoder().decode(value)] returns. *)
Definition decode_once (value : list byte) : jsstring :=
  fst (decode new_TextDecoder value false).

Definition byte_of_N (n : N) : byte :=
  match Byte.of_N n with Some b => b | None => x00 end.

Definition utf8_of_scalar (cp : N) : list byte :=
  map byte_of_N
    (if cp <? 128 then [cp]
     else if cp <? 2048 then [192 + N.shiftr cp 6; 128 + N.land cp 63]
     else if cp <? 65536 then
       [224 + N.shiftr cp 12; 128 + N.land (N.shiftr cp 6) 63;
        128 + N.land cp 63]
     else
       [240 + N.shiftr cp 18; 128 + N.land (N.shiftr cp 12) 63;
        128 + N.land (N.shiftr cp 6) 63; 128 + N.land cp 63])%N.

Definition is_high (c : N) : bool := ((55296 <=? c) && (c <=? 56319))%N.
Definition is_low (c : N) : bool := ((56320 <=? c) && (c <=? 57343))%N.

(** The scalar values of a string; a lone surrogate becomes U+FFFD. *)
Fixpoint scalars (s : jsstring) : list N :=
  match s with
  | [] => []
  | h :: r =>
      if is_high h then
        match r with
        | l :: r' =>
            if is_low l
            then (65536 + N.shiftl (h - 55296) 10 + (l - 56320))%N :: scalars r'
            else REPLACEMENT :: scalars r
        | [] => [REPLACEMENT]
        end
      else if is_low h then REPLACEMENT :: scalars r
      else h :: scalars r
  end.

(** [new TextEncoder().encode(s)] *)
Definition encode (s : jsstring) : list byte :=
  flat_map utf8_of_scalar (scalars s).

End Encoding.

(* ================================================================== *)
(** ** JSON values as the handlers read them *)
(* ================================================================== *)

Module Json.
Import JS.

(** A value produced by [JSON.parse]. A number is represented by the text
    [Number.prototype.toString] gives for it, which is all the handlers can
    observe of it ([0] and [-0] both print as ["0"]). *)
#[warnings="-register-all"]
Inductive json :=
| JNull
| JBool (b : bool)
| JNum (text : jsstring)
| JStr (s : jsstring)
| JArr (items : list json)
| JObj (fields : list (jsstring * json)).

(** A JavaScript value here is a JSON value or [undefined] ([None]). *)
Definition value := option json.

(** [ToBoolean] *)
Definition truthy (v : value) : bool :=
  match v with
  | None | Some JNull => false
  | Some (JBool b) => b
  | Some (JNum t) => negb (str_eqb t (lit "0"))
  | Some (JStr s) => match s with [] => false | _ => true end
  | Some (JArr _) | Some (JObj _) => true
  end.

Fixpoint lookup (k : jsstring) (fs : list (jsstring * json)) : value :=
  match fs with
  | [] => None
  | (k', v) :: r => if str_eqb k' k then Some v else lookup k r
  end.

(** [v.k] for the property names the handlers read ([choices], [delta],
    [content], [message], [__stored]): none of them exists on a string, a
    number, a boolean or an array. *)
Definition prop (k : jsstring) (v : json) : value :=
  match v with
  | JObj fs => lookup k fs
  | _ => None
  end.

(** [v[0]] *)
Definition index0 (v : json) : value :=
  match v with
  | JArr l => hd_error l
  | JStr (c :: _) => Some (JStr [c])
  | JObj fs => lookup (lit "0") fs
  | _ => None
  end.

(** Optional chaining: [v?.k] and [v?.[0]]. *)
Definition opt_prop (k : jsstring) (v : value) : value :=
  match v with
  | None | Some JNull => None
  | Some j => prop k j
  end.

Definition opt_index0 (v : value) : value :=
  match v with
  | None | Some JNull => None
  | Some j => index0 j
  end.

(** [v || ''] *)
Definition or_empty (v : value) : json :=
  match v with
  | Some j => if truthy v then j else JStr []
  | None => JStr []
  end.

(** [ToString], as [s += v] applies it. *)
Fixpoint ToString (v : json) : jsstring :=
  match v with
  | JNull => lit "null"
  | JBool true => lit "true"
  | JBool false => lit "false"
  | JNum t => t
  | JStr s => s
  | JObj _ => lit "[object Object]"
  | JArr l =>
      (fix join (l : list json) : jsstring :=
         match l with
         | [] => []
         | x :: r =>
             let sx := match x with JNull => [] | _ => ToString x end in
             match r with
             | [] => sx
             | _ :: _ => sx ++ lit "," ++ join r
             end
         end) l
  end.

End Json.

(* ================================================================== *)
(** ** The SSE capture loop shared by the relay and the consumers *)
(* ================================================================== *)

Module Sse.
Import JS Json.

Definition LF : jsstring := [10%N].
Definition BLANK : jsstring := [10%N; 10%N].
Definition DONE : jsstring := lit "[DONE]".

(** [evt.split("\n").find((l) => l.startsWith("data:"))] *)
Definition data_line (evt : jsstring) : option jsstring :=
  find_first (fun l => startsWith l (lit "data:")) (split evt LF).

(** [j?.choices?.[0]?.delta?.content] *)
Definition delta_content (j : json) : value :=
  opt_prop (lit "content")
    (opt_prop (lit "delta") (opt_index0 (opt_prop (lit "choices") (Some j)))).

(** [j?.choices?.[0]?.message?.content] of the non-streaming reply *)
Definition message_content (j : json) : value :=
  opt_prop (lit "content")
    (opt_prop (lit "message") (opt_index0 (opt_prop (lit "choices") (Some j)))).

(** A data frame as the upstream API sends it, [data: <payload>] and a
    blank line, and a stream of such frames. *)
Definition data_frame (payload : jsstring) : jsstring :=
  lit "data: " ++ payload ++ BLANK.

Definition sse_stream (payloads : list jsstring) : jsstring :=
  concat (map data_frame payloads).

(** What a frame does to a text accumulator: the frame is skipped, or a
    delta is appended. *)
Inductive frame_action :=
| Skip
| Append (delta : jsstring).

Section Capture.

(** [JSON.parse] is the platform's; [None] stands for the [SyntaxError] it
    throws. The development is parametric in it. *)
Variable JSON_parse : jsstring -> option json.

(** The body of the relay's [for (const evt of events)] loop. *)
Definition frame (evt : jsstring) : frame_action :=
  match data_line evt with
  | None => Skip                                   (* if (!line) continue *)
  | Some line =>
      let payload := strip_data line in
      if str_eqb payload DONE then Skip            (* "[DONE]" *)
      else
        match JSON_parse payload with
        | None => Skip                             (* catch {} *)
        | Some j =>
            let delta := or_empty (delta_content j) in
            if truthy (Some delta) then Append (ToString delta) else Skip
        end
  end.

Definition capture_event (assistant evt : jsstring) : jsstring :=
  match frame evt with
  | Skip => assistant
  | Append delta => assistant ++ delta
  end.

(** The relay's two closure variables. *)
Record capture := { buffer : jsstring; assistant : jsstring }.

Definition capture_init : capture := {| buffer := []; assistant := [] |}.

(** [buffer += chunk; events = buffer.split("\n\n");
     buffer = events.pop() || ''; for (const evt of events) ...] *)
Definition capture_chunk (st : capture) (chunk : jsstring) : capture :=
  let (events, rest) := pop (split (buffer st ++ chunk) BLANK) in
  {| buffer := match rest with Some s => s | None => [] end;
     assistant := fold_left capture_event events (assistant st) |}.

(** A payload that carries the text delta [d]: one line of JSON, not the
    termination sentinel, whose [choices[0].delta.content] is [d]. *)
Definition carries (payload d : jsstring) : Prop :=
  ~ In 10%N payload /\ payload <> DONE /\
  exists j, JSON_parse payload = Some j /\ delta_content j = Some (JStr d).

End Capture.

End Sse.

(* ================================================================== *)
(** ** The D1 tables, the effect log and the request monad *)
(* ================================================================== *)

Module Worker.
Import JS Json Encoding Sse.

Inductive role := RSystem | RUser | RAssistant.

(** Table [chats] and table [messages]. *)
Record chat_row := {
  id : jsstring;
  title : option jsstring;           (* NULL is [None] *)
  created_at : N
}.

Record message_row := {
  chat_id : jsstring;
  m_role : role;
  content : json;                    (* the value as bound *)
  m_created_at : N
}.

Record D1Database := {
  chats : list chat_row;
  messages : list message_row
}.

(** One element of the [messages] array sent upstream: the system prompt
    has no [created_at], a stored row keeps its own. *)
Record chat_message := {
  cm_role : role;
  cm_content : json;
  cm_created_at : option N
}.

Record payload := {
  model : jsstring;
  p_messages : list chat_message;
  p_stream : bool
}.

(** How the upstream body ends: [reader.read()] resolves with [done], or
    rejects. *)
Inductive ending := EndDone | EndFailed.

Inductive read_result :=
| ReadChunk (value : list byte)
| ReadDone
| ReadRejected.

(** What a request does to the outside, in the order it does it. *)
Inductive effect :=
| InsertMessage (chatId : jsstring) (r : role) (c : json)
| UpdateTitle (chatId : jsstring) (t : jsstring)
| Fetch (apiKey : jsstring) (p : payload)
| ReadText
| Read (r : read_result)
| Enqueue (value : list byte)
| Close.

(** The database, the successive readings of [Date.now()], and the log. *)
Record world := {
  DB : D1Database;
  clock : list N;
  log : list effect
}.

(** The chunks enqueued on the output stream, in order. *)
Fixpoint enqueued (l : list effect) : list (list byte) :=
  match l with
  | [] => []
  | Enqueue v :: r => v :: enqueued r
  | _ :: r => enqueued r
  end.

Definition is_insert (r : role) (e : effect) : bool :=
  match e, r with
  | InsertMessage _ RSystem _, RSystem
  | InsertMessage _ RUser _, RUser
  | InsertMessage _ RAssistant _, RAssistant => true
  | _, _ => false
  end.

(** How many messages of a role a log inserts. *)
Definition inserts (r : role) (l : list effect) : nat :=
  length (filter (is_insert r) l).

Definition is_title_update (e : effect) : bool :=
  match e with UpdateTitle _ _ => true | _ => false end.


Definition is_chunk_read (e : effect) : bool :=
  match e with Read (ReadChunk _) => true | _ => false end.

(** [a] happens, and later [b] does. *)
Definition before (a b : effect) (l : list effect) : Prop :=
  exists l1 l2 l3, l = l1 ++ a :: l2 ++ b :: l3.

Inductive outcome (A : Type) :=
| Returned (a : A)
| Thrown.
Arguments Returned {A} a.
Arguments Thrown {A}.

(** Handlers run in a state monad over [world] in which an exception ends
    the computation. *)
Definition M (A : Type) := world -> outcome A * world.

Definition ret {A} (a : A) : M A := fun w => (Returned a, w).

Definition throw {A} : M A := fun w => (Thrown, w).

Definition bind {A B} (c : M A) (k : A -> M B) : M B :=
  fun w =>
    match c w with
    | (Returned a, w') => k a w'
    | (Thrown, w') => (Thrown, w')
    end.

Notation "x <- c ;; k" := (bind c (fun x => k))
  (at level 61, c at next level, right associativity).
Notation "c ;; k" := (bind c (fun _ => k))
  (at level 61, right associativity).

Definition emit (e : effect) : M unit :=
  fun w => (Returned tt,
            {| DB := DB w; clock := clock w; log := log w ++ [e] |}).

(** [Date.now()] *)
Definition Date_now : M N :=
  fun w =>
    match clock w with
    | [] => (Returned 0%N, w)
    | t :: r => (Returned t, {| DB := DB w; clock := r; log := log w |})
    end.

Definition read_db : M D1Database := fun w => (Returned (DB w), w).

Definition write_db (d : D1Database) : M unit :=
  fun w => (Returned tt, {| DB := d; clock := clock w; log := log w |}).

(* ------------------------------------------------------------------ *)
(** *** D1 helpers *)

(** [SELECT id FROM chats WHERE id = ?1] has a row. *)
Definition chatExists (chatId : jsstring) : M bool :=
  d <- read_db ;;
  ret (existsb (fun c => str_eqb (id c) chatId) (chats d)).

(** [ORDER BY created_at ASC]: rows with equal times keep their insertion
    order. *)
Fixpoint insert_by_time (m : message_row) (l : list message_row)
  : list message_row :=
  match l with
  | [] => [m]
  | x :: r =>
      if (m_created_at m <=? m_created_at x)%N then m :: l
      else x :: insert_by_time m r
  end.

Definition order_by_created_at (l : list message_row) : list message_row :=
  fold_right insert_by_time [] l.

(** [SELECT role, content, created_at FROM messages WHERE chat_id = ?1
     ORDER BY created_at ASC LIMIT ?2] *)
Definition select_messages (d : D1Database) (chatId : jsstring) (limit : nat)
  : list message_row :=
  firstn limit
    (order_by_created_at
       (filter (fun m => str_eqb (chat_id m) chatId) (messages d))).

Definition getMessages (chatId : jsstring) (limit : nat)
  : M (list message_row) :=
  d <- read_db ;;
  ret (select_messages d chatId limit).

(** [try { c } catch {}] *)
Definition try_catch (c : M unit) : M unit :=
  fun w =>
    match c w with
    | (Returned a, w') => (Returned a, w')
    | (Thrown, w') => (Returned tt, w')
    end.

(** A JavaScript value as D1's [bind] takes it: a string, a number and
    [null] as they are, a boolean as the integer 1 or 0; an object or an
    array is refused with [D1_TYPE_ERROR] ([None]). *)
Definition D1_bind (c : json) : option json :=
  match c with
  | JObj _ | JArr _ => None
  | JBool true => Some (JNum (lit "1"))
  | JBool false => Some (JNum (lit "0"))
  | _ => Some c
  end.

(** A string the code itself has cut, as the table keeps it: D1 stores
    text as UTF-8, in which a surrogate that the cut has left without its
    pair becomes U+FFFD. Strings that reach the relay from outside are
    taken to be well formed, and are kept as they are. *)
Definition D1_text (s : jsstring) : jsstring :=
  flat_map utf16_of_scalar (scalars s).

(** Well-formed UTF-16: every surrogate is half of a pair, a high one
    followed by a low one. *)
Inductive well_formed : jsstring -> Prop :=
| wf_nil : well_formed []
| wf_unit (c : N) (s : jsstring) :
    (c < 55296 \/ 57343 < c < 65536)%N ->
    well_formed s -> well_formed (c :: s)
| wf_pair (h l : N) (s : jsstring) :
    (55296 <= h <= 56319)%N -> (56320 <= l <= 57343)%N ->
    well_formed s -> well_formed (h :: l :: s).

(** [INSERT INTO messages (chat_id, role, content, created_at)]; the
    statement throws when [bind] refuses the content. The value is kept
    as bound: the declared type of the column is not part of the code. *)
Definition insertMessage (chatId : jsstring) (r : role) (c : json) : M unit :=
  now <- Date_now ;;
  match D1_bind c with
  | None => throw
  | Some v =>
      d <- read_db ;;
      write_db {| chats := chats d;
                  messages := messages d ++
                    [{| chat_id := chatId; m_role := r; content := v;
                        m_created_at := now |}] |} ;;
      emit (InsertMessage chatId r c)
  end.

(** SQL [NULLIF(x, '')] and [COALESCE(x, y)]. *)
Definition NULLIF_empty (x : option jsstring) : option jsstring :=
  match x with
  | Some [] => None
  | _ => x
  end.

Definition COALESCE (x : option jsstring) (y : jsstring) : option jsstring :=
  match x with
  | Some _ => x
  | None => Some y
  end.

(** [title IS NULL OR title = ''] *)
Definition title_empty (c : chat_row) : bool :=
  match title c with
  | None | Some [] => true
  | Some (_ :: _) => false
  end.

(** The [UPDATE chats SET title = COALESCE(NULLIF(title,''), ?2)
     WHERE id = ?1 AND (title IS NULL OR title = '')] statement; the
    title bound is the text [slice(0, 48)] has cut, which the table keeps
    as [D1_text] says. *)
Definition update_title (chatId t : jsstring) (c : chat_row) : chat_row :=
  if str_eqb (id c) chatId && title_empty c then
    {| id := id c;
       title := COALESCE (NULLIF_empty (title c)) (D1_text t);
       created_at := created_at c |}
  else c.

Definition updateChatTitleIfEmpty (chatId fromText : jsstring) : M unit :=
  let t := slice0 48 (trim fromText) in
  d <- read_db ;;
  write_db {| chats := map (update_title chatId t) (chats d);
              messages := messages d |} ;;
  emit (UpdateTitle chatId t).

End Worker.

(* ================================================================== *)
(** ** [src/index.ts]: [routeChat] and its [streamOut] *)
(* ================================================================== *)

Module IndexTs.
Import JS Json Encoding Sse Worker.

Definition SYS_PROMPT : jsstring :=
  lit "You are a helpful, friendly assistant. Keep answers concise and accurate.".
Definition DS_MODEL : jsstring := lit "deepseek-reasoner".

(** The JSON body of a chat-send request at the types [routeChat] declares
    for its fields; an absent field is [None]. A body that is valid JSON
    but not an object has no field at all. *)
Record chat_body := {
  b_chat_id : option jsstring;
  b_content : option jsstring;
  b_stream : value
}.

Record Request := {
  json_body : option chat_body;        (* [None]: [request.json()] throws *)
  authorization : option jsstring      (* the Authorization header *)
}.

Record Env := {
  DEEPSEEK_API_KEY : option jsstring
}.

(** The upstream reply: status, content type, and the body as the chunks
    its reader yields and the way it ends ([None]: no body). *)
Record upstream := {
  up_status : N;
  up_content_type : option jsstring;
  up_body : option (list (list byte) * ending)
}.

Definition up_ok (u : upstream) : bool :=
  ((200 <=? up_status u) && (up_status u <=? 299))%N.

Inductive body :=
| ErrorMessage (message : jsstring)    (* [{ error: { message } }] *)
| Text (text : jsstring).

(** What [routeChat] returns: a buffered response, or a response whose
    body is [streamOut] reading the given upstream body. *)
Inductive route_result :=
| Respond (status : N) (b : body)
| RespondStream (status : N) (chatId : jsstring)
    (chunks : list (list byte)) (e : ending).

Definition badJSON (status : N) (message : string) : route_result :=
  Respond status (ErrorMessage (lit message)).

(** [body?.stream !== false] *)
Definition stream_flag (b : chat_body) : bool :=
  match b_stream b with
  | Some (JBool false) => false
  | _ => true
  end.

(** The bearer token of the request, else the configured key. *)
Definition api_key (request : Request) (env : Env) : option jsstring :=
  match option_map strip_bearer (authorization request) with
  | Some (c :: k) => Some (c :: k)
  | _ => DEEPSEEK_API_KEY env
  end.

Definition of_row (m : message_row) : chat_message :=
  {| cm_role := m_role m; cm_content := content m;
     cm_created_at := Some (m_created_at m) |}.

Definition system_message : chat_message :=
  {| cm_role := RSystem; cm_content := JStr SYS_PROMPT;
     cm_created_at := None |}.

(** [await dsRes.text()] *)
Definition text (u : upstream) : M jsstring :=
  emit ReadText ;;
  match up_body u with
  | None => ret []
  | Some (chunks, EndDone) =>
      ret (fst (decode new_TextDecoder (concat chunks) false))
  | Some (_, EndFailed) => throw
  end.

(** The terminal frame [data: {"__stored": true}] with its blank line,
    and its payload. *)
Definition STORED_PAYLOAD : jsstring :=
  lit "{" ++ [34%N] ++ lit "__stored" ++ [34%N] ++ lit ": true}".

Definition STORED_FRAME : jsstring :=
  lit "data: " ++ STORED_PAYLOAD ++ BLANK.

(** The fields [routeChat] reads from a request. *)
Definition chat_of (request : Request) : jsstring :=
  match json_body request with
  | Some b => match b_chat_id b with Some s => s | None => [] end
  | None => []
  end.

Definition content_of (request : Request) : jsstring :=
  match json_body request with
  | Some b => trim (match b_content b with Some s => s | None => [] end)
  | None => []
  end.

Definition stream_of (request : Request) : bool :=
  match json_body request with
  | Some b => stream_flag b
  | None => true
  end.

(** The request passes validation: a JSON body, a chat id, content that
    is not empty once trimmed, and the chat exists. *)
Definition validated (request : Request) (w : world) : bool :=
  match json_body request, chat_of request, content_of request with
  | Some _, _ :: _, _ :: _ =>
      existsb (fun c => str_eqb (id c) (chat_of request)) (chats (DB w))
  | _, _, _ => false
  end.

(** A credential for the upstream call is at hand. *)
Definition has_credential (request : Request) (env : Env) : bool :=
  match api_key request env with
  | Some (_ :: _) => true
  | _ => false
  end.

(** The world once the user message is stored and the title is set. *)
Definition user_stored (request : Request) (w : world) : world :=
  {| DB := {| chats := map (update_title (chat_of request)
                              (slice0 48 (trim (content_of request))))
                           (chats (DB w));
              messages := messages (DB w) ++
                [{| chat_id := chat_of request; m_role := RUser;
                    content := JStr (content_of request);
                    m_created_at := hd 0%N (clock w) |}] |};
     clock := tl (clock w);
     log := log w ++
            [InsertMessage (chat_of request) RUser (JStr (content_of request));
             UpdateTitle (chat_of request)
               (slice0 48 (trim (content_of request)))] |}.

(** The body of the upstream request built from that world. *)
Definition forwarded (request : Request) (w : world) : payload :=
  {| model := DS_MODEL;
     p_messages :=
       system_message ::
       map of_row
         (slice_last 30
            (select_messages (DB (user_stored request w)) (chat_of request) 1000));
     p_stream := stream_of request |}.

(** The world once the upstream call is issued with [key]. *)
Definition fetched (key : jsstring) (request : Request) (w : world) : world :=
  {| DB := DB (user_stored request w);
     clock := clock (user_stored request w);
     log := log (user_stored request w) ++ [Fetch key (forwarded request w)] |}.

(** The effects of passing the chunks through [streamOut]. *)
Definition tee (chunks : list (list byte)) : list effect :=
  flat_map (fun v => [Read (ReadChunk v); Enqueue v]) chunks.

(** What a request can do after the upstream call is issued: nothing (the
    call or the body is missing), read the whole reply as text and perhaps
    store the reply it holds, or stream the body through to a read that
    rejects or to its end. *)
Inductive reply_effects (chatId : jsstring) : list effect -> Prop :=
| NoReply : reply_effects chatId []
| TextRead : reply_effects chatId [ReadText]
| TextStored (msg : json) :
    reply_effects chatId [ReadText; InsertMessage chatId RAssistant msg]
| StreamFailed (chunks : list (list byte)) :
    reply_effects chatId (tee chunks ++ [Read ReadRejected])
| StreamEnded (chunks : list (list byte)) :
    reply_effects chatId
      (tee chunks ++ [Read ReadDone; Enqueue (encode STORED_FRAME); Close])
| StreamStored (chunks : list (list byte)) (text : jsstring) :
    trim text <> [] ->
    reply_effects chatId
      (tee chunks ++
       [Read ReadDone; InsertMessage chatId RAssistant (JStr text);
        Enqueue (encode STORED_FRAME); Close]).

Section Relay.

Variable JSON_parse : jsstring -> option json.

(** The relay's capture after the chunks. *)
Definition captured (st : capture) (chunks : list (list byte)) : capture :=
  fold_left (capture_chunk JSON_parse) (map decode_once chunks) st.

(** Whether [streamOut] is to be pulled again. *)
Inductive pull_status := Open | Closed.

(** [streamOut]'s [pull(controller)], given what [reader.read()] gives. *)
Definition pull (chatId : jsstring) (st : capture) (r : read_result)
  : M (capture * pull_status) :=
  emit (Read r) ;;
  match r with
  | ReadRejected => throw
  | ReadDone =>
      (match trim (assistant st) with
       | [] => ret tt
       | _ :: _ => insertMessage chatId RAssistant (JStr (assistant st))
       end) ;;
      emit (Enqueue (encode STORED_FRAME)) ;;
      emit Close ;;
      ret (st, Closed)
  | ReadChunk value =>
      emit (Enqueue value) ;;
      let chunk := decode_once value in
      ret (capture_chunk JSON_parse st chunk, Open)
  end.

(** The runtime pulls [streamOut] until it is closed or errored, the
    caller reading to the end. *)
Fixpoint drain (chatId : jsstring) (st : capture)
    (chunks : list (list byte)) (e : ending) : M capture :=
  match chunks with
  | value :: rest =>
      r <- pull chatId st (ReadChunk value) ;;
      drain chatId (fst r) rest e
  | [] =>
      r <- pull chatId st
             (match e with EndDone => ReadDone | EndFailed => ReadRejected end) ;;
      ret (fst r)
  end.

(** The part of [routeChat] that follows [await fetch(...)]: the
    non-streaming reply, the upstream error passed through, or the
    streamed response. *)
Definition after_fetch (chatId : jsstring) (stream : bool) (u : upstream)
  : M route_result :=
  if negb stream then
    t <- text u ;;
    try_catch
      (match JSON_parse t with
       | Some j =>
           match message_content j with
           | Some msg =>
               if truthy (Some msg)
               then insertMessage chatId RAssistant msg
               else ret tt
           | None => ret tt
           end
       | None => ret tt                              (* catch {} *)
       end) ;;
    ret (Respond (up_status u) (Text t))
  else if negb (up_ok u) &&
          match up_body u with Some _ => true | None => false end
  then
    t <- text u ;;
    ret (Respond (up_status u) (Text t))
  else
    match up_body u with
    | None => throw                  (* [dsRes.body!.getReader()] *)
    | Some (chunks, e) => ret (RespondStream 200 chatId chunks e)
    end.

(** [routeChat(request, env)]; [dsRes] is what [fetch] resolves with
    ([None]: it rejects). *)
Definition routeChat (request : Request) (env : Env) (dsRes : option upstream)
  : M route_result :=
  match json_body request with
  | None => ret (badJSON 400 "Invalid JSON body")
  | Some b =>
      let chatId := match b_chat_id b with Some s => s | None => [] end in
      let content := trim (match b_content b with Some s => s | None => [] end) in
      let stream := stream_flag b in
      match chatId, content with
      | [], _ => ret (badJSON 400 "chat_id is required")
      | _, [] => ret (badJSON 400 "content is required")
      | _ :: _, _ :: _ =>
          known <- chatExists chatId ;;
          if negb known then ret (badJSON 404 "Chat not found") else
          (* Save user message *)
          insertMessage chatId RUser (JStr content) ;;
          (* Set chat title if empty *)
          updateChatTitleIfEmpty chatId content ;;
          (* Build recent history (last 30 messages) from DB *)
          history <- getMessages chatId 1000 ;;
          let last30 := slice_last 30 history in
          let finalMessages := system_message :: map of_row last30 in
          match api_key request env with
          | None | Some [] => ret (badJSON 401 "Missing DEEPSEEK_API_KEY")
          | Some (c :: k) =>
              emit (Fetch (c :: k)
                      {| model := DS_MODEL; p_messages := finalMessages;
                         p_stream := stream |}) ;;
              match dsRes with
              | None => throw
              | Some u => after_fetch chatId stream u
              end
          end
      end
  end.

(** The response's body once the handler has returned: [streamOut], when
    there is one, is read to its end. The text is what the relay captured. *)
Definition stream_body (r : route_result) : M (route_result * jsstring) :=
  match r with
  | Respond _ _ => ret (r, [])
  | RespondStream _ chatId chunks e =>
      st <- drain chatId capture_init chunks e ;;
      ret (r, assistant st)
  end.

(** A whole request: the handler, then the body of its response. *)
Definition serve (request : Request) (env : Env) (dsRes : option upstream)
  : M (route_result * jsstring) :=
  r <- routeChat request env dsRes ;;
  stream_body r.

End Relay.

End IndexTs.

(* ================================================================== *)
(** ** The earlier relay ([src/unnamed/part_000]): [streamOut] *)
(* ================================================================== *)

Module Part000.
Import JS Json Encoding Sse Worker.

Section Relay.

Variable JSON_parse : jsstring -> option json.

(** [pull(controller)] of the earlier [streamOut]: at the end of the
    upstream body it closes first and stores afterwards, and it has no
    frame of its own. *)
Definition pull (chatId : jsstring) (st : capture) (r : read_result)
  : M (capture * IndexTs.pull_status) :=
  emit (Read r) ;;
  match r with
  | ReadRejected => throw
  | ReadDone =>
      emit Close ;;
      (match trim (assistant st) with
       | [] => ret tt
       | _ :: _ => insertMessage chatId RAssistant (JStr (assistant st))
       end) ;;
      ret (st, IndexTs.Closed)
  | ReadChunk value =>
      emit (Enqueue value) ;;
      let chunk := decode_once value in
      ret (capture_chunk JSON_parse st chunk, IndexTs.Open)
  end.

Fixpoint drain (chatId : jsstring) (st : capture)
    (chunks : list (list byte)) (e : ending) : M capture :=
  match chunks with
  | value :: rest =>
      r <- pull chatId st (ReadChunk value) ;;
      drain chatId (fst r) rest e
  | [] =>
      r <- pull chatId st
             (match e with EndDone => ReadDone | EndFailed => ReadRejected end) ;;
      ret (fst r)
  end.

End Relay.

End Part000.

(* ================================================================== *)
(** ** The consumers: [onSend] of [public/chat.js] and of the sidebar
       front end ([src/unnamed/part_004]) *)
(* ================================================================== *)

Module Browser.
Import JS Json Encoding Sse.

(** What [onSend] does to the page and to the server, in order. *)
Inductive action :=
| PostChat (text : jsstring)            (* fetch("/api/chat", ...) *)
| AppendText (delta : jsstring)         (* appendText(assistantNode, delta) *)
| ShowHttpError (status : N)            (* "Error <status>" in the bubble *)
| ShowNetworkError                      (* "Network error" in the bubble *)
| LoadChat                              (* await loadChat(chatId) *)
| LoadChatLater (ms : N)                (* setTimeout(() =>
                                             loadChat(chatId).catch(()=>{}), ms) *)
| RefreshChats.                         (* await refreshChats() *)

(** The relay's response as the page reads it: the chunks its reader
    yields, then [done] ([r_done]) or a read that rejects. *)
Record reply := {
  r_ok : bool;
  r_status : N;
  r_chunks : list (list byte);
  r_done : bool
}.

End Browser.

Module ChatJs.
Import JS Json Encoding Sse Browser.

Section OnSend.

Variable JSON_parse : jsstring -> option json.

(** The locals of [onSend] and the actions so far. *)
Record state := {
  buffer : jsstring;
  full : jsstring;
  dec : TextDecoder;
  actions : list action
}.

Definition act (a : action) (st : state) : state :=
  {| buffer := buffer st; full := full st; dec := dec st;
     actions := actions st ++ [a] |}.

(** The body of [for (const evt of events)]. *)
Definition on_event (st : state) (evt : jsstring) : state :=
  match frame JSON_parse evt with
  | Skip => st
  | Append delta =>
      {| buffer := buffer st; full := full st ++ delta; dec := dec st;
         actions := actions st ++ [AppendText delta] |}
  end.

(** One round of the read loop on a chunk. *)
Definition on_chunk (st : state) (value : list byte) : state :=
  let (s, d) := decode (dec st) value true in
  let (events, rest) := pop (split (buffer st ++ s) BLANK) in
  fold_left on_event events
    {| buffer := match rest with Some r => r | None => [] end;
       full := full st; dec := d; actions := actions st |}.

Definition read_loop (st : state) (chunks : list (list byte)) : state :=
  fold_left on_chunk chunks st.

(** [onSend()]: [input] is the text box, [res] what [fetch] resolves with
    ([None]: it rejects), [load_ok] whether [loadChat] succeeds. *)
Definition onSend (input : jsstring) (sending : bool) (res : option reply)
    (load_ok : bool) : state :=
  let st0 := {| buffer := []; full := []; dec := new_TextDecoder;
                actions := [] |} in
  match trim input with
  | [] => st0
  | text =>
      if sending then st0 else
      let st1 := act (PostChat text) st0 in
      match res with
      | None => act ShowNetworkError st1
      | Some r =>
          if negb (r_ok r) then act (ShowHttpError (r_status r)) st1
          else
            let st2 := read_loop st1 (r_chunks r) in
            if negb (r_done r) then act ShowNetworkError st2
            else
              (* After stream finishes, refresh from server to be in sync *)
              let st3 := act LoadChat st2 in
              if load_ok then st3 else act ShowNetworkError st3
      end
  end.

End OnSend.

End ChatJs.

Module Part004.
Import JS Json Encoding Sse Browser.

Section OnSend.

Variable JSON_parse : jsstring -> option json.

Record state := {
  buffer : jsstring;
  full : jsstring;
  stored : bool;
  dec : TextDecoder;
  actions : list action
}.

Definition act (a : action) (st : state) : state :=
  {| buffer := buffer st; full := full st; stored := stored st;
     dec := dec st; actions := actions st ++ [a] |}.

(** The body of [for (const evt of events)], with the server sentinel. *)
Definition on_event (st : state) (evt : jsstring) : state :=
  match data_line evt with
  | None => st
  | Some line =>
      let payload := strip_data line in
      if str_eqb payload DONE then st
      else
        match JSON_parse payload with
        | None => st
        | Some j =>
            if truthy (Some j) && truthy (prop (lit "__stored") j) then
              {| buffer := buffer st; full := full st; stored := true;
                 dec := dec st; actions := actions st |}
            else
              let delta := or_empty (delta_content j) in
              if truthy (Some delta) then
                {| buffer := buffer st; full := full st ++ ToString delta;
                   stored := stored st; dec := dec st;
                   actions := actions st ++ [AppendText (ToString delta)] |}
              else st
        end
  end.

Definition on_chunk (st : state) (value : list byte) : state :=
  let (s, d) := decode (dec st) value true in
  let (events, rest) := pop (split (buffer st ++ s) BLANK) in
  fold_left on_event events
    {| buffer := match rest with Some r => r | None => [] end;
       full := full st; stored := stored st; dec := d;
       actions := actions st |}.

Definition read_loop (st : state) (chunks : list (list byte)) : state :=
  fold_left on_chunk chunks st.

(** [onSend()]; [chatId] is the page's current chat, [load_ok] whether
    [loadChat] succeeds when it is called. *)
Definition onSend (input : jsstring) (sending : bool)
    (chatId : option jsstring) (res : option reply) (load_ok : bool) : state :=
  let st0 := {| buffer := []; full := []; stored := false;
                dec := new_TextDecoder; actions := [] |} in
  match trim input, chatId with
  | [], _ | _, None | _, Some [] => st0
  | text, Some (_ :: _) =>
      if sending then st0 else
      let st1 := act (PostChat text) st0 in
      match res with
      | None => act ShowNetworkError st1
      | Some r =>
          if negb (r_ok r) then act (ShowHttpError (r_status r)) st1
          else
            let st2 := read_loop st1 (r_chunks r) in
            if negb (r_done r) then act ShowNetworkError st2
            else if stored st2 then
              (* Reload after storage confirmed *)
              let st3 := act LoadChat st2 in
              if load_ok then act RefreshChats st3
              else act ShowNetworkError st3
            else
              (* fallback slight delay; its failure is caught *)
              act RefreshChats (act (LoadChatLater 300) st2)
      end
  end.

End OnSend.

End Part004.

(* ================================================================== *)
(** ** A reference [JSON.parse] for closed examples *)
(* ================================================================== *)

Module JsonRef.
Import JS Json.

(** JSON white space: space, tab, line feed, carriage return. *)
Definition is_ws (c : N) : bool :=
  ((c =? 32) || (c =? 9) || (c =? 10) || (c =? 13))%N.

Fixpoint skip_ws (s : jsstring) : jsstring :=
  match s with
  | c :: r => if is_ws c then skip_ws r else s
  | [] => []
  end.

Definition is_digit (c : N) : bool := ((48 <=? c) && (c <=? 57))%N.

Definition hex (c : N) : option N :=
  (if is_digit c then Some (c - 48)
   else if (65 <=? c) && (c <=? 70) then Some (c - 55)
   else if (97 <=? c) && (c <=? 102) then Some (c - 87)
   else None)%N.

Definition hex4 (a b c d : N) : option N :=
  match hex a, hex b, hex c, hex d with
  | Some x, Some y, Some z, Some w => Some (4096 * x + 256 * y + 16 * z + w)%N
  | _, _, _, _ => None
  end.

(** The character a one-letter escape stands for. *)
Definition escape (e : N) : option N :=
  (if (e =? 34) || (e =? 92) || (e =? 47) then Some e
   else if e =? 98 then Some 8
   else if e =? 102 then Some 12
   else if e =? 110 then Some 10
   else if e =? 114 then Some 13
   else if e =? 116 then Some 9
   else None)%N.

(** A string after its opening quote: its value and the text after the
    closing quote. *)
Fixpoint string_body (acc s : jsstring) {struct s}
  : option (jsstring * jsstring) :=
  match s with
  | [] => None
  | c :: r =>
      if (c =? 34)%N then Some (rev acc, r)
      else if (c =? 92)%N then
        match r with
        | [] => None
        | e :: r1 =>
            if (e =? 117)%N then
              match r1 with
              | h1 :: h2 :: h3 :: h4 :: r2 =>
                  match hex4 h1 h2 h3 h4 with
                  | Some u => string_body (u :: acc) r2
                  | None => None
                  end
              | _ => None
              end
            else
              match escape e with
              | Some u => string_body (u :: acc) r1
              | None => None
              end
        end
      else if (c <? 32)%N then None
      else string_body (c :: acc) r
  end.

Fixpoint digits (s : jsstring) : jsstring * jsstring :=
  match s with
  | c :: r =>
      if is_digit c then let (d, r') := digits r in (c :: d, r') else ([], s)
  | [] => ([], [])
  end.

(** An integer literal of at most fifteen digits, as the text the number
    prints as. Literals with a fraction or an exponent, and longer ones,
    are outside this parser's fragment. *)
Definition integer (s : jsstring) : option (json * jsstring) :=
  let (neg, s1) := match s with
                   | c :: r => if (c =? 45)%N then (true, r) else (false, s)
                   | [] => (false, s)
                   end in
  let (d, r) := digits s1 in
  let after_ok := match r with
                  | c :: _ => negb ((c =? 46) || (c =? 101) || (c =? 69))%N
                  | [] => true
                  end in
  match d with
  | [] => None
  | d0 :: dr =>
      if (d0 =? 48)%N then
        match dr with
        | [] => if after_ok then Some (JNum (lit "0"), r) else None
        | _ :: _ => None
        end
      else if after_ok && (length d <=? 15) then
        Some (JNum (if neg then 45%N :: d else d), r)
      else None
  end.

Definition keyword (w : string) (v : json) (s : jsstring)
  : option (json * jsstring) :=
  if startsWith s (lit w) then Some (v, skipn (String.length w) s) else None.

(** A value, the elements of an array after its bracket or a comma, the
    members of an object after its brace or a comma. A later member with
    the same key hides an earlier one. *)
Fixpoint parse_value (fuel : nat) (s : jsstring) {struct fuel}
  : option (json * jsstring) :=
  match fuel with
  | O => None
  | S f =>
      match skip_ws s with
      | [] => None
      | c :: r =>
          if (c =? 123)%N then
            match skip_ws r with
            | c' :: r' =>
                if (c' =? 125)%N then Some (JObj [], r')
                else parse_members f [] (c' :: r')
            | [] => None
            end
          else if (c =? 91)%N then
            match skip_ws r with
            | c' :: r' =>
                if (c' =? 93)%N then Some (JArr [], r')
                else parse_elements f [] (c' :: r')
            | [] => None
            end
          else if (c =? 34)%N then
            match string_body [] r with
            | Some (v, r') => Some (JStr v, r')
            | None => None
            end
          else if (c =? 116)%N then keyword "true" (JBool true) (c :: r)
          else if (c =? 102)%N then keyword "false" (JBool false) (c :: r)
          else if (c =? 110)%N then keyword "null" JNull (c :: r)
          else integer (c :: r)
      end
  end

with parse_elements (fuel : nat) (acc : list json) (s : jsstring) {struct fuel}
  : option (json * jsstring) :=
  match fuel with
  | O => None
  | S f =>
      match parse_value f s with
      | None => None
      | Some (v, r) =>
          match skip_ws r with
          | c :: r' =>
              if (c =? 44)%N then parse_elements f (v :: acc) r'
              else if (c =? 93)%N then Some (JArr (rev (v :: acc)), r')
              else None
          | [] => None
          end
      end
  end

with parse_members (fuel : nat) (acc : list (jsstring * json)) (s : jsstring)
    {struct fuel} : option (json * jsstring) :=
  match fuel with
  | O => None
  | S f =>
      match skip_ws s with
      | c :: r =>
          if (c =? 34)%N then
            match string_body [] r with
            | None => None
            | Some (k, r1) =>
                match skip_ws r1 with
                | c1 :: r2 =>
                    if (c1 =? 58)%N then
                      match parse_value f r2 with
                      | None => None
                      | Some (v, r3) =>
                          match skip_ws r3 with
                          | c3 :: r4 =>
                              if (c3 =? 44)%N
                              then parse_members f ((k, v) :: acc) r4
                              else if (c3 =? 125)%N
                              then Some (JObj ((k, v) :: acc), r4)
                              else None
                          | [] => None
                          end
                      end
                    else None
                | [] => None
                end
            end
          else None
      | [] => None
      end
  end.

(** [JSON.parse(s)] on texts whose numbers are short integers. *)
Definition JSON_parse (s : jsstring) : option json :=
  match parse_value (2 * length s + 2) s with
  | Some (v, r) => match skip_ws r with [] => Some v | _ :: _ => None end
  | None => None
  end.

End JsonRef.

(* ================================================================== *)
(** ** Concrete inputs for the examples *)
(* ================================================================== *)

Module Examples.
Import JS Json Encoding Sse Worker.

Definition quoted (s : jsstring) : jsstring := [34%N] ++ s ++ [34%N].

(** [{"choices":[{"delta":{"content":"<d>"}}]}] for a text [d] that needs
    no escaping. *)
Definition delta_payload (d : jsstring) : jsstring :=
  lit "{" ++ quoted (lit "choices") ++ lit ":[{" ++ quoted (lit "delta") ++
  lit ":{" ++ quoted (lit "content") ++ lit ":" ++ quoted d ++ lit "}}]}".

(** An empty database, no clock readings, an empty log. *)
Definition empty_world : world :=
  {| DB := {| chats := []; messages := [] |}; clock := []; log := [] |}.

(** A database with the single chat ["c1"], untitled. *)
Definition one_chat : world :=
  {| DB := {| chats := [{| id := lit "c1"; title := None; created_at := 1 |}];
              messages := [] |};
     clock := [5%N; 9%N]; log := [] |}.

(** A chat-send for ["c1"] with the text ["hello"] and no credential. *)
Definition hello : IndexTs.Request :=
  {| IndexTs.json_body :=
       Some {| IndexTs.b_chat_id := Some (lit "c1");
               IndexTs.b_content := Some (lit " hello ");
               IndexTs.b_stream := None |};
     IndexTs.authorization := None |}.

Definition no_key : IndexTs.Env := {| IndexTs.DEEPSEEK_API_KEY := None |}.
Definition a_key : IndexTs.Env :=
  {| IndexTs.DEEPSEEK_API_KEY := Some (lit "sk-1") |}.

(** An upstream reply streaming the given chunks. *)
Definition streaming_reply (chunks : list (list byte)) (e : ending)
  : IndexTs.upstream :=
  {| IndexTs.up_status := 200; IndexTs.up_content_type := None;
     IndexTs.up_body := Some (chunks, e) |}.

(** The chat ["c1"] with thirty stored messages, written at times 1 to
    30, and a clock that reads 100. *)
Definition long_chat : world :=
  {| DB := {| chats := [{| id := lit "c1"; title := Some (lit "t");
                           created_at := 0 |}];
              messages :=
                map (fun n => {| chat_id := lit "c1"; m_role := RUser;
                                 content := JNum (lit "7");
                                 m_created_at := N.of_nat n |})
                    (seq 1 30) |};
     clock := [100%N]; log := [] |}.

(** The frame carrying ["Hi"], as bytes. *)
Definition hi_chunk : list byte := encode (data_frame (delta_payload (lit "Hi"))).

(** The frame carrying ["é"] (U+00E9, bytes C3 A9), cut between the two
    bytes of the character. *)
Definition e_acute_frame : list byte :=
  encode (data_frame (delta_payload [233%N])).

Definition e_acute_split : list (list byte) :=
  [firstn 40 e_acute_frame; skipn 40 e_acute_frame].

End Examples.

(* ================================================================== *)
(** ** [src/index.ts]: CORS, the dispatcher and the chat routes *)
(* ================================================================== *)

Module Routes.
Import JS Json Worker.

(** [a.includes(x)] on an array of strings *)
Definition includes (l : list jsstring) (x : jsstring) : bool :=
  existsb (str_eqb x) l.

(** [request.headers.get("Origin") || "*"] *)
Definition origin_of (header : option jsstring) : jsstring :=
  match header with
  | Some (c :: o) => c :: o
  | _ => lit "*"
  end.

(** The entries of [ALLOWED_ORIGINS]:
    [allowed.split(",").map((s) => s.trim())] *)
Definition origin_list (allowed : jsstring) : list jsstring :=
  map trim (split allowed (lit ",")).

(** The [allow] variable of [cors(origin, allowed)]. *)
Definition allow (origin : jsstring) (allowed : option jsstring) : jsstring :=
  match allowed with
  | Some (c :: a) =>
      if str_eqb (c :: a) (lit "*") then lit "*"
      else
        if includes (origin_list (c :: a)) origin then origin
        else match origin_list (c :: a) with
             | (x :: y) :: _ => x :: y              (* list[0] || "*" *)
             | _ => lit "*"
             end
  | _ => lit "*"
  end.

Record cors_headers := {
  Access_Control_Allow_Origin : jsstring;
  Access_Control_Allow_Headers : jsstring;
  Access_Control_Allow_Methods : jsstring
}.

(** [cors(origin, allowed)] *)
Definition cors (origin : jsstring) (allowed : option jsstring) : cors_headers :=
  {| Access_Control_Allow_Origin := allow origin allowed;
     Access_Control_Allow_Headers := lit "Content-Type, Authorization";
     Access_Control_Allow_Methods := lit "GET, POST, DELETE, OPTIONS" |}.

(* ------------------------------------------------------------------ *)
(** *** The dispatcher *)

(** The handler [fetch(request, env)] hands a request to. *)
Inductive route :=
| ToOptions                           (* handleOptions *)
| ToAssets                            (* env.ASSETS.fetch *)
| ToHealth
| ToCreateChat                        (* routeCreateChat *)
| ToListChats                         (* routeListChats *)
| ToGetChat (chatId : jsstring)       (* routeGetChat *)
| ToDeleteChat (chatId : jsstring)    (* routeDeleteChat *)
| ToChat                              (* routeChat *)
| ToNotFound.                         (* new Response("Not found", 404) *)

(** [[0-9a-fA-F-]] *)
Definition is_hex_dash (c : N) : bool :=
  ((48 <=? c) && (c <=? 57) || (97 <=? c) && (c <=? 102)
   || (65 <=? c) && (c <=? 70) || (c =? 45))%N.

(** [url.pathname.match(/^\/api\/chats\/([0-9a-fA-F-]+)$/)]: the captured
    group of the match, if there is one. *)
Definition chat_match (pathname : jsstring) : option jsstring :=
  if startsWith pathname (lit "/api/chats/") then
    match skipn 11 pathname with
    | [] => None
    | c :: r => if forallb is_hex_dash (c :: r) then Some (c :: r) else None
    end
  else None.

(** The default export's [fetch], as the choice of a handler from the
    method of the request and the path of its URL. *)
Definition fetch (method pathname : jsstring) : route :=
  if str_eqb method (lit "OPTIONS") then ToOptions
  else if str_eqb pathname (lit "/") || negb (startsWith pathname (lit "/api/"))
  then ToAssets
  else if str_eqb pathname (lit "/api/health") then ToHealth
  else if str_eqb pathname (lit "/api/chats") && str_eqb method (lit "POST")
  then ToCreateChat
  else if str_eqb pathname (lit "/api/chats") && str_eqb method (lit "GET")
  then ToListChats
  else
    match chat_match pathname, str_eqb method (lit "GET"),
          str_eqb method (lit "DELETE") with
    | Some chatId, true, _ => ToGetChat chatId
    | Some chatId, false, true => ToDeleteChat chatId
    | _, _, _ =>
        if str_eqb pathname (lit "/api/chat") && str_eqb method (lit "POST")
        then ToChat
        else ToNotFound
    end.

(* ------------------------------------------------------------------ *)
(** *** D1 helpers of the chat routes *)

(** [createChat(env, title)]; [bound] tells whether [env.DB] is there and
    [uuid] is what [crypto.randomUUID()] gives. The [id] column is filled
    by that generator only. *)
Definition createChat (bound : bool) (uuid : jsstring)
    (title : option jsstring) : M jsstring :=
  if negb bound then throw else
  now <- Date_now ;;
  d <- read_db ;;
  write_db {| chats := chats d ++
                [{| id := uuid; title := title; created_at := now |}];
              messages := messages d |} ;;
  ret uuid.

(** [deleteChat(env, chatId)]: the messages first, then the chat. *)
Definition deleteChat (chatId : jsstring) : M unit :=
  d <- read_db ;;
  write_db {| chats := chats d;
              messages := filter (fun m => negb (str_eqb (chat_id m) chatId))
                            (messages d) |} ;;
  d' <- read_db ;;
  write_db {| chats := filter (fun c => negb (str_eqb (id c) chatId)) (chats d');
              messages := messages d' |}.

(** A row of the [listChats] query. *)
Record chat_summary := {
  s_id : jsstring;
  s_title : jsstring;
  s_created_at : N;
  last_activity : N;
  message_count : nat
}.

(** SQL [MAX(m.created_at)] over the joined messages: NULL when there is
    none. *)
Fixpoint MAX_created_at (ms : list message_row) : option N :=
  match ms with
  | [] => None
  | m :: r =>
      match MAX_created_at r with
      | None => Some (m_created_at m)
      | Some t => Some (N.max (m_created_at m) t)
      end
  end.

(** The group of one chat in
    [chats c LEFT JOIN messages m ON m.chat_id = c.id GROUP BY c.id].
    [COUNT(m.id)] counts the joined messages: the [id] column of
    [messages], which the code never writes, is taken to be set on every
    row. *)
Definition summary (d : D1Database) (c : chat_row) : chat_summary :=
  let ms := filter (fun m => str_eqb (chat_id m) (id c)) (messages d) in
  {| s_id := id c;
     s_title := match NULLIF_empty (title c) with
                | Some t => t
                | None => lit "Untitled"
                end;
     s_created_at := created_at c;
     last_activity := match MAX_created_at ms with
                      | Some t => t
                      | None => created_at c
                      end;
     message_count := length ms |}.

(** [ORDER BY last_activity DESC]: rows with equal activity keep the order
    of the table. *)
Fixpoint insert_by_activity (x : chat_summary) (l : list chat_summary)
  : list chat_summary :=
  match l with
  | [] => [x]
  | y :: r =>
      if (last_activity y <=? last_activity x)%N then x :: l
      else y :: insert_by_activity x r
  end.

Definition order_by_last_activity (l : list chat_summary) : list chat_summary :=
  fold_right insert_by_activity [] l.

(** SQL [LIMIT l OFFSET o]: a negative limit is no limit. *)
Definition LIMIT_OFFSET {A} (l : Z) (o : nat) (rows : list A) : list A :=
  if (l <? 0)%Z then skipn o rows else firstn (Z.to_nat l) (skipn o rows).

(** The query of [listChats], on a table whose ids are distinct. *)
Definition select_chats (d : D1Database) (limit : Z) (offset : nat)
  : list chat_summary :=
  LIMIT_OFFSET limit offset
    (order_by_last_activity (map (summary d) (chats d))).

Definition listChats (limit : Z) (offset : nat) : M (list chat_summary) :=
  d <- read_db ;;
  ret (select_chats d limit offset).

(* ------------------------------------------------------------------ *)
(** *** The chat routes *)

(** The JSON the chat routes answer with. *)
Inductive api_response :=
| Created (chat_id : jsstring)              (* 200 [{ chat_id }] *)
| Listed (data : list chat_summary)         (* 200 [{ data }] *)
| Found (chat_id : jsstring) (msgs : list message_row)
                                            (* 200 [{ chat_id, messages }] *)
| Deleted                                   (* 200 [{ ok: true }] *)
| Failed (status : N) (message : jsstring). (* [{ error: { message } }] *)

(** [routeCreateChat]; [title] is [body?.title], absent for a body that is
    not JSON. An error of [createChat] is answered 500. *)
Definition routeCreateChat (bound : bool) (uuid : jsstring)
    (title : option jsstring) : M api_response :=
  fun w =>
    match createChat bound uuid title w with
    | (Returned chatId, w') => (Returned (Created chatId), w')
    | (Thrown, w') =>
        (Returned (Failed 500 (lit "D1 binding 'DB' missing")), w')
    end.

(** [Math.min(Number(url.searchParams.get("limit") || 100), 200)] and
    [Math.max(Number(url.searchParams.get("offset") || 0), 0)], for a
    parameter that is absent or empty ([None]) or is the decimal text of
    an integer. *)
Definition limit_of (param : option Z) : Z :=
  Z.min (match param with Some z => z | None => 100 end) 200.

Definition offset_of (param : option Z) : nat :=
  Z.to_nat (Z.max (match param with Some z => z | None => 0 end) 0).

(** [routeListChats] *)
Definition routeListChats (limit offset : option Z) : M api_response :=
  rows <- listChats (limit_of limit) (offset_of offset) ;;
  ret (Listed rows).

(** [routeGetChat] *)
Definition routeGetChat (chatId : jsstring) : M api_response :=
  known <- chatExists chatId ;;
  if negb known then ret (Failed 404 (lit "Chat not found")) else
  msgs <- getMessages chatId 1000 ;;
  ret (Found chatId msgs).

(** [routeDeleteChat] *)
Definition routeDeleteChat (chatId : jsstring) : M api_response :=
  known <- chatExists chatId ;;
  if negb known then ret (Failed 404 (lit "Chat not found")) else
  deleteChat chatId ;;
  ret Deleted.

End Routes.

(* ================================================================== *)
(** ** The earlier relay ([src/unnamed/part_000]): [routeChat] *)
(* ================================================================== *)

Module Part000Chat.
Import JS Json Encoding Sse Worker.

Section Relay.

Variable JSON_parse : jsstring -> option json.

(** The user message the earlier [routeChat] appends to the history it
    has read: [{ role: "user", content }]. *)
Definition appended (content : jsstring) : chat_message :=
  {| cm_role := RUser; cm_content := JStr content; cm_created_at := None |}.

(** [routeChat(request, env)] of the earlier relay: no title update, and
    the user message appended to the history. What follows [await fetch]
    is the code of [src/index.ts]. *)
Definition routeChat (request : IndexTs.Request) (env : IndexTs.Env)
    (dsRes : option IndexTs.upstream) : M IndexTs.route_result :=
  match IndexTs.json_body request with
  | None => ret (IndexTs.badJSON 400 "Invalid JSON body")
  | Some b =>
      let chatId :=
        match IndexTs.b_chat_id b with Some s => s | None => [] end in
      let content :=
        trim (match IndexTs.b_content b with Some s => s | None => [] end) in
      let stream := IndexTs.stream_flag b in
      match chatId, content with
      | [], _ => ret (IndexTs.badJSON 400 "chat_id is required")
      | _, [] => ret (IndexTs.badJSON 400 "content is required")
      | _ :: _, _ :: _ =>
          (* ensure chat exists *)
          known <- chatExists chatId ;;
          if negb known then ret (IndexTs.badJSON 404 "Chat not found") else
          (* Insert user message now *)
          insertMessage chatId RUser (JStr content) ;;
          (* Build history from DB (last 30) *)
          history <- getMessages chatId 1000 ;;
          let last30 := slice_last 30 history in
          let finalMessages :=
            IndexTs.system_message :: map IndexTs.of_row last30 ++
            [appended content] in
          match IndexTs.api_key request env with
          | None | Some [] =>
              ret (IndexTs.badJSON 401 "Missing DEEPSEEK_API_KEY")
          | Some (c :: k) =>
              emit (Fetch (c :: k)
                      {| model := IndexTs.DS_MODEL;
                         p_messages := finalMessages;
                         p_stream := stream |}) ;;
              match dsRes with
              | None => throw
              | Some u => IndexTs.after_fetch JSON_parse chatId stream u
              end
          end
      end
  end.

End Relay.

End Part000Chat.

(* ================================================================== *)
(** ** Vocabulary for the tables, and further example inputs *)
(* ================================================================== *)

Module Tables.
Import JS Json Worker.

(** The chat has a row in [chats]. *)
Definition known (chatId : jsstring) (d : D1Database) : bool :=
  existsb (fun c => str_eqb (id c) chatId) (chats d).

(** The rows of [messages] of one chat, in the order of the table. *)
Definition own (chatId : jsstring) (d : D1Database) : list message_row :=
  filter (fun m => str_eqb (chat_id m) chatId) (messages d).

(** [a] is not later than [b]. *)
Definition by_time (a b : message_row) : Prop :=
  (m_created_at a <= m_created_at b)%N.

(** The last activity of [a] is not earlier than that of [b]. *)
Definition by_activity (a b : Routes.chat_summary) : Prop :=
  (Routes.last_activity b <= Routes.last_activity a)%N.

(** Every message belongs to a chat that has a row, and no two rows of
    [chats] have the same id. *)
Definition consistent (d : D1Database) : Prop :=
  NoDup (map id (chats d)) /\
  Forall (fun m => known (chat_id m) d = true) (messages d).

End Tables.

Module Scenes.
Import JS Json Encoding Sse Worker.




(** Two chats: ["c1"] with messages written at times 3 and 6, ["c2"]
    with one written at time 4. *)
Definition two_chats : world :=
  {| DB := {| chats := [{| id := lit "c1"; title := None; created_at := 1 |};
                        {| id := lit "c2"; title := Some (lit "t2");
                           created_at := 2 |}];
              messages :=
                [{| chat_id := lit "c1"; m_role := RUser;
                    content := JStr (lit "a"); m_created_at := 3 |};
                 {| chat_id := lit "c2"; m_role := RUser;
                    content := JStr (lit "b"); m_created_at := 4 |};
                 {| chat_id := lit "c1"; m_role := RAssistant;
                    content := JStr (lit "c"); m_created_at := 6 |}] |};
     clock := [10%N; 12%N]; log := [] |}.

(** A chat-send for ["c1"] with a text of 52 letters. *)
Definition wordy : IndexTs.Request :=
  {| IndexTs.json_body :=
       Some {| IndexTs.b_chat_id := Some (lit "c1");
               IndexTs.b_content :=
                 Some (lit "abcdefghijklmnopqrstuvwxyzabcdefghijklmnopqrstuvwxyz");
               IndexTs.b_stream := None |};
     IndexTs.authorization := None |}.

(** A chat-send for ["c1"] with 47 letters, then U+1F600 (the code units
    D83D DE00), then an exclamation mark. *)
Definition emoji_at_the_cut : IndexTs.Request :=
  {| IndexTs.json_body :=
       Some {| IndexTs.b_chat_id := Some (lit "c1");
               IndexTs.b_content :=
                 Some (repeat 97%N 47 ++ [55357%N; 56832%N] ++ lit "!");
               IndexTs.b_stream := None |};
     IndexTs.authorization := None |}.

End Scenes.

(* ================================================================== *)
(** ** The page and the relay together *)
(* ================================================================== *)

Module Pages.
Import JS Json Encoding Sse Worker.

(** The request [onSend] posts:
    [{ chat_id: chatId, content: text, stream: true }], with a content
    type and no Authorization header. *)
Definition posted (chatId text : jsstring) : IndexTs.Request :=
  {| IndexTs.json_body :=
       Some {| IndexTs.b_chat_id := Some chatId;
               IndexTs.b_content := Some text;
               IndexTs.b_stream := Some (JBool true) |};
     IndexTs.authorization := None |}.

(** The response [new Response(streamOut, { status: 200 })] as the page
    reads it once [streamOut] is closed: the chunks enqueued, then
    [done]. *)
Definition streamed (l : list effect) : Browser.reply :=
  {| Browser.r_ok := true; Browser.r_status := 200;
     Browser.r_chunks := enqueued l; Browser.r_done := true |}.

(** A state of the sidebar page's [onSend] with another carry-over buffer
    and decoder. *)
Definition rebuffered (b : jsstring) (d : TextDecoder) (st : Part004.state)
  : Part004.state :=
  {| Part004.buffer := b; Part004.full := Part004.full st;
     Part004.stored := Part004.stored st; Part004.dec := d;
     Part004.actions := Part004.actions st |}.

(** A response with a status and a body that is not a stream, as the
    page reads it: [res.ok] is a status from 200 to 299. *)
Definition buffered (status : N) : Browser.reply :=
  {| Browser.r_ok := ((200 <=? status) && (status <=? 299))%N;
     Browser.r_status := status;
     Browser.r_chunks := []; Browser.r_done := true |}.

End Pages.

(* ================================================================== *)
(** * Properties *)
(* ================================================================== *)

Import JS Json Encoding Sse Worker.

(* ------------------------------------------------------------------ *)
(** ** Strings: [startsWith], [cut] and [split] *)

Lemma str_eqb_eq (a b : jsstring) : str_eqb a b = true <-> a = b.
Proof.
  revert b; induction a as [|x a IH]; intros [|y b]; simpl;
    try (split; [discriminate | discriminate]); try tauto.
  rewrite andb_true_iff, N.eqb_eq, IH.
  split; [intros [-> ->]; reflexivity | intros E; inversion E; auto].
Qed.

Lemma str_eqb_refl (a : jsstring) : str_eqb a a = true.
Proof. apply str_eqb_eq; reflexivity. Qed.

Lemma str_eqb_neq (a b : jsstring) : str_eqb a b = false <-> a <> b.
Proof.
  rewrite <- str_eqb_eq. destruct (str_eqb a b); split; congruence.
Qed.

Lemma startsWith_spec (s p : jsstring) :
  startsWith s p = true <-> exists r, s = p ++ r.
Proof.
  revert s; induction p as [|x p IH]; intros s; simpl.
  - split; [exists s; reflexivity | destruct s; reflexivity].
  - destruct s as [|y s].
    + split; [discriminate | intros [r E]; discriminate].
    + rewrite andb_true_iff, N.eqb_eq, IH. split.
      * intros [-> [r ->]]. exists r; reflexivity.
      * intros [r E]. inversion E; subst. split; eauto.
Qed.

Lemma startsWith_skipn (s p : jsstring) :
  startsWith s p = true -> s = p ++ skipn (length p) s.
Proof.
  intros H. apply startsWith_spec in H as [r ->].
  rewrite skipn_app, skipn_all, Nat.sub_diag. reflexivity.
Qed.

Lemma startsWith_length (s p : jsstring) :
  startsWith s p = true -> length p <= length s.
Proof.
  intros H. apply startsWith_spec in H as [r ->].
  rewrite length_app. lia.
Qed.

Lemma startsWith_app_long (s t p : jsstring) :
  length p <= length s -> startsWith (s ++ t) p = startsWith s p.
Proof.
  revert s; induction p as [|x p IH]; intros s L; simpl; [reflexivity|].
  destruct s as [|y s]; simpl in *; [lia|].
  rewrite IH by lia. reflexivity.
Qed.

Lemma cut_short (sep s : jsstring) :
  length s < length sep -> cut sep s = None.
Proof.
  induction s as [|c r IH]; intros L.
  - destruct sep; simpl in *; [lia | reflexivity].
  - simpl. destruct (startsWith (c :: r) sep) eqn:E.
    + apply startsWith_length in E. lia.
    + rewrite IH; [reflexivity | simpl in L; lia].
Qed.

Lemma cut_spec (sep s b a : jsstring) :
  cut sep s = Some (b, a) -> s = b ++ sep ++ a.
Proof.
  revert b a; induction s as [|c r IH]; intros b a.
  - simpl. destruct (startsWith [] sep) eqn:E; [|discriminate].
    intros H; inversion H; subst. apply startsWith_skipn in E. exact E.
  - simpl. destruct (startsWith (c :: r) sep) eqn:E.
    + intros H; inversion H; subst. apply startsWith_skipn in E. exact E.
    + destruct (cut sep r) as [[b' a']|] eqn:C; [|discriminate].
      intros H; inversion H; subst. simpl. f_equal. apply IH; reflexivity.
Qed.

Lemma cut_shorter (sep s b a : jsstring) :
  sep <> [] -> cut sep s = Some (b, a) -> length a < length s.
Proof.
  intros N H. apply cut_spec in H. subst s.
  rewrite !length_app. destruct sep; [congruence | simpl; lia].
Qed.

(** A cut found in [s] is the cut found in [s ++ t]. *)
Lemma cut_app (sep s t b a : jsstring) :
  cut sep s = Some (b, a) -> cut sep (s ++ t) = Some (b, a ++ t).
Proof.
  revert b a; induction s as [|c r IH]; intros b a.
  - simpl. destruct (startsWith [] sep) eqn:E; [|discriminate].
    intros H; inversion H; subst.
    destruct sep; [|discriminate]. simpl.
    destruct t; reflexivity.
  - simpl. destruct (startsWith (c :: r) sep) eqn:E.
    + intros H; inversion H; subst.
      pose proof (startsWith_length _ _ E) as L.
      change (c :: r ++ t) with ((c :: r) ++ t).
      rewrite startsWith_app_long, E by exact L.
      rewrite skipn_app.
      replace (length sep - length (c :: r)) with 0 by lia.
      reflexivity.
    + destruct (cut sep r) as [[b' a']|] eqn:C; [|discriminate].
      intros H; inversion H; subst.
      change (c :: r ++ t) with ((c :: r) ++ t).
      destruct (le_lt_dec (length sep) (length (c :: r))) as [L|L].
      * rewrite startsWith_app_long, E by exact L.
        rewrite (IH _ _ eq_refl). reflexivity.
      * rewrite cut_short in C; [discriminate | simpl in L; lia].
Qed.

Lemma split_fuel_enough (sep : jsstring) (n m : nat) (s : jsstring) :
  sep <> [] -> length s <= n -> length s <= m ->
  split_fuel n sep s = split_fuel m sep s.
Proof.
  intros N. revert m s; induction n as [|n IH]; intros m s Ln Lm.
  - destruct s; [|simpl in Ln; lia].
    destruct m; cbn [split_fuel]; [reflexivity|].
    rewrite cut_short; [reflexivity|]. destruct sep; [congruence | simpl; lia].
  - destruct m as [|m].
    + destruct s; [|simpl in Lm; lia]. cbn [split_fuel].
      rewrite cut_short; [reflexivity|]. destruct sep; [congruence | simpl; lia].
    + cbn [split_fuel]. destruct (cut sep s) as [[b a]|] eqn:C; [|reflexivity].
      pose proof (cut_shorter _ _ _ _ N C). f_equal. apply IH; lia.
Qed.

(** The equation [split] satisfies. *)
Lemma split_unfold (s sep : jsstring) :
  sep <> [] ->
  split s sep =
    match cut sep s with
    | None => [s]
    | Some (b, a) => b :: split a sep
    end.
Proof.
  intros N. unfold split. destruct s as [|c r].
  - cbn [length split_fuel]. rewrite cut_short; [reflexivity|].
    destruct sep; [congruence | simpl; lia].
  - cbn [length split_fuel].
    destruct (cut sep (c :: r)) as [[b a]|] eqn:C; [|reflexivity].
    pose proof (cut_shorter _ _ _ _ N C) as L. f_equal.
    apply split_fuel_enough; [exact N | simpl in L; lia | lia].
Qed.

Lemma split_not_nil (s sep : jsstring) : sep <> [] -> split s sep <> [].
Proof.
  intros N. rewrite split_unfold by exact N.
  destruct (cut sep s) as [[b a]|]; discriminate.
Qed.

(** Splitting [s ++ t] is splitting [s], then going on from the last
    piece of [s] with [t] appended: the carry-over of the read loops. *)
Lemma split_app (s t sep : jsstring) :
  sep <> [] ->
  split (s ++ t) sep =
    removelast (split s sep) ++ split (last (split s sep) [] ++ t) sep.
Proof.
  intros N. remember (length s) as n eqn:E.
  revert s E; induction n as [n IH] using lt_wf_ind; intros s ->.
  rewrite (split_unfold s sep N).
  destruct (cut sep s) as [[b a]|] eqn:C.
  - rewrite (split_unfold (s ++ t) sep N), (cut_app _ _ t _ _ C).
    rewrite (IH (length a) (cut_shorter _ _ _ _ N C) a eq_refl).
    pose proof (split_not_nil a sep N) as NE.
    destruct (split a sep) as [|x l] eqn:S; [congruence|].
    reflexivity.
  - reflexivity.
Qed.

(* ------------------------------------------------------------------ *)
(** ** The capture loop does not depend on the chunking of the text *)

Lemma BLANK_not_nil : BLANK <> [].
Proof. discriminate. Qed.

Lemma LF_not_nil : LF <> [].
Proof. discriminate. Qed.

Lemma pop_split (s sep : jsstring) :
  sep <> [] ->
  pop (split s sep) =
    (removelast (split s sep), Some (last (split s sep) [])).
Proof.
  intros N. pose proof (split_not_nil s sep N).
  destruct (split s sep); [congruence | reflexivity].
Qed.

Lemma removelast_last_app {A} (l1 l2 : list A) (d : A) :
  l2 <> [] ->
  removelast (l1 ++ l2) = l1 ++ removelast l2 /\
  last (l1 ++ l2) d = last l2 d.
Proof.
  intros N. split.
  - apply removelast_app; exact N.
  - induction l1 as [|x l1 IH]; [reflexivity|].
    simpl. destruct (l1 ++ l2) eqn:E; [|exact IH].
    apply app_eq_nil in E as [_ E]. congruence.
Qed.

Section CaptureChunks.

Variable P : jsstring -> option json.

Lemma capture_chunk_eq (st : capture) (c : jsstring) :
  capture_chunk P st c =
    {| buffer := last (split (buffer st ++ c) BLANK) [];
       assistant := fold_left (capture_event P)
                      (removelast (split (buffer st ++ c) BLANK))
                      (assistant st) |}.
Proof.
  unfold capture_chunk. rewrite pop_split by apply BLANK_not_nil. reflexivity.
Qed.

(** Two chunks in a row are one chunk. *)
Lemma capture_chunk_app (st : capture) (c1 c2 : jsstring) :
  capture_chunk P (capture_chunk P st c1) c2 = capture_chunk P st (c1 ++ c2).
Proof.
  rewrite !capture_chunk_eq. cbn [buffer assistant].
  rewrite app_assoc.
  rewrite (split_app (buffer st ++ c1) c2 BLANK BLANK_not_nil).
  set (s1 := split (buffer st ++ c1) BLANK).
  set (s2 := split (last s1 [] ++ c2) BLANK).
  assert (N2 : s2 <> []) by apply split_not_nil, BLANK_not_nil.
  destruct (removelast_last_app (removelast s1) s2 [] N2) as [-> ->].
  rewrite fold_left_app. reflexivity.
Qed.

Lemma capture_chunk_nil : capture_chunk P capture_init [] = capture_init.
Proof. reflexivity. Qed.

Lemma capture_chunks_from (x : jsstring) (cs : list jsstring) :
  fold_left (capture_chunk P) cs (capture_chunk P capture_init x) =
  capture_chunk P capture_init (x ++ concat cs).
Proof.
  revert x; induction cs as [|c cs IH]; intros x; simpl.
  - rewrite app_nil_r. reflexivity.
  - rewrite capture_chunk_app, IH, app_assoc. reflexivity.
Qed.

(** However the text is cut into chunks, the capture ends as on the whole
    text in one chunk. *)
Lemma capture_chunks (cs : list jsstring) :
  fold_left (capture_chunk P) cs capture_init =
  capture_chunk P capture_init (concat cs).
Proof.
  rewrite <- capture_chunk_nil at 1. apply capture_chunks_from.
Qed.

End CaptureChunks.

(* ------------------------------------------------------------------ *)
(** ** A stream of data frames yields its deltas *)

Lemma cut_no_LF (s : jsstring) : ~ In 10%N s -> cut LF s = None.
Proof.
  induction s as [|c r IH]; intros H; [reflexivity|].
  cbn [cut]. unfold LF at 1. cbn [startsWith].
  destruct (N.eqb_spec 10 c) as [E|_]; [exfalso; apply H; left; symmetry; exact E|].
  cbn [andb]. rewrite IH; [reflexivity|].
  intros I; apply H; right; exact I.
Qed.

Lemma split_no_LF (s : jsstring) : ~ In 10%N s -> split s LF = [s].
Proof.
  intros H. rewrite split_unfold by apply LF_not_nil.
  rewrite cut_no_LF by exact H. reflexivity.
Qed.

Lemma startsWith_cons_BLANK (c : N) (x : jsstring) :
  startsWith (c :: x) BLANK = ((10 =? c)%N && startsWith x LF).
Proof. reflexivity. Qed.

Lemma cut_frame (e rest : jsstring) :
  ~ In 10%N e -> cut BLANK (e ++ BLANK ++ rest) = Some (e, rest).
Proof.
  induction e as [|c r IH]; intros H; [reflexivity|].
  rewrite <- app_comm_cons. cbn [cut]. rewrite startsWith_cons_BLANK.
  destruct (N.eqb_spec 10 c) as [E|_]; [exfalso; apply H; left; symmetry; exact E|].
  cbn [andb]. rewrite IH; [reflexivity|].
  intros I; apply H; right; exact I.
Qed.

Lemma split_frames (evts : list jsstring) :
  Forall (fun e => ~ In 10%N e) evts ->
  split (concat (map (fun e => e ++ BLANK) evts)) BLANK = evts ++ [[]].
Proof.
  induction 1 as [|e evts He _ IH]; [reflexivity|].
  rewrite split_unfold by apply BLANK_not_nil.
  cbn [map concat]. rewrite <- app_assoc, cut_frame by exact He.
  rewrite IH. reflexivity.
Qed.

Lemma data_prefix_no_LF (payload : jsstring) :
  ~ In 10%N payload -> ~ In 10%N (lit "data: " ++ payload).
Proof.
  intros H I. apply in_app_or in I as [I|I]; [|exact (H I)].
  cbn in I. repeat (destruct I as [I|I]; [discriminate|]). exact I.
Qed.

Section StreamOfFrames.

Variable P : jsstring -> option json.

Lemma frame_carries (payload d : jsstring) :
  carries P payload d ->
  frame P (lit "data: " ++ payload) =
    match d with [] => Skip | _ :: _ => Append d end.
Proof.
  intros (NoLF & NotDone & j & Pj & Dj).
  unfold frame, data_line.
  rewrite split_no_LF by (apply data_prefix_no_LF; exact NoLF).
  cbn [find_first].
  change (startsWith (lit "data: " ++ payload) (lit "data:")) with true.
  cbv iota.
  change (strip_data (lit "data: " ++ payload)) with payload.
  apply str_eqb_neq in NotDone. rewrite NotDone, Pj, Dj.
  destruct d; reflexivity.
Qed.

Lemma capture_event_carries (a payload d : jsstring) :
  carries P payload d ->
  capture_event P a (lit "data: " ++ payload) = a ++ d.
Proof.
  intros C. unfold capture_event. rewrite (frame_carries _ _ C).
  destruct d; [rewrite app_nil_r|]; reflexivity.
Qed.

Lemma capture_events_carry (a : jsstring) (payloads deltas : list jsstring) :
  Forall2 (carries P) payloads deltas ->
  fold_left (capture_event P) (map (app (lit "data: ")) payloads) a =
  a ++ concat deltas.
Proof.
  intros F; revert a; induction F as [|p d ps ds C _ IH]; intros a.
  - simpl. rewrite app_nil_r. reflexivity.
  - cbn [map fold_left concat].
    rewrite (capture_event_carries _ _ _ C), IH, app_assoc. reflexivity.
Qed.

Lemma sse_stream_eq (payloads : list jsstring) :
  sse_stream payloads =
  concat (map (fun e => e ++ BLANK) (map (app (lit "data: ")) payloads)).
Proof.
  unfold sse_stream, data_frame. rewrite map_map. reflexivity.
Qed.

Lemma carries_no_LF (payloads deltas : list jsstring) :
  Forall2 (carries P) payloads deltas ->
  Forall (fun e => ~ In 10%N e) (map (app (lit "data: ")) payloads).
Proof.
  induction 1 as [|p d ps ds C _ IH]; constructor; [|exact IH].
  apply data_prefix_no_LF. exact (proj1 C).
Qed.

(** The whole stream in one chunk: every frame is complete, nothing is
    carried over, the accumulator is the deltas in order. *)
Lemma capture_stream (payloads deltas : list jsstring) :
  Forall2 (carries P) payloads deltas ->
  capture_chunk P capture_init (sse_stream payloads) =
    {| buffer := []; assistant := concat deltas |}.
Proof.
  intros F. rewrite capture_chunk_eq.
  change (buffer capture_init ++ sse_stream payloads)
    with (sse_stream payloads).
  change (assistant capture_init) with (@nil N).
  rewrite sse_stream_eq, (split_frames _ (carries_no_LF _ _ F)).
  rewrite removelast_last, last_last.
  rewrite (capture_events_carry _ _ _ F). reflexivity.
Qed.

End StreamOfFrames.

(* ------------------------------------------------------------------ *)
(** ** The streaming decoder does not depend on the chunking of the bytes *)

Lemma utf8_bytes_app (st : utf8_state) (a b : list byte) :
  utf8_bytes st (a ++ b) =
    let (o1, st1) := utf8_bytes st a in
    let (o2, st2) := utf8_bytes st1 b in
    (o1 ++ o2, st2).
Proof.
  revert st; induction a as [|x a IH]; intros st; cbn [app utf8_bytes].
  - destruct (utf8_bytes st b); reflexivity.
  - destruct (utf8_byte st (Byte.to_N x)) as [o st'].
    rewrite IH. destruct (utf8_bytes st' a) as [o1 st1].
    destruct (utf8_bytes st1 b) as [o2 st2].
    rewrite app_assoc. reflexivity.
Qed.

Lemma serialize_app (seen : bool) (o1 o2 : list N) :
  serialize seen (o1 ++ o2) =
    let (s1, b1) := serialize seen o1 in
    let (s2, b2) := serialize b1 o2 in
    (s1 ++ s2, b2).
Proof.
  revert seen; induction o1 as [|cp o1 IH]; intros seen; cbn [app serialize].
  - destruct (serialize seen o2); reflexivity.
  - destruct seen.
    + rewrite IH. destruct (serialize true o1) as [s1 b1].
      destruct (serialize b1 o2) as [s2 b2]. rewrite app_assoc. reflexivity.
    + destruct (cp =? 65279)%N.
      * apply IH.
      * rewrite IH. destruct (serialize true o1) as [s1 b1].
        destruct (serialize b1 o2) as [s2 b2]. rewrite app_assoc. reflexivity.
Qed.

Lemma decode_streaming (d : TextDecoder) (v : list byte) :
  do_not_flush (snd (decode d v true)) = true.
Proof.
  unfold decode.
  destruct (utf8_bytes _ v) as [o st1]. destruct (serialize _ o). reflexivity.
Qed.

(** A streaming call on [a ++ b] is a streaming call on [a], then one on
    [b]. *)
Lemma decode_app (d : TextDecoder) (a b : list byte) :
  do_not_flush d = true ->
  decode d (a ++ b) true =
    let (s1, d1) := decode d a true in
    let (s2, d2) := decode d1 b true in
    (s1 ++ s2, d2).
Proof.
  intros F. unfold decode. rewrite F, utf8_bytes_app.
  destruct (utf8_bytes (dec_state d) a) as [o1 st1].
  destruct (serialize (bom_seen d) o1) as [s1 b1] eqn:S1.
  cbn [do_not_flush dec_state bom_seen].
  destruct (utf8_bytes st1 b) as [o2 st2].
  rewrite serialize_app, S1.
  destruct (serialize b1 o2) as [s2 b2]. reflexivity.
Qed.

Lemma decode_nil (d : TextDecoder) :
  do_not_flush d = true -> decode d [] true = ([], d).
Proof.
  intros F. unfold decode. rewrite F. cbn. destruct d; cbn in *.
  subst. reflexivity.
Qed.

Lemma decode_stream_concat (d : TextDecoder) (chunks : list (list byte)) :
  do_not_flush d = true ->
  concat (decode_stream d chunks) = fst (decode d (concat chunks) true).
Proof.
  revert d; induction chunks as [|v r IH]; intros d F.
  - rewrite decode_nil by exact F. reflexivity.
  - cbn [decode_stream concat]. rewrite (decode_app _ _ _ F).
    pose proof (decode_streaming d v) as F1.
    destruct (decode d v true) as [s d1]. cbn [snd] in F1.
    cbn [concat]. rewrite (IH _ F1).
    destruct (decode d1 (concat r) true). reflexivity.
Qed.

(** The first call on a new decoder is a streaming call like the next. *)
Lemma decode_new (v : list byte) :
  decode new_TextDecoder v true =
  decode {| dec_state := utf8_init; bom_seen := false;
            do_not_flush := true |} v true.
Proof. reflexivity. Qed.

Lemma decode_stream_new (chunks : list (list byte)) :
  concat (decode_stream new_TextDecoder chunks) =
  fst (decode new_TextDecoder (concat chunks) true).
Proof.
  destruct chunks as [|v r]; [reflexivity|].
  cbn [decode_stream]. rewrite !decode_new.
  change (fst (decode new_TextDecoder (concat (v :: r)) true))
    with (fst (decode {| dec_state := utf8_init; bom_seen := false;
                         do_not_flush := true |} (concat (v :: r)) true)).
  rewrite <- decode_stream_concat by reflexivity. reflexivity.
Qed.

(* ------------------------------------------------------------------ *)
(** ** What the handlers do, step by step *)

Lemma insertMessage_bound (chatId : jsstring) (r : role) (c : json) (w : world) :
  insertMessage chatId r c w =
    match D1_bind c with
    | Some v =>
        (Returned tt,
         {| DB := {| chats := chats (DB w);
                     messages := messages (DB w) ++
                       [{| chat_id := chatId; m_role := r; content := v;
                           m_created_at := hd 0%N (clock w) |}] |};
            clock := tl (clock w);
            log := log w ++ [InsertMessage chatId r c] |})
    | None =>
        (Thrown, {| DB := DB w; clock := tl (clock w); log := log w |})
    end.
Proof.
  unfold insertMessage, bind, Date_now, read_db, write_db, emit, throw.
  destruct w as [d [|t ts] l]; destruct (D1_bind c); reflexivity.
Qed.

Lemma insertMessage_run (chatId : jsstring) (r : role) (s : jsstring)
    (w : world) :
  insertMessage chatId r (JStr s) w =
    (Returned tt,
     {| DB := {| chats := chats (DB w);
                 messages := messages (DB w) ++
                   [{| chat_id := chatId; m_role := r; content := JStr s;
                       m_created_at := hd 0%N (clock w) |}] |};
        clock := tl (clock w);
        log := log w ++ [InsertMessage chatId r (JStr s)] |}).
Proof. apply insertMessage_bound. Qed.

Lemma updateChatTitleIfEmpty_run (chatId fromText : jsstring) (w : world) :
  updateChatTitleIfEmpty chatId fromText w =
    (Returned tt,
     {| DB := {| chats := map (update_title chatId (slice0 48 (trim fromText)))
                            (chats (DB w));
                 messages := messages (DB w) |};
        clock := clock w;
        log := log w ++ [UpdateTitle chatId (slice0 48 (trim fromText))] |}).
Proof. reflexivity. Qed.

Section RelayRuns.

Variable P : jsstring -> option json.

Lemma drain_cons (chatId : jsstring) (st : capture) (v : list byte)
    (rest : list (list byte)) (e : ending) (w : world) :
  IndexTs.drain P chatId st (v :: rest) e w =
  IndexTs.drain P chatId (capture_chunk P st (decode_once v)) rest e
    {| DB := DB w; clock := clock w;
       log := log w ++ [Read (ReadChunk v); Enqueue v] |}.
Proof.
  cbn [IndexTs.drain]. unfold bind at 1. unfold IndexTs.pull.
  unfold bind, emit, ret. cbn [fst DB clock log].
  rewrite <- app_assoc. reflexivity.
Qed.

(** A read that rejects ends the run there: nothing is stored, no frame is
    added, the stream is not closed. *)
Lemma drain_failed (chatId : jsstring) (chunks : list (list byte))
    (st : capture) (w : world) :
  IndexTs.drain P chatId st chunks EndFailed w =
    (Thrown,
     {| DB := DB w; clock := clock w;
        log := log w ++ IndexTs.tee chunks ++ [Read ReadRejected] |}).
Proof.
  revert st w; induction chunks as [|v rest IH]; intros st w.
  - reflexivity.
  - rewrite drain_cons, IH. cbn [DB clock log IndexTs.tee flat_map].
    rewrite <- !app_assoc. reflexivity.
Qed.

(** The upstream body ends with nothing but white space captured. *)
Lemma drain_done_empty (chatId : jsstring) (chunks : list (list byte))
    (st : capture) (w : world) :
  trim (assistant (IndexTs.captured P st chunks)) = [] ->
  IndexTs.drain P chatId st chunks EndDone w =
    (Returned (IndexTs.captured P st chunks),
     {| DB := DB w; clock := clock w;
        log := log w ++ IndexTs.tee chunks ++
               [Read ReadDone; Enqueue (encode IndexTs.STORED_FRAME); Close] |}).
Proof.
  revert st w; induction chunks as [|v rest IH]; intros st w E.
  - cbn [IndexTs.drain]. unfold bind at 1. unfold IndexTs.pull.
    cbn [IndexTs.captured map fold_left] in E.
    unfold bind at 1. unfold emit at 1. unfold bind at 1. rewrite E.
    unfold bind, emit, ret. cbn [fst DB clock log IndexTs.tee flat_map app].
    rewrite <- !app_assoc. reflexivity.
  - rewrite drain_cons, IH by exact E. cbn [DB clock log IndexTs.tee flat_map].
    rewrite <- !app_assoc. reflexivity.
Qed.

(** The upstream body ends with text captured: it is stored, then the
    terminal frame is enqueued, then the stream is closed. *)
Lemma drain_done_text (chatId : jsstring) (chunks : list (list byte))
    (st : capture) (w : world) :
  trim (assistant (IndexTs.captured P st chunks)) <> [] ->
  IndexTs.drain P chatId st chunks EndDone w =
    (Returned (IndexTs.captured P st chunks),
     {| DB := {| chats := chats (DB w);
                 messages := messages (DB w) ++
                   [{| chat_id := chatId; m_role := RAssistant;
                       content := JStr (assistant (IndexTs.captured P st chunks));
                       m_created_at := hd 0%N (clock w) |}] |};
        clock := tl (clock w);
        log := log w ++ IndexTs.tee chunks ++
               [Read ReadDone;
                InsertMessage chatId RAssistant
                  (JStr (assistant (IndexTs.captured P st chunks)));
                Enqueue (encode IndexTs.STORED_FRAME); Close] |}).
Proof.
  revert st w; induction chunks as [|v rest IH]; intros st w E.
  - cbn [IndexTs.drain]. unfold bind at 1. unfold IndexTs.pull.
    cbn [IndexTs.captured map fold_left] in E |- *.
    unfold bind at 1. unfold emit at 1. unfold bind at 1.
    destruct (trim (assistant st)) as [|c r] eqn:T; [congruence|].
    rewrite insertMessage_run.
    unfold bind, emit, ret. cbn [fst DB clock log IndexTs.tee flat_map app].
    rewrite <- !app_assoc. reflexivity.
  - rewrite drain_cons, IH by exact E. cbn [DB clock log IndexTs.tee flat_map].
    rewrite <- !app_assoc. reflexivity.
Qed.

End RelayRuns.

Lemma enqueued_app (a b : list effect) :
  enqueued (a ++ b) = enqueued a ++ enqueued b.
Proof.
  induction a as [|x a IH]; [reflexivity|].
  destruct x; cbn [app enqueued]; rewrite IH; reflexivity.
Qed.

Lemma enqueued_tee (chunks : list (list byte)) :
  enqueued (IndexTs.tee chunks) = chunks.
Proof.
  induction chunks as [|v r IH]; [reflexivity|].
  cbn [IndexTs.tee flat_map app enqueued]. f_equal. exact IH.
Qed.

Lemma In_tee (x : effect) (chunks : list (list byte)) :
  In x (IndexTs.tee chunks) ->
  exists v, x = Read (ReadChunk v) \/ x = Enqueue v.
Proof.
  induction chunks as [|v r IH]; [intros []|].
  cbn [IndexTs.tee flat_map app In].
  intros [<-|[<-|H]]; [exists v; auto | exists v; auto | exact (IH H)].
Qed.

Lemma before_In (a b : effect) (l : list effect) :
  before a b l -> In a l /\ In b l.
Proof.
  intros (l1 & l2 & l3 & ->). split.
  - apply in_or_app; right; left; reflexivity.
  - apply in_or_app; right; right. apply in_or_app; right; left; reflexivity.
Qed.

Section EarlierRelayRuns.

Variable P : jsstring -> option json.

Lemma drain0_cons (chatId : jsstring) (st : capture) (v : list byte)
    (rest : list (list byte)) (e : ending) (w : world) :
  Part000.drain P chatId st (v :: rest) e w =
  Part000.drain P chatId (capture_chunk P st (decode_once v)) rest e
    {| DB := DB w; clock := clock w;
       log := log w ++ [Read (ReadChunk v); Enqueue v] |}.
Proof.
  cbn [Part000.drain]. unfold bind at 1. unfold Part000.pull.
  unfold bind, emit, ret. cbn [fst DB clock log].
  rewrite <- app_assoc. reflexivity.
Qed.

Lemma drain0_failed_log (chatId : jsstring) (chunks : list (list byte))
    (st : capture) (w : world) :
  log (snd (Part000.drain P chatId st chunks EndFailed w)) =
  log w ++ IndexTs.tee chunks ++ [Read ReadRejected].
Proof.
  revert st w; induction chunks as [|v rest IH]; intros st w.
  - reflexivity.
  - rewrite drain0_cons, IH. cbn [DB clock log IndexTs.tee flat_map].
    rewrite <- !app_assoc. reflexivity.
Qed.

(** The earlier relay at the end of the upstream body: close, then the
    insert, and no frame of its own. *)
Lemma drain0_done_log (chatId : jsstring) (chunks : list (list byte))
    (st : capture) (w : world) :
  log (snd (Part000.drain P chatId st chunks EndDone w)) =
  log w ++ IndexTs.tee chunks ++ [Read ReadDone; Close] ++
    match trim (assistant (IndexTs.captured P st chunks)) with
    | [] => []
    | _ :: _ =>
        [InsertMessage chatId RAssistant
           (JStr (assistant (IndexTs.captured P st chunks)))]
    end.
Proof.
  revert st w; induction chunks as [|v rest IH]; intros st w.
  - cbn [Part000.drain]. unfold bind at 1. unfold Part000.pull.
    cbn [IndexTs.captured map fold_left].
    unfold bind at 1. unfold emit at 1. unfold bind at 1. unfold emit at 1.
    unfold bind at 1.
    destruct (trim (assistant st)) as [|c r] eqn:T.
    + unfold bind, emit, ret. cbn [snd fst DB clock log IndexTs.tee flat_map app].
      rewrite <- !app_assoc. reflexivity.
    + rewrite insertMessage_run.
      unfold bind, emit, ret. cbn [snd fst DB clock log IndexTs.tee flat_map app].
      rewrite <- !app_assoc. reflexivity.
  - rewrite drain0_cons, IH. cbn [DB clock log IndexTs.tee flat_map].
    rewrite <- !app_assoc. reflexivity.
Qed.

End EarlierRelayRuns.

(* ------------------------------------------------------------------ *)
(** ** The output stream of the relay *)

(** C3 (as amended) — Persist, then sentinel, then close. In every run of
    [streamOut] of [src/index.ts], an assistant insert comes before the
    terminal frame, a close is immediately preceded by the terminal frame
    (so the stream is never closed without it), the stream is closed when
    the upstream body ends, and the captured text is inserted when it is
    not empty once trimmed. The earlier relay ([src/unnamed/part_000]) has
    no terminal frame: it enqueues the upstream chunks only, and closes
    when the upstream body ends. *)
Theorem persist_sentinel_close (P : jsstring -> option json)
    (chatId : jsstring) (st : capture) (chunks : list (list byte))
    (e : ending) (w : world) :
  (exists l,
     log (snd (IndexTs.drain P chatId st chunks e w)) = log w ++ l /\
     (forall c, In (InsertMessage chatId RAssistant c) l ->
        before (InsertMessage chatId RAssistant c)
               (Enqueue (encode IndexTs.STORED_FRAME)) l) /\
     (In Close l ->
        exists l0, l = l0 ++ [Enqueue (encode IndexTs.STORED_FRAME); Close] /\
                   ~ In Close l0) /\
     (e = EndDone -> In Close l) /\
     (e = EndDone ->
      trim (assistant (IndexTs.captured P st chunks)) <> [] ->
      In (InsertMessage chatId RAssistant
            (JStr (assistant (IndexTs.captured P st chunks)))) l))
  /\
  (exists l,
     log (snd (Part000.drain P chatId st chunks e w)) = log w ++ l /\
     enqueued l = chunks /\
     (e = EndDone -> In Close l)).
Proof.
  split.
  - destruct e.
    + destruct (trim (assistant (IndexTs.captured P st chunks)))
        as [|c0 r0] eqn:T.
      * rewrite drain_done_empty by exact T. cbn [snd log].
        eexists; split; [reflexivity|]. repeat split.
        -- intros c I. apply in_app_or in I as [I|I].
           ++ apply In_tee in I as [v [I|I]]; discriminate.
           ++ cbn in I. repeat (destruct I as [I|I]; [discriminate|]).
              destruct I.
        -- intros _. exists (IndexTs.tee chunks ++ [Read ReadDone]).
           split; [rewrite <- app_assoc; reflexivity|].
           intros I. apply in_app_or in I as [I|I].
           ++ apply In_tee in I as [v [I|I]]; discriminate.
           ++ cbn in I. destruct I as [I|[]]; discriminate.
        -- intros _. apply in_or_app; right. cbn; auto.
        -- intros _ N. congruence.
      * assert (N : trim (assistant (IndexTs.captured P st chunks)) <> [])
          by (rewrite T; discriminate).
        rewrite drain_done_text by exact N. cbn [snd log].
        eexists; split; [reflexivity|]. repeat split.
        -- intros c I. apply in_app_or in I as [I|I].
           ++ apply In_tee in I as [v [I|I]]; discriminate.
           ++ cbn in I. destruct I as [I|[I|[I|[I|[]]]]]; try discriminate.
              rewrite <- I.
              exists (IndexTs.tee chunks ++ [Read ReadDone]), [], [Close].
              rewrite <- app_assoc. reflexivity.
        -- intros _.
           exists (IndexTs.tee chunks ++
                   [Read ReadDone;
                    InsertMessage chatId RAssistant
                      (JStr (assistant (IndexTs.captured P st chunks)))]).
           split; [rewrite <- app_assoc; reflexivity|].
           intros I. apply in_app_or in I as [I|I].
           ++ apply In_tee in I as [v [I|I]]; discriminate.
           ++ cbn in I. destruct I as [I|[I|[]]]; discriminate.
        -- intros _. apply in_or_app; right. cbn; auto.
        -- intros _ _. apply in_or_app; right. cbn; auto.
    + rewrite drain_failed. cbn [snd log].
      eexists; split; [reflexivity|].
      assert (NC : ~ In Close (IndexTs.tee chunks ++ [Read ReadRejected])).
      { intros I. apply in_app_or in I as [I|I].
        - apply In_tee in I as [v [I|I]]; discriminate.
        - cbn in I. destruct I as [I|[]]; discriminate. }
      repeat split.
      * intros c I. apply in_app_or in I as [I|I].
        -- apply In_tee in I as [v [I|I]]; discriminate.
        -- cbn in I. destruct I as [I|[]]; discriminate.
      * intros I. destruct (NC I).
      * discriminate.
      * discriminate.
  - destruct e.
    + rewrite drain0_done_log. eexists; split; [reflexivity|]. split.
      * rewrite !enqueued_app, enqueued_tee.
        destruct (trim _); cbn; rewrite app_nil_r; reflexivity.
      * intros _. apply in_or_app; right. cbn; auto.
    + rewrite drain0_failed_log. eexists; split; [reflexivity|]. split.
      * rewrite !enqueued_app, enqueued_tee. cbn. rewrite app_nil_r.
        reflexivity.
      * discriminate.
Qed.

(** C3, the claim as stated, fails on the earlier relay: at the end of a
    one-chunk body it closes the stream without any terminal frame, and
    inserts the captured text after the close. *)
Lemma earlier_relay_closes_without_frame :
  let l := log (snd (Part000.drain JsonRef.JSON_parse (lit "c1") capture_init
                       [Examples.hi_chunk] EndDone Examples.empty_world)) in
  In Close l /\
  ~ In (Enqueue (encode IndexTs.STORED_FRAME)) l /\
  ~ before (Enqueue (encode IndexTs.STORED_FRAME)) Close l /\
  before Close (InsertMessage (lit "c1") RAssistant (JStr (lit "Hi"))) l.
Proof.
  assert (E : log (snd (Part000.drain JsonRef.JSON_parse (lit "c1") capture_init
                       [Examples.hi_chunk] EndDone Examples.empty_world)) =
              [Read (ReadChunk Examples.hi_chunk); Enqueue Examples.hi_chunk;
               Read ReadDone; Close;
               InsertMessage (lit "c1") RAssistant (JStr (lit "Hi"))])
    by (vm_compute; reflexivity).
  cbv zeta. rewrite E.
  assert (NI : ~ In (Enqueue (encode IndexTs.STORED_FRAME))
                 [Read (ReadChunk Examples.hi_chunk); Enqueue Examples.hi_chunk;
                  Read ReadDone; Close;
                  InsertMessage (lit "c1") RAssistant (JStr (lit "Hi"))]).
  { intros I. cbn [In] in I.
    destruct I as [I|[I|[I|[I|[I|[]]]]]]; discriminate. }
  split; [cbn; auto|]. split; [exact NI|]. split.
  - intros B. apply before_In in B as [B _]. exact (NI B).
  - exists [Read (ReadChunk Examples.hi_chunk); Enqueue Examples.hi_chunk;
            Read ReadDone], [], []. reflexivity.
Qed.

(* ------------------------------------------------------------------ *)
(** ** [routeChat] up to the upstream call *)

Section RouteFacts.

Variable P : jsstring -> option json.

(** A request that fails validation is answered 400 or 404 and leaves the
    world as it was. *)
Lemma route_rejected (request : IndexTs.Request) (env : IndexTs.Env)
    (dsRes : option IndexTs.upstream) (w : world) :
  IndexTs.validated request w = false ->
  exists status message,
    IndexTs.routeChat P request env dsRes w =
      (Returned (IndexTs.Respond status (IndexTs.ErrorMessage message)), w) /\
    (status = 400%N \/ status = 404%N).
Proof.
  unfold IndexTs.validated, IndexTs.chat_of, IndexTs.content_of,
    IndexTs.routeChat.
  destruct (IndexTs.json_body request) as [b|].
  2:{ intros _. do 2 eexists. split; [reflexivity | left; reflexivity]. }
  destruct (match IndexTs.b_chat_id b with Some s => s | None => [] end)
    as [|c0 cs].
  { intros _. do 2 eexists. split; [reflexivity | left; reflexivity]. }
  destruct (trim match IndexTs.b_content b with Some s => s | None => [] end)
    as [|t0 ts].
  { intros _. do 2 eexists. split; [reflexivity | left; reflexivity]. }
  intros E. unfold bind at 1. unfold chatExists, bind, read_db, ret.
  rewrite E. do 2 eexists. split; [reflexivity | right; reflexivity].
Qed.

(** A validated request stores the user message, sets the title, and then
    looks for the credential. *)
Lemma route_validated (request : IndexTs.Request) (env : IndexTs.Env)
    (dsRes : option IndexTs.upstream) (w : world) :
  IndexTs.validated request w = true ->
  IndexTs.routeChat P request env dsRes w =
    match IndexTs.api_key request env with
    | Some (c :: k) =>
        match dsRes with
        | None => (Thrown, IndexTs.fetched (c :: k) request w)
        | Some u =>
            IndexTs.after_fetch P (IndexTs.chat_of request)
              (IndexTs.stream_of request) u
              (IndexTs.fetched (c :: k) request w)
        end
    | _ =>
        (Returned (IndexTs.badJSON 401 "Missing DEEPSEEK_API_KEY"),
         IndexTs.user_stored request w)
    end.
Proof.
  unfold IndexTs.validated, IndexTs.fetched, IndexTs.forwarded,
    IndexTs.user_stored, IndexTs.chat_of, IndexTs.content_of,
    IndexTs.stream_of, IndexTs.routeChat.
  destruct (IndexTs.json_body request) as [b|]; [|discriminate].
  destruct (match IndexTs.b_chat_id b with Some s => s | None => [] end)
    as [|c0 cs]; [discriminate|].
  destruct (trim match IndexTs.b_content b with Some s => s | None => [] end)
    as [|t0 ts]; [discriminate|].
  intros E. unfold bind at 1. unfold chatExists at 1.
  unfold bind at 1. unfold read_db at 1. unfold ret at 1. rewrite E.
  cbn [negb]. unfold bind at 1. rewrite insertMessage_run.
  unfold bind at 1. rewrite updateChatTitleIfEmpty_run.
  unfold bind at 1. unfold getMessages, bind, read_db, ret.
  cbn [DB clock log chats messages].
  destruct (IndexTs.api_key request env) as [[|c k]|].
  - rewrite <- app_assoc. reflexivity.
  - unfold emit. cbn [DB clock log chats messages].
    rewrite <- !app_assoc. destruct dsRes; reflexivity.
  - rewrite <- app_assoc. reflexivity.
Qed.

End RouteFacts.

(* ------------------------------------------------------------------ *)
(** ** A whole request after the upstream call *)

Section ServeFacts.

Variable P : jsstring -> option json.

Lemma text_run (u : IndexTs.upstream) (w : world) :
  IndexTs.text u w =
    match IndexTs.up_body u with
    | Some (_, EndFailed) => (Thrown, snd (emit ReadText w))
    | Some (chunks, EndDone) =>
        (Returned (fst (decode new_TextDecoder (concat chunks) false)),
         snd (emit ReadText w))
    | None => (Returned [], snd (emit ReadText w))
    end.
Proof.
  unfold IndexTs.text, bind. cbn [emit].
  destruct (IndexTs.up_body u) as [[chunks [|]]|]; reflexivity.
Qed.

Lemma bind_run {A B} (c : M A) (k : A -> M B) (w : world)
    (x : outcome A * world) :
  c w = x ->
  bind c k w =
    match x with
    | (Returned a, w') => k a w'
    | (Thrown, w') => (Thrown, w')
    end.
Proof. intros <-. reflexivity. Qed.

(** The effects of [after_fetch] and of the streamed body, and the chats
    table, which they leave alone. *)
(** The [try] block of the non-streaming path: whatever happens in it,
    the handler goes on. It stores the reply's content when the body
    parses, the content is truthy and [bind] takes it. *)
Lemma try_reply_run (chatId t : jsstring) (w : world) :
  try_catch
    (match P t with
     | Some j =>
         match message_content j with
         | Some msg =>
             if truthy (Some msg)
             then insertMessage chatId RAssistant msg
             else ret tt
         | None => ret tt
         end
     | None => ret tt
     end) w =
  (Returned tt,
   match P t with
   | Some j =>
       match message_content j with
       | Some msg =>
           if truthy (Some msg) then
             match D1_bind msg with
             | Some v =>
                 {| DB := {| chats := chats (DB w);
                             messages := messages (DB w) ++
                               [{| chat_id := chatId; m_role := RAssistant;
                                   content := v;
                                   m_created_at := hd 0%N (clock w) |}] |};
                    clock := tl (clock w);
                    log := log w ++ [InsertMessage chatId RAssistant msg] |}
             | None =>
                 {| DB := DB w; clock := tl (clock w); log := log w |}
             end
           else w
       | None => w
       end
   | None => w
   end).
Proof.
  unfold try_catch.
  destruct (P t) as [j|]; [|reflexivity].
  destruct (message_content j) as [msg|]; [|reflexivity].
  destruct (truthy (Some msg)); [|reflexivity].
  rewrite insertMessage_bound. destruct (D1_bind msg); reflexivity.
Qed.

(** What the [try] block leaves behind: the chats as they were, and at
    most one more message, of the chat of the request. *)
Lemma try_reply (chatId t : jsstring) (w : world) :
  exists w',
    try_catch
      (match P t with
       | Some j =>
           match message_content j with
           | Some msg =>
               if truthy (Some msg)
               then insertMessage chatId RAssistant msg
               else ret tt
           | None => ret tt
           end
       | None => ret tt
       end) w = (Returned tt, w') /\
    chats (DB w') = chats (DB w) /\
    ((log w' = log w /\ messages (DB w') = messages (DB w)) \/
     exists msg v,
       log w' = log w ++ [InsertMessage chatId RAssistant msg] /\
       messages (DB w') =
         messages (DB w) ++
         [{| chat_id := chatId; m_role := RAssistant; content := v;
             m_created_at := hd 0%N (clock w) |}]).
Proof.
  rewrite try_reply_run. eexists. split; [reflexivity|].
  destruct (P t) as [j|]; [|split; [reflexivity | left; split; reflexivity]].
  destruct (message_content j) as [msg|];
    [|split; [reflexivity | left; split; reflexivity]].
  destruct (truthy (Some msg));
    [|split; [reflexivity | left; split; reflexivity]].
  destruct (D1_bind msg) as [v|].
  - split; [reflexivity|]. right. exists msg, v. split; reflexivity.
  - split; [reflexivity | left; split; reflexivity].
Qed.

(** The non-streaming path: the text of the reply is read, the [try]
    block runs, and the reply is passed on. *)
Lemma after_fetch_buffered (chatId : jsstring) (u : IndexTs.upstream)
    (w : world) :
  IndexTs.after_fetch P chatId false u w =
    match IndexTs.text u w with
    | (Returned t, w1) =>
        (Returned (IndexTs.Respond (IndexTs.up_status u) (IndexTs.Text t)),
         snd (try_catch
                (match P t with
                 | Some j =>
                     match message_content j with
                     | Some msg =>
                         if truthy (Some msg)
                         then insertMessage chatId RAssistant msg
                         else ret tt
                     | None => ret tt
                     end
                 | None => ret tt
                 end) w1))
    | (Thrown, w1) => (Thrown, w1)
    end.
Proof.
  unfold IndexTs.after_fetch. cbn [negb]. unfold bind at 1.
  destruct (IndexTs.text u w) as [[t|] w1]; [|reflexivity].
  unfold bind. rewrite try_reply_run. reflexivity.
Qed.

Lemma after_fetch_effects (chatId : jsstring) (stream : bool)
    (u : IndexTs.upstream) (w : world) :
  let run :=
    match IndexTs.after_fetch P chatId stream u w with
    | (Returned r, w') => IndexTs.stream_body P r w'
    | (Thrown, w') => (Thrown, w')
    end in
  exists tail,
    log (snd run) = log w ++ tail /\
    IndexTs.reply_effects chatId tail /\
    chats (DB (snd run)) = chats (DB w).
Proof.
  cbv zeta. destruct stream.
  1: unfold IndexTs.after_fetch; cbn [negb].
  - destruct (negb (IndexTs.up_ok u) &&
              match IndexTs.up_body u with Some _ => true | None => false end)
      eqn:B.
    + unfold bind. rewrite text_run.
      destruct (IndexTs.up_body u) as [[chunks [|]]|];
        (exists [ReadText];
         split; [reflexivity | split; [apply IndexTs.TextRead | reflexivity]]).
    + destruct (IndexTs.up_body u) as [[chunks e]|].
      * unfold ret at 1. unfold IndexTs.stream_body, bind, ret.
        destruct e.
        -- destruct (trim (assistant (IndexTs.captured P capture_init chunks)))
             as [|c0 r0] eqn:T.
           ++ rewrite drain_done_empty by exact T.
              eexists; split; [reflexivity | split; [|reflexivity]].
              apply IndexTs.StreamEnded.
           ++ rewrite drain_done_text by (rewrite T; discriminate).
              eexists; split; [reflexivity | split; [|reflexivity]].
              apply IndexTs.StreamStored. rewrite T; discriminate.
        -- rewrite drain_failed.
           eexists; split; [reflexivity | split; [|reflexivity]].
           apply IndexTs.StreamFailed.
      * exists []. cbn. rewrite app_nil_r.
        split; [reflexivity | split; [apply IndexTs.NoReply | reflexivity]].
  - rewrite after_fetch_buffered, text_run.
    destruct (IndexTs.up_body u) as [[chunks [|]]|].
    + match goal with
      | |- context [try_catch ?c ?w0] =>
          destruct (try_reply chatId
                      (fst (decode new_TextDecoder (concat chunks) false)) w0)
            as (w1 & E & C & [[L _] | (msg & v & L & _)])
      end; rewrite E; cbn [IndexTs.stream_body ret snd]; rewrite L, C;
        cbn [emit snd log DB chats].
      * exists [ReadText].
        split; [reflexivity | split; [apply IndexTs.TextRead | reflexivity]].
      * exists [ReadText; InsertMessage chatId RAssistant msg].
        split; [rewrite <- app_assoc; reflexivity|].
        split; [apply IndexTs.TextStored | reflexivity].
    + exists [ReadText].
      split; [reflexivity | split; [apply IndexTs.TextRead | reflexivity]].
    + match goal with
      | |- context [try_catch ?c ?w0] =>
          destruct (try_reply chatId [] w0)
            as (w1 & E & C & [[L _] | (msg & v & L & _)])
      end; rewrite E; cbn [IndexTs.stream_body ret snd]; rewrite L, C;
        cbn [emit snd log DB chats].
      * exists [ReadText].
        split; [reflexivity | split; [apply IndexTs.TextRead | reflexivity]].
      * exists [ReadText; InsertMessage chatId RAssistant msg].
        split; [rewrite <- app_assoc; reflexivity|].
        split; [apply IndexTs.TextStored | reflexivity].
Qed.



(** A validated request: what [serve] adds to the log after the user
    message and the title, and the chats table it leaves. *)
Lemma serve_validated (request : IndexTs.Request) (env : IndexTs.Env)
    (dsRes : option IndexTs.upstream) (w : world) :
  IndexTs.validated request w = true ->
  exists tail,
    log (snd (IndexTs.serve P request env dsRes w)) =
      log (IndexTs.user_stored request w) ++ tail /\
    chats (DB (snd (IndexTs.serve P request env dsRes w))) =
      chats (DB (IndexTs.user_stored request w)) /\
    match IndexTs.api_key request env with
    | Some (c :: k) =>
        exists tail',
          tail = Fetch (c :: k) (IndexTs.forwarded request w) :: tail' /\
          IndexTs.reply_effects (IndexTs.chat_of request) tail'
    | _ =>
        tail = [] /\
        fst (IndexTs.serve P request env dsRes w) =
          Returned (IndexTs.badJSON 401 "Missing DEEPSEEK_API_KEY", [])
    end.
Proof.
  intros V. unfold IndexTs.serve.
  rewrite (bind_run _ _ _ _ (route_validated P request env dsRes w V)).
  destruct (IndexTs.api_key request env) as [[|c k]|].
  - exists []. rewrite app_nil_r. repeat split.
  - destruct dsRes as [u|].
    + destruct (after_fetch_effects (IndexTs.chat_of request)
                  (IndexTs.stream_of request) u
                  (IndexTs.fetched (c :: k) request w))
        as (tail' & L & Sh & C).
      exists (Fetch (c :: k) (IndexTs.forwarded request w) :: tail').
      split; [|split].
      * rewrite L. cbn [IndexTs.fetched log]. rewrite <- app_assoc. reflexivity.
      * rewrite C. reflexivity.
      * exists tail'. split; [reflexivity | exact Sh].
    + exists [Fetch (c :: k) (IndexTs.forwarded request w)].
      split; [reflexivity | split; [reflexivity|]].
      exists []. split; [reflexivity | constructor].
  - exists []. rewrite app_nil_r. repeat split.
Qed.

(** A validated, streaming request with a credential and an upstream
    reply that can be streamed: the response is [streamOut] over it. *)
Lemma serve_streamed (request : IndexTs.Request) (env : IndexTs.Env)
    (u : IndexTs.upstream) (w : world) (c : N) (k : jsstring)
    (chunks : list (list byte)) (e : ending) :
  IndexTs.validated request w = true ->
  IndexTs.api_key request env = Some (c :: k) ->
  IndexTs.stream_of request = true ->
  IndexTs.up_ok u = true ->
  IndexTs.up_body u = Some (chunks, e) ->
  IndexTs.serve P request env (Some u) w =
    match IndexTs.drain P (IndexTs.chat_of request) capture_init chunks e
            (IndexTs.fetched (c :: k) request w) with
    | (Returned st, w') =>
        (Returned (IndexTs.RespondStream 200 (IndexTs.chat_of request) chunks e,
                   assistant st), w')
    | (Thrown, w') => (Thrown, w')
    end.
Proof.
  intros V K S O B. unfold IndexTs.serve.
  rewrite (bind_run _ _ _ _ (route_validated P request env (Some u) w V)), K.
  unfold IndexTs.after_fetch. rewrite S, O, B. cbn [negb andb].
  unfold ret at 1. unfold IndexTs.stream_body, bind, ret. reflexivity.
Qed.

End ServeFacts.

(* ------------------------------------------------------------------ *)
(** ** Counting and ordering the inserts *)

Lemma inserts_app (r : role) (a b : list effect) :
  inserts r (a ++ b) = inserts r a + inserts r b.
Proof. unfold inserts. rewrite filter_app, length_app. reflexivity. Qed.

Lemma inserts_tee (r : role) (chunks : list (list byte)) :
  inserts r (IndexTs.tee chunks) = 0.
Proof.
  induction chunks as [|v rest IH]; [reflexivity|].
  unfold inserts in *. cbn [IndexTs.tee flat_map app filter is_insert].
  destruct r; exact IH.
Qed.

Lemma reply_inserts (chatId : jsstring) (tail : list effect) :
  IndexTs.reply_effects chatId tail ->
  inserts RUser tail = 0 /\ inserts RAssistant tail <= 1.
Proof.
  intros []; rewrite ?inserts_app, ?inserts_tee; cbn; lia.
Qed.

(** Where a list whose only element satisfying [p] is [x] can be cut at
    an element satisfying [p]. *)
Lemma cut_at_unique {A} (p : A -> bool) (a b a' b' : list A) (x x' : A) :
  forallb (fun y => negb (p y)) a = true ->
  forallb (fun y => negb (p y)) b = true ->
  p x' = true ->
  a ++ x :: b = a' ++ x' :: b' ->
  a' = a /\ x' = x /\ b' = b.
Proof.
  intros Ha Hb Hx'. revert a' Ha; induction a as [|y a IH]; intros a' Ha E.
  - destruct a' as [|z a'].
    + inversion E; subst. auto.
    + cbn in E. inversion E; subst.
      rewrite forallb_app in Hb. cbn in Hb. rewrite Hx' in Hb.
      cbn in Hb. rewrite andb_false_r in Hb. discriminate.
  - cbn in Ha. apply andb_true_iff in Ha as [Hy Ha].
    destruct a' as [|z a'].
    + cbn in E. inversion E; subst. rewrite Hx' in Hy. discriminate.
    + cbn in E. inversion E; subst.
      destruct (IH a' Ha H1) as (-> & -> & ->). auto.
Qed.

Lemma tee_no_insert (chunks : list (list byte)) :
  forallb (fun y => negb (is_insert RAssistant y)) (IndexTs.tee chunks) = true.
Proof. induction chunks as [|v rest IH]; [reflexivity | exact IH]. Qed.

(** In what follows the upstream call, an assistant insert comes after the
    reply was read to its end, and no chunk is read after it. *)
Lemma reply_insert_after_end (chatId : jsstring) (tail : list effect) :
  IndexTs.reply_effects chatId tail ->
  forall l1 e l2,
    tail = l1 ++ e :: l2 -> is_insert RAssistant e = true ->
    (In (Read ReadDone) l1 \/ In ReadText l1) /\
    existsb is_chunk_read l2 = false.
Proof.
  intros Sh l1 e l2 E I.
  assert (NoI : forall l, forallb (fun y => negb (is_insert RAssistant y)) l = true ->
                          l <> l1 ++ e :: l2).
  { intros l F ->. rewrite forallb_app in F. cbn in F. rewrite I in F.
    cbn in F. rewrite andb_false_r in F. discriminate. }
  destruct Sh.
  - destruct l1; discriminate.
  - exfalso. apply (NoI [ReadText]); [reflexivity | exact E].
  - destruct (cut_at_unique (is_insert RAssistant) [ReadText] [] l1 l2
                (InsertMessage chatId RAssistant msg) e
                eq_refl eq_refl I E) as (-> & _ & ->).
    split; [right; left; reflexivity | reflexivity].
  - exfalso. apply (NoI (IndexTs.tee chunks ++ [Read ReadRejected])); [|exact E].
    rewrite forallb_app, tee_no_insert. reflexivity.
  - exfalso.
    apply (NoI (IndexTs.tee chunks ++
                [Read ReadDone; Enqueue (encode IndexTs.STORED_FRAME); Close]));
      [|exact E].
    rewrite forallb_app, tee_no_insert. reflexivity.
  - assert (E' : (IndexTs.tee chunks ++ [Read ReadDone]) ++
                 InsertMessage chatId RAssistant (JStr text) ::
                 [Enqueue (encode IndexTs.STORED_FRAME); Close] =
                 l1 ++ e :: l2)
      by (rewrite <- app_assoc; exact E).
    assert (F : forallb (fun y => negb (is_insert RAssistant y))
                  (IndexTs.tee chunks ++ [Read ReadDone]) = true)
      by (rewrite forallb_app, tee_no_insert; reflexivity).
    destruct (cut_at_unique (is_insert RAssistant)
                (IndexTs.tee chunks ++ [Read ReadDone])
                [Enqueue (encode IndexTs.STORED_FRAME); Close] l1 l2
                (InsertMessage chatId RAssistant (JStr text)) e
                F eq_refl I E') as (-> & _ & ->).
    split; [left; apply in_or_app; right; left; reflexivity | reflexivity].
Qed.

(* ------------------------------------------------------------------ *)
(** ** [trim] *)

Lemma trimStart_head (s : jsstring) :
  match trimStart s with
  | c :: _ => is_space c = false
  | [] => True
  end.
Proof.
  induction s as [|c r IH]; [exact I|].
  cbn [trimStart]. destruct (is_space c) eqn:E; [exact IH | exact E].
Qed.

Lemma trimStart_fixed (s : jsstring) :
  match s with c :: _ => is_space c = false | [] => True end ->
  trimStart s = s.
Proof. destruct s as [|c r]; [reflexivity|]. cbn. intros ->. reflexivity. Qed.

Lemma trimStart_snoc (l : jsstring) (c : N) :
  is_space c = false -> trimStart (l ++ [c]) = trimStart l ++ [c].
Proof.
  intros E. induction l as [|x l IH]; cbn [app trimStart].
  - rewrite E. reflexivity.
  - destruct (is_space x); [exact IH | reflexivity].
Qed.

Lemma trim_idempotent (s : jsstring) : trim (trim s) = trim s.
Proof.
  unfold trim, trimEnd.
  pose proof (trimStart_head s) as Hx.
  set (x := trimStart s) in *.
  pose proof (trimStart_head (rev x)) as Hy.
  set (y := trimStart (rev x)) in *.
  assert (Hr : trimStart (rev y) = rev y).
  { apply trimStart_fixed. destruct x as [|c x'].
    - subst y. exact I.
    - subst y. cbn [rev]. rewrite trimStart_snoc by exact Hx.
      rewrite rev_app_distr. exact Hx. }
  rewrite Hr, rev_involutive.
  rewrite (trimStart_fixed y Hy). reflexivity.
Qed.

(* ------------------------------------------------------------------ *)
(** ** Credentials, validation and the side effects of a send *)

Lemma has_credential_key (request : IndexTs.Request) (env : IndexTs.Env) :
  IndexTs.has_credential request env = true ->
  exists c k, IndexTs.api_key request env = Some (c :: k).
Proof.
  unfold IndexTs.has_credential.
  destruct (IndexTs.api_key request env) as [[|c k]|]; try discriminate.
  intros _. exists c, k. reflexivity.
Qed.




Section StreamedRequest.

Variable P : jsstring -> option json.

(** The log of a streamed request. *)
Lemma serve_streamed_log (request : IndexTs.Request) (env : IndexTs.Env)
    (u : IndexTs.upstream) (w : world) (c : N) (k : jsstring)
    (chunks : list (list byte)) (e : ending) :
  IndexTs.validated request w = true ->
  IndexTs.api_key request env = Some (c :: k) ->
  IndexTs.stream_of request = true ->
  IndexTs.up_ok u = true ->
  IndexTs.up_body u = Some (chunks, e) ->
  log (snd (IndexTs.serve P request env (Some u) w)) =
    log (IndexTs.fetched (c :: k) request w) ++ IndexTs.tee chunks ++
    match e with
    | EndFailed => [Read ReadRejected]
    | EndDone =>
        Read ReadDone ::
        match trim (assistant (IndexTs.captured P capture_init chunks)) with
        | [] => []
        | _ :: _ =>
            [InsertMessage (IndexTs.chat_of request) RAssistant
               (JStr (assistant (IndexTs.captured P capture_init chunks)))]
        end ++ [Enqueue (encode IndexTs.STORED_FRAME); Close]
    end.
Proof.
  intros V K S O B. rewrite (serve_streamed P request env u w c k chunks e V K S O B).
  destruct e.
  - destruct (trim (assistant (IndexTs.captured P capture_init chunks)))
      as [|c0 r0] eqn:T.
    + rewrite drain_done_empty by exact T. reflexivity.
    + rewrite drain_done_text by (rewrite T; discriminate). reflexivity.
  - rewrite drain_failed. reflexivity.
Qed.

End StreamedRequest.

(** C2 (as amended) — Tee fidelity. The chunks [streamOut] of
    [src/index.ts] has enqueued are exactly the upstream chunks it has
    read, unchanged and in order, followed, when the upstream body ends,
    by one terminal frame, and by nothing when a read of the upstream
    body rejects; nothing else is enqueued. The terminal frame is the
    bytes of [data: {"__stored": true}] and a blank line. This holds of
    [streamOut] from any state, and of the whole of an accepted streaming
    request. *)
Theorem tee_fidelity (P : jsstring -> option json) :
  let frame := encode IndexTs.STORED_FRAME in
  let ended (e : ending) :=
    match e with EndDone => [frame] | EndFailed => [] end in
  map Byte.to_N frame =
    lit "data: {" ++ [34%N] ++ lit "__stored" ++ [34%N] ++ lit ": true}" ++
    [10%N; 10%N] /\
  (forall chatId st chunks e w,
     enqueued (log (snd (IndexTs.drain P chatId st chunks e w))) =
     enqueued (log w) ++ chunks ++ ended e) /\
  (forall request env u w chunks e,
     IndexTs.validated request w = true ->
     IndexTs.has_credential request env = true ->
     IndexTs.stream_of request = true ->
     IndexTs.up_ok u = true ->
     IndexTs.up_body u = Some (chunks, e) ->
     enqueued (log (snd (IndexTs.serve P request env (Some u) w))) =
     enqueued (log w) ++ chunks ++ ended e).
Proof.
  cbv zeta. split; [reflexivity|]. split.
  - intros chatId st chunks e w. destruct e.
    + destruct (trim (assistant (IndexTs.captured P st chunks)))
        as [|c r] eqn:T.
      * rewrite drain_done_empty by exact T. cbn [snd log].
        rewrite !enqueued_app, enqueued_tee. reflexivity.
      * rewrite drain_done_text by (rewrite T; discriminate). cbn [snd log].
        rewrite !enqueued_app, enqueued_tee. reflexivity.
    + rewrite drain_failed. cbn [snd log].
      rewrite !enqueued_app, enqueued_tee. reflexivity.
  - intros request env u w chunks e V K S O B.
    destruct (has_credential_key request env K) as (c & k & AK).
    rewrite (serve_streamed_log P request env u w c k chunks e V AK S O B).
    cbn [IndexTs.fetched IndexTs.user_stored log].
    rewrite !enqueued_app, enqueued_tee. destruct e.
    + destruct (trim (assistant (IndexTs.captured P capture_init chunks)));
        cbn [enqueued app]; rewrite !app_nil_r; reflexivity.
    + cbn [enqueued app]. rewrite !app_nil_r. reflexivity.
Qed.

Lemma tee_fidelity_witness :
  IndexTs.validated Examples.hello Examples.one_chat = true /\
  IndexTs.has_credential Examples.hello Examples.a_key = true /\
  enqueued
    (log (snd (IndexTs.serve JsonRef.JSON_parse Examples.hello Examples.a_key
                 (Some (Examples.streaming_reply [Examples.hi_chunk] EndDone))
                 Examples.one_chat))) =
    enqueued (log Examples.one_chat) ++ [Examples.hi_chunk] ++
    [encode IndexTs.STORED_FRAME].
Proof.
  split; [reflexivity|]. split; [reflexivity|].
  exact (proj2 (proj2 (tee_fidelity JsonRef.JSON_parse)) Examples.hello
           Examples.a_key
           (Examples.streaming_reply [Examples.hi_chunk] EndDone)
           Examples.one_chat [Examples.hi_chunk] EndDone
           eq_refl eq_refl eq_refl eq_refl eq_refl).
Defined.

(** C2, the claim as stated, fails when a read of the upstream body
    rejects: the chunk read before is enqueued, and no terminal frame
    follows it. *)
Lemma rejected_read_has_no_terminal_frame :
  let r := IndexTs.serve JsonRef.JSON_parse Examples.hello Examples.a_key
             (Some (Examples.streaming_reply [Examples.hi_chunk] EndFailed))
             Examples.one_chat in
  IndexTs.validated Examples.hello Examples.one_chat = true /\
  IndexTs.has_credential Examples.hello Examples.a_key = true /\
  In (Read ReadRejected) (log (snd r)) /\
  enqueued (log (snd r)) = [Examples.hi_chunk] /\
  ~ In (encode IndexTs.STORED_FRAME) (enqueued (log (snd r))).
Proof.
  cbv zeta.
  split; [reflexivity|]. split; [reflexivity|].
  split; [vm_compute; do 5 right; left; reflexivity|].
  split; [vm_compute; reflexivity|].
  vm_compute. intros [H | []]. discriminate H.
Qed.

(** C4 (as amended) — Persistence per request. An accepted chat-send
    (validated, with a credential) inserts the user message once, before
    the upstream call; after the call it inserts no user message and at
    most one assistant message, and that one only after the upstream reply
    was read to its end, no chunk being read after it. When the reply is
    streamed and its body ends, the captured text is inserted if it is not
    empty once trimmed and nothing is inserted otherwise; when a read of
    the body rejects, nothing is inserted, whatever was captured. *)
Theorem persistence_per_request (P : jsstring -> option json)
    (request : IndexTs.Request) (env : IndexTs.Env)
    (dsRes : option IndexTs.upstream) (w : world) :
  IndexTs.validated request w = true ->
  IndexTs.has_credential request env = true ->
  exists key tail,
    log (snd (IndexTs.serve P request env dsRes w)) =
      log w ++
      [InsertMessage (IndexTs.chat_of request) RUser
         (JStr (IndexTs.content_of request));
       UpdateTitle (IndexTs.chat_of request)
         (slice0 48 (IndexTs.content_of request));
       Fetch key (IndexTs.forwarded request w)] ++ tail /\
    inserts RUser tail = 0 /\
    inserts RAssistant tail <= 1 /\
    (forall l1 e l2,
       tail = l1 ++ e :: l2 -> is_insert RAssistant e = true ->
       (In (Read ReadDone) l1 \/ In ReadText l1) /\
       existsb is_chunk_read l2 = false) /\
    (forall u chunks e,
       dsRes = Some u -> IndexTs.stream_of request = true ->
       IndexTs.up_ok u = true -> IndexTs.up_body u = Some (chunks, e) ->
       let text := assistant (IndexTs.captured P capture_init chunks) in
       (e = EndFailed -> inserts RAssistant tail = 0) /\
       (e = EndDone -> trim text = [] -> inserts RAssistant tail = 0) /\
       (e = EndDone -> trim text <> [] ->
        In (InsertMessage (IndexTs.chat_of request) RAssistant (JStr text)) tail)).
Proof.
  intros V K. destruct (has_credential_key request env K) as (c & k & AK).
  destruct (serve_validated P request env dsRes w V) as (tail & L & _ & R).
  rewrite AK in R. destruct R as (tail' & -> & Sh).
  assert (T : trim (IndexTs.content_of request) = IndexTs.content_of request).
  { unfold IndexTs.content_of. destruct (IndexTs.json_body request);
      [rewrite trim_idempotent|]; reflexivity. }
  assert (L' : log (snd (IndexTs.serve P request env dsRes w)) =
               log w ++
               [InsertMessage (IndexTs.chat_of request) RUser
                  (JStr (IndexTs.content_of request));
                UpdateTitle (IndexTs.chat_of request)
                  (slice0 48 (IndexTs.content_of request));
                Fetch (c :: k) (IndexTs.forwarded request w)] ++ tail').
  { rewrite L. cbn [IndexTs.user_stored log]. rewrite T, <- app_assoc.
    reflexivity. }
  exists (c :: k), tail'. split; [exact L'|].
  destruct (reply_inserts _ _ Sh) as [U A].
  split; [exact U|]. split; [exact A|]. split.
  - intros l1 e l2 E I. exact (reply_insert_after_end _ _ Sh l1 e l2 E I).
  - intros u chunks e -> S O B text.
    pose proof (serve_streamed_log P request env u w c k chunks e V AK S O B)
      as SL.
    rewrite L' in SL. cbn [IndexTs.fetched IndexTs.user_stored log] in SL.
    rewrite T in SL. rewrite <- !app_assoc in SL.
    apply app_inv_head in SL. cbn [app] in SL.
    inversion SL as [E]. clear SL. subst text.
    split; [|split].
    + intros ->. rewrite inserts_app, inserts_tee. reflexivity.
    + intros -> Z. rewrite Z, inserts_app, inserts_tee. reflexivity.
    + intros -> Z. apply in_or_app; right.
      destruct (trim (assistant (IndexTs.captured P capture_init chunks)));
        [congruence|]. right; left; reflexivity.
Qed.

Lemma persistence_per_request_witness :
  IndexTs.validated Examples.hello Examples.one_chat = true /\
  IndexTs.has_credential Examples.hello Examples.a_key = true /\
  exists key tail,
    log (snd (IndexTs.serve JsonRef.JSON_parse Examples.hello Examples.a_key
                (Some (Examples.streaming_reply [Examples.hi_chunk] EndDone))
                Examples.one_chat)) =
      log Examples.one_chat ++
      [InsertMessage (IndexTs.chat_of Examples.hello) RUser
         (JStr (IndexTs.content_of Examples.hello));
       UpdateTitle (IndexTs.chat_of Examples.hello)
         (slice0 48 (IndexTs.content_of Examples.hello));
       Fetch key (IndexTs.forwarded Examples.hello Examples.one_chat)] ++ tail /\
    inserts RAssistant tail <= 1.
Proof.
  split; [reflexivity|]. split; [reflexivity|].
  destruct (persistence_per_request JsonRef.JSON_parse Examples.hello
              Examples.a_key
              (Some (Examples.streaming_reply [Examples.hi_chunk] EndDone))
              Examples.one_chat eq_refl eq_refl)
    as (key & tail & L & _ & A & _).
  exists key, tail. split; [exact L | exact A].
Defined.

(** C4, the claim as stated, fails: a read of the upstream body rejects
    after a chunk from which ["Hi"] was captured, and no assistant message
    is inserted. *)
Lemma failed_read_stores_nothing :
  let chunks := [Examples.hi_chunk] in
  let r := IndexTs.serve JsonRef.JSON_parse Examples.hello Examples.a_key
             (Some (Examples.streaming_reply chunks EndFailed))
             Examples.one_chat in
  IndexTs.validated Examples.hello Examples.one_chat = true /\
  IndexTs.has_credential Examples.hello Examples.a_key = true /\
  assistant (IndexTs.captured JsonRef.JSON_parse capture_init chunks) = lit "Hi" /\
  trim (lit "Hi") <> [] /\
  In (Read ReadRejected) (log (snd r)) /\
  inserts RAssistant (log (snd r)) = 0.
Proof.
  vm_compute. repeat split; try discriminate.
  right; right; right; right; right; left; reflexivity.
Qed.

(* ------------------------------------------------------------------ *)
(** ** The history sent upstream *)

Lemma insert_by_time_snoc (x m : message_row) (s : list message_row) :
  (m_created_at x <=? m_created_at m)%N = true ->
  insert_by_time x (s ++ [m]) = insert_by_time x s ++ [m].
Proof.
  intros L. induction s as [|y s IH]; cbn [app insert_by_time].
  - rewrite L. reflexivity.
  - destruct (m_created_at x <=? m_created_at y)%N; [reflexivity|].
    rewrite IH. reflexivity.
Qed.

(** A row that is not earlier than any other is last in the order. *)
Lemma order_by_created_at_snoc (l : list message_row) (m : message_row) :
  Forall (fun x => (m_created_at x <= m_created_at m)%N) l ->
  order_by_created_at (l ++ [m]) = order_by_created_at l ++ [m].
Proof.
  unfold order_by_created_at.
  induction 1 as [|x l Hx _ IH]; [reflexivity|].
  cbn [app fold_right]. rewrite IH.
  apply insert_by_time_snoc. apply N.leb_le. exact Hx.
Qed.

Lemma insert_by_time_length (x : message_row) (s : list message_row) :
  length (insert_by_time x s) = S (length s).
Proof.
  induction s as [|y s IH]; [reflexivity|]. cbn [insert_by_time].
  destruct (m_created_at x <=? m_created_at y)%N; cbn [length]; [|rewrite IH];
    reflexivity.
Qed.

Lemma order_by_created_at_length (l : list message_row) :
  length (order_by_created_at l) = length l.
Proof.
  unfold order_by_created_at. induction l as [|x l IH]; [reflexivity|].
  cbn [fold_right length]. rewrite insert_by_time_length, IH. reflexivity.
Qed.

(** C6 (as amended) — History forwarded. An accepted chat-send calls the
    upstream API with the system prompt followed by the last 30 messages of
    the conversation's stored history, in [created_at] order and cut to its
    first 1000 rows (all of it when fewer than 1000 messages were stored);
    that is the whole history when it has at most 30 messages. When no
    stored message is later than the new user message and fewer than 1000
    are stored, the user message is the last one sent. *)
Theorem history_forwarded (P : jsstring -> option json)
    (request : IndexTs.Request) (env : IndexTs.Env)
    (dsRes : option IndexTs.upstream) (w : world) :
  IndexTs.validated request w = true ->
  IndexTs.has_credential request env = true ->
  let chat := IndexTs.chat_of request in
  let user_row := {| chat_id := chat; m_role := RUser;
                     content := JStr (IndexTs.content_of request);
                     m_created_at := hd 0%N (clock w) |} in
  let stored := filter (fun m => str_eqb (chat_id m) chat) (messages (DB w)) in
  let hist := firstn 1000 (order_by_created_at (stored ++ [user_row])) in
  let sent := p_messages (IndexTs.forwarded request w) in
  (exists key,
     In (Fetch key (IndexTs.forwarded request w))
        (log (snd (IndexTs.serve P request env dsRes w)))) /\
  sent = IndexTs.system_message ::
         map IndexTs.of_row (skipn (length hist - 30) hist) /\
  (length hist <= 30 ->
   sent = IndexTs.system_message :: map IndexTs.of_row hist) /\
  (Forall (fun m => (m_created_at m <= hd 0 (clock w))%N) stored ->
   length stored < 1000 ->
   hist = order_by_created_at stored ++ [user_row] /\
   last sent IndexTs.system_message = IndexTs.of_row user_row) /\
  (length stored < 1000 ->
   hist = order_by_created_at (stored ++ [user_row])).
Proof.
  intros V K chat user_row stored hist sent.
  assert (S : sent = IndexTs.system_message ::
                     map IndexTs.of_row (skipn (length hist - 30) hist)).
  { subst sent hist stored user_row chat.
    unfold IndexTs.forwarded, IndexTs.user_stored, select_messages, slice_last.
    cbn [p_messages DB messages]. rewrite filter_app. cbn [filter].
    rewrite str_eqb_refl. reflexivity. }
  split; [|split; [exact S|split; [|split]]].
  - destruct (has_credential_key request env K) as (c & k & AK).
    destruct (serve_validated P request env dsRes w V) as (tail & L & _ & R).
    rewrite AK in R. destruct R as (tail' & -> & _).
    exists (c :: k). rewrite L. apply in_or_app; right; left; reflexivity.
  - intros Le. rewrite S. replace (length hist - 30) with 0 by lia. reflexivity.
  - intros F Lt.
    assert (H : hist = order_by_created_at stored ++ [user_row]).
    { subst hist. rewrite order_by_created_at_snoc by exact F.
      apply firstn_all2. rewrite length_app, order_by_created_at_length.
      cbn [length]. lia. }
    split; [exact H|].
    rewrite S, H, skipn_app.
    replace (length (order_by_created_at stored ++ [user_row]) - 30 -
             length (order_by_created_at stored)) with 0
      by (rewrite length_app; cbn [length]; lia).
    cbn [skipn]. rewrite map_app. cbn [map].
    rewrite app_comm_cons. apply last_last.
  - intros Lt. subst hist. apply firstn_all2.
    rewrite order_by_created_at_length, length_app. cbn [length]. lia.
Qed.

Lemma history_forwarded_witness :
  IndexTs.validated Examples.hello Examples.one_chat = true /\
  IndexTs.has_credential Examples.hello Examples.a_key = true /\
  p_messages (IndexTs.forwarded Examples.hello Examples.one_chat) =
    [IndexTs.system_message;
     {| cm_role := RUser; cm_content := JStr (lit "hello");
        cm_created_at := Some 5%N |}].
Proof.
  split; [reflexivity|]. split; [reflexivity|].
  exact (proj1 (proj2 (proj2
    (history_forwarded JsonRef.JSON_parse Examples.hello Examples.a_key None
       Examples.one_chat eq_refl eq_refl))) ltac:(vm_compute; lia)).
Defined.

(** C6, the claim as stated, fails: with thirty messages stored, the send
    below forwards the system prompt and thirty messages, not the
    thirty-one of the history; the oldest stored message is left out. *)
Lemma history_cut_to_thirty :
  let chat := lit "c1" in
  let w := Examples.long_chat in
  let sent := p_messages (IndexTs.forwarded Examples.hello w) in
  let history :=
    select_messages (DB (IndexTs.user_stored Examples.hello w)) chat 1000 in
  IndexTs.validated Examples.hello w = true /\
  IndexTs.has_credential Examples.hello Examples.a_key = true /\
  In (Fetch (lit "sk-1") (IndexTs.forwarded Examples.hello w))
     (log (snd (IndexTs.serve JsonRef.JSON_parse Examples.hello Examples.a_key
                  None w))) /\
  length history = 31 /\
  length sent = 31 /\
  sent <> IndexTs.system_message :: map IndexTs.of_row history /\
  hd_error history =
    Some {| chat_id := chat; m_role := RUser; content := JNum (lit "7");
            m_created_at := 1 |} /\
  nth_error sent 1 =
    Some {| cm_role := RUser; cm_content := JNum (lit "7");
            cm_created_at := Some 2%N |}.
Proof.
  cbv zeta. repeat split; try (vm_compute; reflexivity).
  - vm_compute. right; right; left; reflexivity.
  - intros E. apply (f_equal (@length _)) in E. vm_compute in E. discriminate.
Qed.

(* ------------------------------------------------------------------ *)
(** ** The streaming flag *)

Lemma stream_flag_false (b : IndexTs.chat_body) :
  IndexTs.stream_flag b = false <-> IndexTs.b_stream b = Some (JBool false).
Proof.
  unfold IndexTs.stream_flag.
  destruct (IndexTs.b_stream b) as [[| [|] | | | |]|]; split;
    try discriminate; reflexivity.
Qed.

(** C9 — Streaming is the default. For an accepted chat-send whose
    upstream reply is successful and has a body that ends, the relay asks
    upstream for a stream and answers with [streamOut] whenever the
    [stream] field of the request is absent or is anything but [false];
    only [false] makes it ask for, and pass on, a buffered reply. *)
Theorem streaming_is_default (P : jsstring -> option json)
    (request : IndexTs.Request) (env : IndexTs.Env) (u : IndexTs.upstream)
    (w : world) (b : IndexTs.chat_body) (chunks : list (list byte)) :
  IndexTs.validated request w = true ->
  IndexTs.has_credential request env = true ->
  IndexTs.json_body request = Some b ->
  IndexTs.up_ok u = true ->
  IndexTs.up_body u = Some (chunks, EndDone) ->
  (IndexTs.b_stream b <> Some (JBool false) ->
   p_stream (IndexTs.forwarded request w) = true /\
   exists text,
     fst (IndexTs.serve P request env (Some u) w) =
       Returned (IndexTs.RespondStream 200 (IndexTs.chat_of request)
                   chunks EndDone, text)) /\
  (IndexTs.b_stream b = Some (JBool false) ->
   p_stream (IndexTs.forwarded request w) = false /\
   exists t,
     fst (IndexTs.serve P request env (Some u) w) =
       Returned (IndexTs.Respond (IndexTs.up_status u) (IndexTs.Text t), [])).
Proof.
  intros V K B O Bd.
  destruct (has_credential_key request env K) as (c & k & AK).
  assert (SF : IndexTs.stream_of request = IndexTs.stream_flag b)
    by (unfold IndexTs.stream_of; rewrite B; reflexivity).
  split.
  - intros N.
    assert (S : IndexTs.stream_of request = true).
    { rewrite SF. destruct (IndexTs.stream_flag b) eqn:E; [reflexivity|].
      apply stream_flag_false in E. congruence. }
    split; [exact S|].
    rewrite (serve_streamed P request env u w c k chunks EndDone V AK S O Bd).
    destruct (trim (assistant (IndexTs.captured P capture_init chunks)))
      as [|c0 r0] eqn:T.
    + rewrite drain_done_empty by exact T. eexists; reflexivity.
    + rewrite drain_done_text by (rewrite T; discriminate).
      eexists; reflexivity.
  - intros F.
    assert (S : IndexTs.stream_of request = false)
      by (rewrite SF; apply stream_flag_false; exact F).
    split; [exact S|].
    unfold IndexTs.serve.
    rewrite (bind_run _ _ _ _ (route_validated P request env (Some u) w V)), AK.
    rewrite S, after_fetch_buffered, text_run, Bd.
    exists (fst (decode new_TextDecoder (concat chunks) false)).
    reflexivity.
Qed.

Lemma streaming_is_default_witness :
  IndexTs.b_stream
    {| IndexTs.b_chat_id := Some (lit "c1");
       IndexTs.b_content := Some (lit " hello ");
       IndexTs.b_stream := None |} <> Some (JBool false) /\
  exists text,
    fst (IndexTs.serve JsonRef.JSON_parse Examples.hello Examples.a_key
           (Some (Examples.streaming_reply [Examples.hi_chunk] EndDone))
           Examples.one_chat) =
      Returned (IndexTs.RespondStream 200 (IndexTs.chat_of Examples.hello)
                  [Examples.hi_chunk] EndDone, text).
Proof.
  assert (N : IndexTs.b_stream
                {| IndexTs.b_chat_id := Some (lit "c1");
                   IndexTs.b_content := Some (lit " hello ");
                   IndexTs.b_stream := None |} <> Some (JBool false))
    by discriminate.
  split; [exact N|].
  exact (proj2 (proj1 (streaming_is_default JsonRef.JSON_parse Examples.hello
                         Examples.a_key
                         (Examples.streaming_reply [Examples.hi_chunk] EndDone)
                         Examples.one_chat _ [Examples.hi_chunk]
                         eq_refl eq_refl eq_refl eq_refl eq_refl) N)).
Defined.

(* ------------------------------------------------------------------ *)
(** ** The title *)

Lemma tee_no_title (chunks : list (list byte)) :
  filter is_title_update (IndexTs.tee chunks) = [].
Proof. induction chunks as [|v r IH]; [reflexivity | exact IH]. Qed.

Lemma reply_no_title (chatId : jsstring) (tail : list effect) :
  IndexTs.reply_effects chatId tail -> filter is_title_update tail = [].
Proof.
  intros []; rewrite ?filter_app, ?tee_no_title; reflexivity.
Qed.

Lemma utf16_of_pair (h l : N) :
  (55296 <= h <= 56319)%N -> (56320 <= l <= 57343)%N ->
  utf16_of_scalar (65536 + N.shiftl (h - 55296) 10 + (l - 56320)) = [h; l].
Proof.
  intros Hh Hl. unfold utf16_of_scalar.
  rewrite N.shiftl_mul_pow2. change (2 ^ 10)%N with 1024%N.
  destruct (N.ltb_spec (65536 + (h - 55296) * 1024 + (l - 56320)) 65536)
    as [G|_]; [lia|].
  cbv zeta.
  replace (65536 + (h - 55296) * 1024 + (l - 56320) - 65536)%N
    with ((h - 55296) * 1024 + (l - 56320))%N by lia.
  rewrite N.shiftr_div_pow2. change (2 ^ 10)%N with 1024%N.
  change 1023%N with (N.ones 10). rewrite N.land_ones.
  change (2 ^ 10)%N with 1024%N.
  assert (D : (((h - 55296) * 1024 + (l - 56320)) / 1024 = h - 55296)%N).
  { symmetry. apply (N.div_unique _ _ _ (l - 56320)); lia. }
  assert (M : (((h - 55296) * 1024 + (l - 56320)) mod 1024 = l - 56320)%N).
  { symmetry. apply (N.mod_unique _ _ (h - 55296)); lia. }
  rewrite D, M. f_equal; [lia | f_equal; lia].
Qed.

(** A well-formed string is kept as it is. *)
Lemma D1_text_well_formed (s : jsstring) : well_formed s -> D1_text s = s.
Proof.
  unfold D1_text. induction 1 as [|c s Hc _ IH|h l s Hh Hl _ IH];
    [reflexivity| |].
  - cbn [scalars].
    assert (Xh : is_high c = false).
    { unfold is_high. destruct (N.leb_spec 55296 c), (N.leb_spec c 56319);
        cbn [andb]; try reflexivity; lia. }
    assert (Xl : is_low c = false).
    { unfold is_low. destruct (N.leb_spec 56320 c), (N.leb_spec c 57343);
        cbn [andb]; try reflexivity; lia. }
    rewrite Xh, Xl. cbn [flat_map]. rewrite IH. unfold utf16_of_scalar.
    destruct (N.ltb_spec c 65536) as [_|G]; [reflexivity | lia].
  - cbn [scalars].
    assert (Xh : is_high h = true).
    { unfold is_high. destruct (N.leb_spec 55296 h), (N.leb_spec h 56319);
        cbn [andb]; try reflexivity; lia. }
    assert (Xl : is_low l = true).
    { unfold is_low. destruct (N.leb_spec 56320 l), (N.leb_spec l 57343);
        cbn [andb]; try reflexivity; lia. }
    rewrite Xh, Xl. cbn [flat_map]. rewrite IH, (utf16_of_pair h l Hh Hl).
    reflexivity.
Qed.

(** C10 (as amended) — Title on every send. A chat-send that passes
    validation makes one title update, with the first 48 code units of
    the trimmed user text. The chat it names gets them as its title when
    its title is NULL or the empty string, and keeps its title otherwise;
    no row of [chats] changes in anything else, and no row is added or
    removed. The title the table holds is those code units as the UTF-8
    store keeps them: the same units when they are well-formed UTF-16,
    and in general with U+FFFD in place of a surrogate that is without
    its pair, as the cut at 48 can leave one. *)
Theorem title_on_send (P : jsstring -> option json)
    (request : IndexTs.Request) (env : IndexTs.Env)
    (dsRes : option IndexTs.upstream) (w : world) :
  IndexTs.validated request w = true ->
  let chat := IndexTs.chat_of request in
  let said := IndexTs.content_of request in
  let w' := snd (IndexTs.serve P request env dsRes w) in
  (exists l, log w' = log w ++ l /\
             filter is_title_update l = [UpdateTitle chat (firstn 48 said)]) /\
  exists t,
    (well_formed (firstn 48 said) -> t = firstn 48 said) /\
    t = flat_map utf16_of_scalar (scalars (firstn 48 said)) /\
    Forall2
      (fun c c' =>
         id c' = id c /\ created_at c' = created_at c /\
         (id c = chat -> title c = None \/ title c = Some [] ->
          title c' = Some t) /\
         (id c <> chat \/ (exists x y, title c = Some (x :: y)) ->
          title c' = title c))
      (chats (DB w)) (chats (DB w')).
Proof.
  intros V chat said w'.
  assert (T : trim said = said).
  { unfold said, IndexTs.content_of. destruct (IndexTs.json_body request);
      [rewrite trim_idempotent|]; reflexivity. }
  destruct (serve_validated P request env dsRes w V) as (tail & L & C & R).
  split.
  - exists ([InsertMessage chat RUser (JStr said);
             UpdateTitle chat (firstn 48 said)] ++ tail).
    split.
    + subst w'. rewrite L. cbn [IndexTs.user_stored log]. fold said.
      rewrite T. rewrite <- app_assoc. reflexivity.
    + cbn [app filter is_title_update]. f_equal.
      destruct (IndexTs.api_key request env) as [[|c k]|].
      * destruct R as [-> _]; reflexivity.
      * destruct R as (tail' & -> & Sh). cbn [filter is_title_update].
        exact (reply_no_title _ _ Sh).
      * destruct R as [-> _]; reflexivity.
  - exists (D1_text (firstn 48 said)).
    split; [intros F; apply D1_text_well_formed; exact F|].
    split; [reflexivity|].
    subst w'. rewrite C. cbn [IndexTs.user_stored DB chats]. fold said.
    rewrite T. fold chat. unfold slice0. clear.
    induction (chats (DB w)) as [|c cs IH]; constructor; [|exact IH].
    unfold update_title, title_empty.
    destruct (str_eqb (id c) chat) eqn:E;
      [apply str_eqb_eq in E | apply str_eqb_neq in E];
      destruct (title c) as [[|x y]|] eqn:Tc;
      cbn [andb id created_at title COALESCE NULLIF_empty];
      (split; [reflexivity|]); (split; [reflexivity|]); split;
      try (intros _ _; reflexivity);
      try (intros _ [H | H]; discriminate H);
      try (intros H; contradiction);
      try (intros _; exact Tc);
      try (intros _; symmetry; exact Tc);
      try (intros [H | (x' & y' & H)];
           [contradiction | discriminate H]).
Qed.

Lemma title_on_send_witness :
  exists t,
    t = firstn 48 (IndexTs.content_of Scenes.wordy) /\
    Forall2
      (fun c c' =>
         id c' = id c /\ created_at c' = created_at c /\
         (id c = lit "c1" -> title c = None \/ title c = Some [] ->
          title c' = Some t) /\
         (id c <> lit "c1" \/ (exists x y, title c = Some (x :: y)) ->
          title c' = title c))
      (chats (DB Examples.one_chat))
      (chats (DB (snd (IndexTs.serve JsonRef.JSON_parse Scenes.wordy
                         Examples.no_key None Examples.one_chat)))).
Proof.
  destruct (proj2 (title_on_send JsonRef.JSON_parse Scenes.wordy
                     Examples.no_key None Examples.one_chat eq_refl))
    as (t & Pl & _ & F).
  exists t. split; [|exact F].
  apply Pl. vm_compute.
  repeat (apply wf_unit; [left; reflexivity|]). apply wf_nil.
Defined.

(** C10, the claim as stated, fails when the cut at 48 falls inside a
    character: the text below is 47 letters and then U+1F600, whose two
    code units are the 48th and the 49th. The first 48 code units end
    with the high surrogate alone; the title the table holds ends with
    U+FFFD instead. *)
Lemma title_cut_inside_character :
  let w' := snd (IndexTs.serve JsonRef.JSON_parse Scenes.emoji_at_the_cut
                   Examples.no_key None Examples.one_chat) in
  IndexTs.validated Scenes.emoji_at_the_cut Examples.one_chat = true /\
  title_empty {| id := lit "c1"; title := None; created_at := 1 |} = true /\
  firstn 48 (IndexTs.content_of Scenes.emoji_at_the_cut) =
    repeat 97%N 47 ++ [55357%N] /\
  map title (chats (DB w')) = [Some (repeat 97%N 47 ++ [65533%N])] /\
  map title (chats (DB w')) <>
    [Some (firstn 48 (IndexTs.content_of Scenes.emoji_at_the_cut))].
Proof.
  cbv zeta.
  split; [vm_compute; reflexivity|].
  split; [reflexivity|].
  split; [vm_compute; reflexivity|].
  split; [vm_compute; reflexivity|].
  vm_compute. discriminate.
Qed.

(* ------------------------------------------------------------------ *)
(** ** Frames that carry no text *)

Lemma pull_chunk_returns (P : jsstring -> option json) (chatId : jsstring)
    (st : capture) (v : list byte) (w : world) :
  fst (IndexTs.pull P chatId st (ReadChunk v) w) =
    Returned (capture_chunk P st (decode_once v), IndexTs.Open).
Proof. reflexivity. Qed.

(** C8 — Sentinel and malformed frames are skipped. A complete frame
    whose data payload is [[DONE]], or whose payload [JSON.parse] rejects,
    leaves the relay's accumulator as it was; the loop goes on with the
    frames after it as if the frame were not there; and no chunk makes
    [pull] throw. *)
Theorem sentinel_and_malformed_skipped (P : jsstring -> option json)
    (evt line : jsstring) :
  data_line evt = Some line ->
  strip_data line = DONE \/ P (strip_data line) = None ->
  frame P evt = Skip /\
  (forall a, capture_event P a evt = a) /\
  (forall pre post a,
     fold_left (capture_event P) (pre ++ evt :: post) a =
     fold_left (capture_event P) (pre ++ post) a) /\
  (forall chatId st v w,
     fst (IndexTs.pull P chatId st (ReadChunk v) w) =
       Returned (capture_chunk P st (decode_once v), IndexTs.Open)).
Proof.
  intros D H.
  assert (F : frame P evt = Skip).
  { unfold frame. rewrite D. destruct H as [-> | ->].
    - reflexivity.
    - destruct (str_eqb (strip_data line) DONE); reflexivity. }
  assert (C : forall a, capture_event P a evt = a)
    by (intros a; unfold capture_event; rewrite F; reflexivity).
  split; [exact F|]. split; [exact C|]. split.
  - intros pre post a. rewrite !fold_left_app. cbn [fold_left].
    rewrite C. reflexivity.
  - intros chatId st v w. apply pull_chunk_returns.
Qed.

Lemma sentinel_and_malformed_skipped_witness :
  data_line (lit "data: {oops") = Some (lit "data: {oops") /\
  JsonRef.JSON_parse (strip_data (lit "data: {oops")) = None /\
  frame JsonRef.JSON_parse (lit "data: {oops") = Skip.
Proof.
  assert (D : data_line (lit "data: {oops") = Some (lit "data: {oops"))
    by reflexivity.
  assert (N : JsonRef.JSON_parse (strip_data (lit "data: {oops")) = None)
    by reflexivity.
  split; [exact D|]. split; [exact N|].
  exact (proj1 (sentinel_and_malformed_skipped JsonRef.JSON_parse
                  (lit "data: {oops") (lit "data: {oops") D (or_intror N))).
Defined.

Example done_frame_skipped :
  frame JsonRef.JSON_parse (lit "data: [DONE]") = Skip /\
  strip_data (lit "data: [DONE]") = DONE.
Proof. split; reflexivity. Qed.

(* ------------------------------------------------------------------ *)
(** ** Reassembly in the consumer and in the relay *)

Section ConsumerLoop.

Variable P : jsstring -> option json.

Lemma chatjs_events (evs : list jsstring) (st : ChatJs.state) :
  ChatJs.full (fold_left (ChatJs.on_event P) evs st) =
    fold_left (capture_event P) evs (ChatJs.full st) /\
  ChatJs.buffer (fold_left (ChatJs.on_event P) evs st) = ChatJs.buffer st /\
  ChatJs.dec (fold_left (ChatJs.on_event P) evs st) = ChatJs.dec st.
Proof.
  revert st; induction evs as [|e evs IH]; intros st; [auto|].
  cbn [fold_left]. destruct (IH (ChatJs.on_event P st e)) as (F & B & D).
  rewrite F, B, D. unfold ChatJs.on_event, capture_event.
  destruct (frame P e); auto.
Qed.

Lemma chatjs_chunk (st : ChatJs.state) (v : list byte) :
  {| buffer := ChatJs.buffer (ChatJs.on_chunk P st v);
     assistant := ChatJs.full (ChatJs.on_chunk P st v) |} =
    capture_chunk P {| buffer := ChatJs.buffer st; assistant := ChatJs.full st |}
      (fst (decode (ChatJs.dec st) v true)) /\
  ChatJs.dec (ChatJs.on_chunk P st v) = snd (decode (ChatJs.dec st) v true).
Proof.
  unfold ChatJs.on_chunk, capture_chunk. cbn [buffer assistant].
  destruct (decode (ChatJs.dec st) v true) as [s d]. cbn [fst snd].
  destruct (pop (split (ChatJs.buffer st ++ s) BLANK)) as [events rest].
  match goal with
  | |- context [fold_left (ChatJs.on_event P) events ?st0] =>
      destruct (chatjs_events events st0) as (F & B & D)
  end.
  rewrite F, B, D. auto.
Qed.

(** The consumer's buffer and display text are the capture of the texts
    its decoder returns. *)
Lemma chatjs_loop (chunks : list (list byte)) (st : ChatJs.state) :
  {| buffer := ChatJs.buffer (ChatJs.read_loop P st chunks);
     assistant := ChatJs.full (ChatJs.read_loop P st chunks) |} =
  fold_left (capture_chunk P) (decode_stream (ChatJs.dec st) chunks)
    {| buffer := ChatJs.buffer st; assistant := ChatJs.full st |}.
Proof.
  revert st; induction chunks as [|v r IH]; intros st; [reflexivity|].
  unfold ChatJs.read_loop in *. cbn [fold_left decode_stream].
  rewrite IH. destruct (chatjs_chunk st v) as [C D]. rewrite C, D.
  destruct (decode (ChatJs.dec st) v true). reflexivity.
Qed.

(** X6 — The consumer reassembles without loss, wherever the chunks are
    cut, also inside a character: when the bytes of the whole body decode
    to a stream of data frames that carry the deltas, the display text is
    the deltas in order. *)
Theorem consumer_lossless (chunks : list (list byte))
    (payloads deltas : list jsstring) (acts : list Browser.action) :
  fst (decode new_TextDecoder (concat chunks) true) = sse_stream payloads ->
  Forall2 (carries P) payloads deltas ->
  ChatJs.full
    (ChatJs.read_loop P
       {| ChatJs.buffer := []; ChatJs.full := []; ChatJs.dec := new_TextDecoder;
          ChatJs.actions := acts |} chunks) = concat deltas.
Proof.
  intros D F.
  pose proof (chatjs_loop chunks
                {| ChatJs.buffer := []; ChatJs.full := [];
                   ChatJs.dec := new_TextDecoder; ChatJs.actions := acts |}) as L.
  cbn [ChatJs.buffer ChatJs.full ChatJs.dec] in L.
  change {| buffer := []; assistant := [] |} with capture_init in L.
  rewrite capture_chunks, decode_stream_new, D, (capture_stream P _ _ F) in L.
  inversion L. reflexivity.
Qed.

(** The relay reassembles without loss when no chunk boundary changes
    what the chunks decode to: when the texts of the chunks, each decoded
    on its own, make up the stream of data frames. *)
Theorem relay_lossless_whole_characters (chunks : list (list byte))
    (payloads deltas : list jsstring) :
  concat (map decode_once chunks) = sse_stream payloads ->
  Forall2 (carries P) payloads deltas ->
  IndexTs.captured P capture_init chunks =
    {| buffer := []; assistant := concat deltas |}.
Proof.
  intros D F. unfold IndexTs.captured.
  rewrite capture_chunks, D. apply capture_stream. exact F.
Qed.

End ConsumerLoop.

(** A chunk of ASCII bytes decodes, on its own, to the same code units. *)
Lemma utf8_bytes_ascii (v : list byte) :
  Forall (fun b => (Byte.to_N b < 128)%N) v ->
  utf8_bytes utf8_init v = (map Byte.to_N v, utf8_init).
Proof.
  induction 1 as [|b v Hb _ IH]; [reflexivity|].
  cbn [utf8_bytes map]. unfold utf8_byte. cbn [bytes_needed utf8_init N.eqb].
  unfold utf8_start.
  destruct (N.leb_spec (Byte.to_N b) 127) as [_|G]; [|lia].
  rewrite IH. reflexivity.
Qed.

Lemma serialize_seen_small (o : list N) :
  Forall (fun c => (c < 128)%N) o -> serialize true o = (o, true).
Proof.
  induction 1 as [|c o Hc _ IH]; [reflexivity|].
  cbn [serialize]. rewrite IH. unfold utf16_of_scalar.
  destruct (N.ltb_spec c 65536) as [_|G]; [reflexivity | lia].
Qed.

Lemma serialize_small (o : list N) :
  Forall (fun c => (c < 128)%N) o -> fst (serialize false o) = o.
Proof.
  intros F. destruct F as [|c o Hc F]; [reflexivity|].
  cbn [serialize].
  destruct (N.eqb_spec c 65279) as [E|_]; [lia|].
  rewrite (serialize_seen_small o F). unfold utf16_of_scalar.
  destruct (N.ltb_spec c 65536) as [_|G]; [reflexivity | lia].
Qed.

Lemma decode_once_ascii (v : list byte) :
  Forall (fun b => (Byte.to_N b < 128)%N) v ->
  decode_once v = map Byte.to_N v.
Proof.
  intros F. unfold decode_once, decode.
  cbn [do_not_flush new_TextDecoder]. rewrite (utf8_bytes_ascii v F).
  cbn [utf8_flush bytes_needed utf8_init N.eqb]. rewrite app_nil_r.
  pose proof (serialize_small (map Byte.to_N v)) as S.
  destruct (serialize false (map Byte.to_N v)) as [s b]. cbn [fst] in *.
  apply S. apply Forall_map. exact F.
Qed.

(** X7 — On a body of ASCII bytes the relay reassembles without loss,
    wherever the chunks are cut: when the bytes are a stream of data
    frames that carry the deltas, the text captured is the deltas in
    order and the carry-over buffer ends empty. *)
Theorem relay_lossless_ascii (P : jsstring -> option json)
    (chunks : list (list byte)) (payloads deltas : list jsstring) :
  Forall (fun b => (Byte.to_N b < 128)%N) (concat chunks) ->
  map Byte.to_N (concat chunks) = sse_stream payloads ->
  Forall2 (carries P) payloads deltas ->
  IndexTs.captured P capture_init chunks =
    {| buffer := []; assistant := concat deltas |}.
Proof.
  intros A D F. apply relay_lossless_whole_characters with payloads; [|exact F].
  rewrite <- D. clear D F. induction chunks as [|v r IH]; [reflexivity|].
  cbn [concat map] in *. apply Forall_app in A as [Av Ar].
  rewrite map_app, (decode_once_ascii v Av), (IH Ar). reflexivity.
Qed.

Lemma relay_lossless_ascii_witness :
  Forall (fun b => (Byte.to_N b < 128)%N)
    (concat [firstn 20 Examples.hi_chunk; skipn 20 Examples.hi_chunk]) /\
  IndexTs.captured JsonRef.JSON_parse capture_init
    [firstn 20 Examples.hi_chunk; skipn 20 Examples.hi_chunk] =
    {| buffer := []; assistant := concat [lit "Hi"] |}.
Proof.
  assert (A : Forall (fun b => (Byte.to_N b < 128)%N)
                (concat [firstn 20 Examples.hi_chunk; skipn 20 Examples.hi_chunk])).
  { vm_compute. repeat (constructor; [reflexivity|]). constructor. }
  split; [exact A|].
  apply (relay_lossless_ascii JsonRef.JSON_parse
           [firstn 20 Examples.hi_chunk; skipn 20 Examples.hi_chunk]
           [Examples.delta_payload (lit "Hi")] [lit "Hi"] A eq_refl).
  constructor; [|constructor].
  split; [|split].
  - intros I. vm_compute in I.
    repeat (destruct I as [I|I]; [discriminate|]). exact I.
  - discriminate.
  - eexists. split; reflexivity.
Defined.

Lemma consumer_lossless_witness :
  fst (decode new_TextDecoder (concat Examples.e_acute_split) true) =
    sse_stream [Examples.delta_payload [233%N]] /\
  ChatJs.full
    (ChatJs.read_loop JsonRef.JSON_parse
       {| ChatJs.buffer := []; ChatJs.full := []; ChatJs.dec := new_TextDecoder;
          ChatJs.actions := [] |} Examples.e_acute_split) = concat [[233%N]].
Proof.
  assert (D : fst (decode new_TextDecoder (concat Examples.e_acute_split) true) =
              sse_stream [Examples.delta_payload [233%N]]) by reflexivity.
  split; [exact D|].
  apply (consumer_lossless JsonRef.JSON_parse Examples.e_acute_split
           [Examples.delta_payload [233%N]] [[233%N]] [] D).
  constructor; [|constructor].
  split; [|split].
  - intros I. vm_compute in I.
    repeat (destruct I as [I|I]; [discriminate|]). exact I.
  - discriminate.
  - eexists. split; reflexivity.
Defined.

(** C1 — Lossless reassembly fails in the relay when a chunk boundary
    falls inside a multi-byte character. The body below is one data frame
    carrying ["é"] (bytes C3 A9). In one chunk, the relay captures ["é"].
    Cut between C3 and A9, the consumer of [public/chat.js], whose decoder
    is called with [stream: true], still shows ["é"]; the relay, which
    decodes each chunk with a new decoder, captures two U+FFFD instead and
    stores them as the assistant message. *)
Theorem relay_breaks_split_character :
  let P := JsonRef.JSON_parse in
  let whole := [Examples.e_acute_frame] in
  let cut := Examples.e_acute_split in
  concat cut = concat whole /\
  fst (decode new_TextDecoder (concat cut) true) =
    sse_stream [Examples.delta_payload [233%N]] /\
  carries P (Examples.delta_payload [233%N]) [233%N] /\
  assistant (IndexTs.captured P capture_init whole) = [233%N] /\
  ChatJs.full
    (ChatJs.read_loop P
       {| ChatJs.buffer := []; ChatJs.full := []; ChatJs.dec := new_TextDecoder;
          ChatJs.actions := [] |} cut) = [233%N] /\
  assistant (IndexTs.captured P capture_init cut) = [65533%N; 65533%N] /\
  In (InsertMessage (lit "c1") RAssistant (JStr [65533%N; 65533%N]))
     (log (snd (IndexTs.serve P Examples.hello Examples.a_key
                  (Some (Examples.streaming_reply cut EndDone))
                  Examples.one_chat))).
Proof.
  cbv zeta.
  split; [vm_compute; reflexivity|].
  split; [vm_compute; reflexivity|].
  split.
  { split; [|split].
    - intros I. vm_compute in I.
      repeat (destruct I as [I|I]; [discriminate|]). exact I.
    - discriminate.
    - eexists. split; reflexivity. }
  split; [vm_compute; reflexivity|].
  split; [vm_compute; reflexivity|].
  split; [vm_compute; reflexivity|].
  vm_compute. do 8 right. left. reflexivity.
Qed.

(* ------------------------------------------------------------------ *)
(** ** The consumers and the persistence-complete signal *)

Section StoredFlag.

Variable P : jsstring -> option json.




End StoredFlag.




(** The relay of [src/index.ts] and the sidebar consumer together: the
    chunks the relay enqueues for a body carrying ["Hi"], read by the
    consumer, show ["Hi"] and confirm storage. *)
Example relay_then_consumer :
  let w := snd (IndexTs.serve JsonRef.JSON_parse Examples.hello Examples.a_key
                  (Some (Examples.streaming_reply [Examples.hi_chunk] EndDone))
                  Examples.one_chat) in
  let st := Part004.onSend JsonRef.JSON_parse (lit "hello") false
              (Some (lit "c1"))
              (Some {| Browser.r_ok := true; Browser.r_status := 200;
                       Browser.r_chunks := enqueued (log w);
                       Browser.r_done := true |}) true in
  Part004.full st = lit "Hi" /\ Part004.stored st = true /\
  Part004.actions st =
    [Browser.PostChat (lit "hello"); Browser.AppendText (lit "Hi");
     Browser.LoadChat; Browser.RefreshChats].
Proof. vm_compute. repeat split. Qed.

Lemma persist_sentinel_close_witness :
  exists l,
    log (snd (IndexTs.drain JsonRef.JSON_parse (lit "c1") capture_init
                [Examples.hi_chunk] EndDone Examples.empty_world)) =
      log Examples.empty_world ++ l /\
    In Close l /\
    In (InsertMessage (lit "c1") RAssistant (JStr (lit "Hi"))) l.
Proof.
  destruct (proj1 (persist_sentinel_close JsonRef.JSON_parse (lit "c1")
                     capture_init [Examples.hi_chunk] EndDone
                     Examples.empty_world))
    as (l & L & _ & _ & C & I).
  exists l. split; [exact L|]. split; [exact (C eq_refl)|].
  apply (I eq_refl). discriminate.
Defined.

(* ------------------------------------------------------------------ *)
(** ** Two runs of the relay *)

(** Two frames carrying ["Hel"] and ["lo"], the second chunk ending with
    the [[DONE]] frame: the relay captures and stores ["Hello"]. *)
Example two_chunks_hello :
  let chunks :=
    [encode (data_frame (Examples.delta_payload (lit "Hel")));
     encode (data_frame (Examples.delta_payload (lit "lo")) ++
             data_frame DONE)] in
  let r := IndexTs.serve JsonRef.JSON_parse Examples.hello Examples.a_key
             (Some (Examples.streaming_reply chunks EndDone))
             Examples.one_chat in
  fst r = Returned (IndexTs.RespondStream 200 (lit "c1") chunks EndDone,
                    lit "Hello") /\
  inserts RAssistant (log (snd r)) = 1 /\
  In (InsertMessage (lit "c1") RAssistant (JStr (lit "Hello"))) (log (snd r)).
Proof.
  vm_compute. repeat split. do 8 right. left. reflexivity.
Qed.

(** A frame cut in the middle of its JSON, inside the key [delta]: the
    second chunk completes it. *)
Example frame_cut_mid_json :
  let chunks := [firstn 23 Examples.hi_chunk; skipn 23 Examples.hi_chunk] in
  decode_once (firstn 23 Examples.hi_chunk) =
    lit "data: {" ++ Examples.quoted (lit "choices") ++ lit ":[{" ++
    [34%N] ++ lit "del" /\
  IndexTs.captured JsonRef.JSON_parse capture_init chunks =
    {| buffer := []; assistant := lit "Hi" |}.
Proof. vm_compute. split; reflexivity. Qed.

(* ================================================================== *)
(** * Further properties of the relay, its routes and the consumers *)
(* ================================================================== *)

(* ------------------------------------------------------------------ *)
(** ** The carry-over buffer *)

Lemma cut_none_before (sep s b a : jsstring) :
  sep <> [] -> cut sep s = Some (b, a) -> cut sep b = None.
Proof.
  intros N. revert b a; induction s as [|c r IH]; intros b a.
  - cbn [cut]. destruct (startsWith [] sep) eqn:E; [|discriminate].
    destruct sep; [congruence | discriminate E].
  - cbn [cut]. destruct (startsWith (c :: r) sep) eqn:E.
    + intros H; inversion H; subst.
      apply cut_short. destruct sep; [congruence | simpl; lia].
    + destruct (cut sep r) as [[b' a']|] eqn:C; [|discriminate].
      intros H; inversion H; subst.
      cbn [cut]. rewrite (IH _ _ eq_refl).
      destruct (startsWith (c :: b') sep) eqn:E'; [|reflexivity].
      apply cut_spec in C. subst r.
      apply startsWith_spec in E' as [t Ht].
      assert (X : startsWith (c :: b' ++ sep ++ a) sep = true).
      { apply startsWith_spec. exists (t ++ sep ++ a).
        rewrite app_comm_cons, Ht, <- app_assoc. reflexivity. }
      congruence.
Qed.

Lemma split_pieces (s sep : jsstring) :
  sep <> [] ->
  Forall (fun e => cut sep e = None) (split s sep) /\
  concat (map (fun e => e ++ sep) (removelast (split s sep))) ++
    last (split s sep) [] = s.
Proof.
  intros N. remember (length s) as n eqn:E.
  revert s E; induction n as [n IH] using lt_wf_ind; intros s ->.
  rewrite (split_unfold s sep N).
  destruct (cut sep s) as [[b a]|] eqn:C.
  - destruct (IH (length a) (cut_shorter _ _ _ _ N C) a eq_refl) as [F J].
    pose proof (split_not_nil a sep N) as NE.
    split.
    + constructor; [exact (cut_none_before _ _ _ _ N C) | exact F].
    + destruct (split a sep) as [|x l] eqn:S; [congruence|].
      change (removelast (b :: x :: l)) with (b :: removelast (x :: l)).
      change (last (b :: x :: l) []) with (last (x :: l) []).
      cbn [map concat]. rewrite <- !app_assoc, J.
      symmetry. apply cut_spec. exact C.
  - split; [constructor; [exact C | constructor] | reflexivity].
Qed.

(** X1 — The carry-over buffer. One round of the relay's capture hands
    to the frame loop the complete frames of the old carry-over followed
    by the chunk and keeps the rest: the frames, each with its blank line,
    followed by the new carry-over, are exactly that text; neither a frame
    nor the carry-over contains a blank line. *)
Theorem carry_over_invariant (P : jsstring -> option json) (st : capture)
    (chunk : jsstring) :
  exists events,
    concat (map (fun e => e ++ BLANK) events) ++
      buffer (capture_chunk P st chunk) = buffer st ++ chunk /\
    assistant (capture_chunk P st chunk) =
      fold_left (capture_event P) events (assistant st) /\
    Forall (fun e => cut BLANK e = None) events /\
    cut BLANK (buffer (capture_chunk P st chunk)) = None.
Proof.
  rewrite capture_chunk_eq. cbn [buffer assistant].
  destruct (split_pieces (buffer st ++ chunk) BLANK BLANK_not_nil) as [F J].
  pose proof (split_not_nil (buffer st ++ chunk) BLANK BLANK_not_nil) as NE.
  exists (removelast (split (buffer st ++ chunk) BLANK)).
  split; [exact J|]. split; [reflexivity|].
  rewrite (app_removelast_last [] NE) in F.
  apply Forall_app in F as [F1 F2]. split; [exact F1|].
  inversion F2; assumption.
Qed.

(** X2 — The accumulator only grows. Whatever chunks follow, the text
    the relay has captured so far stays as the beginning of the text it
    has captured afterwards. *)
Theorem accumulator_only_grows (P : jsstring -> option json) (st : capture)
    (chunks : list (list byte)) :
  exists added,
    assistant (IndexTs.captured P st chunks) = assistant st ++ added.
Proof.
  assert (E : forall evs a, exists added,
               fold_left (capture_event P) evs a = a ++ added).
  { induction evs as [|e evs IH]; intros a.
    - exists []. cbn. rewrite app_nil_r. reflexivity.
    - cbn [fold_left]. destruct (IH (capture_event P a e)) as [x Hx].
      rewrite Hx. unfold capture_event. destruct (frame P e) as [|d].
      + exists x. reflexivity.
      + exists (d ++ x). rewrite app_assoc. reflexivity. }
  unfold IndexTs.captured.
  revert st; induction chunks as [|v r IH]; intros st.
  - exists []. cbn. rewrite app_nil_r. reflexivity.
  - cbn [map fold_left]. destruct (IH (capture_chunk P st (decode_once v)))
      as [x Hx].
    rewrite Hx, capture_chunk_eq. cbn [assistant].
    destruct (E (removelast (split (buffer st ++ decode_once v) BLANK))
                (assistant st)) as [y Hy].
    rewrite Hy. exists (y ++ x). rewrite app_assoc. reflexivity.
Qed.

(* ------------------------------------------------------------------ *)
(** ** The credential *)




(* ------------------------------------------------------------------ *)
(** ** Replies that are not streamed *)

(** X4 — An upstream error while streaming. When an accepted streaming
    request gets an upstream reply that is not successful and has a body,
    the relay answers with the upstream status and the body as text; it
    enqueues nothing and stores no assistant message, and the user message
    it has stored stays. *)
Theorem upstream_error_passed_through (P : jsstring -> option json)
    (request : IndexTs.Request) (env : IndexTs.Env) (u : IndexTs.upstream)
    (w : world) (chunks : list (list byte)) :
  IndexTs.validated request w = true ->
  IndexTs.has_credential request env = true ->
  IndexTs.stream_of request = true ->
  IndexTs.up_ok u = false ->
  IndexTs.up_body u = Some (chunks, EndDone) ->
  exists key,
    IndexTs.serve P request env (Some u) w =
      (Returned (IndexTs.Respond (IndexTs.up_status u)
                   (IndexTs.Text (fst (decode new_TextDecoder (concat chunks)
                                         false))), []),
       {| DB := DB (IndexTs.user_stored request w);
          clock := clock (IndexTs.user_stored request w);
          log := log (IndexTs.fetched key request w) ++ [ReadText] |}).
Proof.
  intros V K S O B. destruct (has_credential_key request env K) as (c & k & AK).
  exists (c :: k). unfold IndexTs.serve.
  rewrite (bind_run _ _ _ _ (route_validated P request env (Some u) w V)), AK.
  unfold IndexTs.after_fetch. rewrite S, O, B. cbn [negb andb].
  unfold bind. rewrite text_run, B. reflexivity.
Qed.

Lemma upstream_error_passed_through_witness :
  exists key,
    IndexTs.serve JsonRef.JSON_parse Examples.hello Examples.a_key
      (Some {| IndexTs.up_status := 429; IndexTs.up_content_type := None;
               IndexTs.up_body := Some ([Examples.hi_chunk], EndDone) |})
      Examples.one_chat =
      (Returned (IndexTs.Respond 429
                   (IndexTs.Text (fst (decode new_TextDecoder
                                         (concat [Examples.hi_chunk]) false))),
                 []),
       {| DB := DB (IndexTs.user_stored Examples.hello Examples.one_chat);
          clock := clock (IndexTs.user_stored Examples.hello Examples.one_chat);
          log := log (IndexTs.fetched key Examples.hello Examples.one_chat) ++
                 [ReadText] |}).
Proof.
  exact (upstream_error_passed_through JsonRef.JSON_parse Examples.hello
           Examples.a_key
           {| IndexTs.up_status := 429; IndexTs.up_content_type := None;
              IndexTs.up_body := Some ([Examples.hi_chunk], EndDone) |}
           Examples.one_chat [Examples.hi_chunk]
           eq_refl eq_refl eq_refl eq_refl eq_refl).
Defined.




(* ------------------------------------------------------------------ *)
(** ** CORS and the dispatcher *)

Lemma includes_In (l : list jsstring) (x : jsstring) :
  Routes.includes l x = true <-> In x l.
Proof.
  unfold Routes.includes. rewrite existsb_exists. split.
  - intros (y & I & E). apply str_eqb_eq in E. subst. exact I.
  - intros I. exists x. split; [exact I | apply str_eqb_refl].
Qed.

(** X8 — The allowed origin. [cors] answers [*] when no list of origins
    is configured (absent, empty, or [*]). With a list, the origin it
    allows is [*] or an entry of the list; the origin of the request is
    allowed when it is an entry, and an origin that is not an entry is
    never given back. *)
Theorem cors_allow_origin (origin : jsstring) (allowed : option jsstring) :
  (allowed = None \/ allowed = Some [] \/ allowed = Some (lit "*") ->
   Routes.allow origin allowed = lit "*") /\
  (forall al, allowed = Some al ->
     Routes.allow origin allowed = lit "*" \/
     In (Routes.allow origin allowed) (Routes.origin_list al)) /\
  (forall al, allowed = Some al -> al <> lit "*" -> origin <> [] ->
     In origin (Routes.origin_list al) ->
     Routes.allow origin allowed = origin) /\
  (forall al, allowed = Some al -> origin <> lit "*" ->
     ~ In origin (Routes.origin_list al) ->
     Routes.allow origin allowed <> origin).
Proof.
  split; [|split; [|split]].
  - intros [-> | [-> | ->]]; reflexivity.
  - intros al ->. unfold Routes.allow. destruct al as [|c a]; [left; reflexivity|].
    destruct (str_eqb (c :: a) (lit "*")); [left; reflexivity|].
    destruct (Routes.includes (Routes.origin_list (c :: a)) origin) eqn:I.
    + right. apply includes_In. exact I.
    + destruct (Routes.origin_list (c :: a)) as [|[|x y] l];
        [left; reflexivity | left; reflexivity | right; left; reflexivity].
  - intros al -> NS NE I. unfold Routes.allow. destruct al as [|c a].
    + destruct I as [E | []]. exfalso. apply NE. symmetry. exact E.
    + apply str_eqb_neq in NS. rewrite NS.
      apply includes_In in I. rewrite I. reflexivity.
  - intros al -> NS NI. unfold Routes.allow. destruct al as [|c a].
    + intros E. apply NS. symmetry. exact E.
    + destruct (str_eqb (c :: a) (lit "*")).
      * intros E. apply NS. symmetry. exact E.
      * destruct (Routes.includes (Routes.origin_list (c :: a)) origin) eqn:I.
        -- apply includes_In in I. contradiction.
        -- destruct (Routes.origin_list (c :: a)) as [|[|x y] l].
           ++ intros E. apply NS. symmetry. exact E.
           ++ intros E. apply NS. symmetry. exact E.
           ++ intros E. apply NI. left. exact E.
Qed.

Lemma cors_allow_origin_witness :
  Routes.allow (lit "https://a.io") (Some (lit "https://b.io, https://a.io")) =
    lit "https://a.io".
Proof.
  refine (proj1 (proj2 (proj2 (cors_allow_origin (lit "https://a.io")
                   (Some (lit "https://b.io, https://a.io")))))
            (lit "https://b.io, https://a.io") eq_refl _ _ _).
  - discriminate.
  - discriminate.
  - right. left. reflexivity.
Defined.

Lemma chat_match_spec (pathname chatId : jsstring) :
  Routes.chat_match pathname = Some chatId <->
  pathname = lit "/api/chats/" ++ chatId /\ chatId <> [] /\
  forallb Routes.is_hex_dash chatId = true.
Proof.
  unfold Routes.chat_match. split.
  - destruct (startsWith pathname (lit "/api/chats/")) eqn:S; [|discriminate].
    apply startsWith_skipn in S.
    change (length (lit "/api/chats/")) with 11 in S.
    destruct (skipn 11 pathname) as [|c r]; [discriminate|].
    destruct (forallb Routes.is_hex_dash (c :: r)) eqn:F; [|discriminate].
    intros E. inversion E; subst chatId.
    split; [exact S | split; [discriminate | exact F]].
  - intros (-> & NE & F).
    assert (S : startsWith (lit "/api/chats/" ++ chatId) (lit "/api/chats/") = true)
      by (apply startsWith_spec; exists chatId; reflexivity).
    rewrite S.
    change (skipn 11 (lit "/api/chats/" ++ chatId)) with chatId.
    destruct chatId as [|c r]; [contradiction|]. rewrite F. reflexivity.
Qed.

(** X9 — The routes of one chat. The dispatcher hands a request to
    [routeGetChat], respectively [routeDeleteChat], with a chat id exactly
    when the method is GET, respectively DELETE, and the path is
    [/api/chats/] followed by that id, which is not empty and is made of
    hexadecimal digits and dashes only. *)
Theorem single_chat_routes (method pathname chatId : jsstring) :
  (Routes.fetch method pathname = Routes.ToGetChat chatId <->
   method = lit "GET" /\ pathname = lit "/api/chats/" ++ chatId /\
   chatId <> [] /\ forallb Routes.is_hex_dash chatId = true) /\
  (Routes.fetch method pathname = Routes.ToDeleteChat chatId <->
   method = lit "DELETE" /\ pathname = lit "/api/chats/" ++ chatId /\
   chatId <> [] /\ forallb Routes.is_hex_dash chatId = true).
Proof.
  rewrite <- !chat_match_spec. unfold Routes.fetch. split; split.
  - destruct (str_eqb method (lit "OPTIONS")); [discriminate|].
    destruct (_ || _); [discriminate|].
    destruct (str_eqb pathname (lit "/api/health")); [discriminate|].
    destruct (_ && _); [discriminate|].
    destruct (_ && _); [discriminate|].
    destruct (Routes.chat_match pathname) as [c|];
      destruct (str_eqb method (lit "GET")) eqn:G;
      destruct (str_eqb method (lit "DELETE"));
      try destruct (_ && _); try discriminate;
      intros E; inversion E; subst; apply str_eqb_eq in G; auto.
  - intros (-> & M). pose proof M as M'.
    apply chat_match_spec in M' as (-> & NE & _).
    destruct chatId as [|c r]; [contradiction|].
    rewrite M. reflexivity.
  - destruct (str_eqb method (lit "OPTIONS")); [discriminate|].
    destruct (_ || _); [discriminate|].
    destruct (str_eqb pathname (lit "/api/health")); [discriminate|].
    destruct (_ && _); [discriminate|].
    destruct (_ && _); [discriminate|].
    destruct (Routes.chat_match pathname) as [c|];
      destruct (str_eqb method (lit "GET"));
      destruct (str_eqb method (lit "DELETE")) eqn:G;
      try destruct (_ && _); try discriminate;
      intros E; inversion E; subst; apply str_eqb_eq in G; auto.
  - intros (-> & M). pose proof M as M'.
    apply chat_match_spec in M' as (-> & NE & _).
    destruct chatId as [|c r]; [contradiction|].
    rewrite M. reflexivity.
Qed.

Lemma single_chat_routes_witness :
  Routes.fetch (lit "DELETE") (lit "/api/chats/3f-A0") =
    Routes.ToDeleteChat (lit "3f-A0").
Proof.
  apply (proj2 (proj2 (single_chat_routes (lit "DELETE")
                         (lit "/api/chats/3f-A0") (lit "3f-A0")))).
  split; [reflexivity | split; [reflexivity | split; [discriminate | reflexivity]]].
Defined.

Ltac eqb_cases :=
  repeat match goal with
  | |- context [str_eqb ?a ?b] =>
      let E := fresh "E" in
      destruct (str_eqb a b) eqn:E;
      [apply str_eqb_eq in E | apply str_eqb_neq in E]
  | |- context [startsWith ?a ?b] =>
      let E := fresh "E" in destruct (startsWith a b) eqn:E
  | |- context [Routes.chat_match ?a] =>
      let E := fresh "E" in destruct (Routes.chat_match a) eqn:E
  end.

(** X10 — The other routes. A request is handed to [routeChat] exactly
    when it is a POST to [/api/chat], to [routeCreateChat] exactly when it
    is a POST to [/api/chats], to [routeListChats] exactly when it is a
    GET of [/api/chats], and to [handleOptions] exactly when its method is
    OPTIONS, whatever the path. Any other method on [/] or on a path
    outside [/api/] is served from the static assets, and [/api/health]
    answers every method but OPTIONS. *)
Theorem api_routes (method pathname : jsstring) :
  (Routes.fetch method pathname = Routes.ToChat <->
   method = lit "POST" /\ pathname = lit "/api/chat") /\
  (Routes.fetch method pathname = Routes.ToCreateChat <->
   method = lit "POST" /\ pathname = lit "/api/chats") /\
  (Routes.fetch method pathname = Routes.ToListChats <->
   method = lit "GET" /\ pathname = lit "/api/chats") /\
  (Routes.fetch method pathname = Routes.ToOptions <->
   method = lit "OPTIONS") /\
  (Routes.fetch method pathname = Routes.ToAssets <->
   method <> lit "OPTIONS" /\
   (pathname = lit "/" \/ startsWith pathname (lit "/api/") = false)) /\
  (Routes.fetch method pathname = Routes.ToHealth <->
   method <> lit "OPTIONS" /\ pathname = lit "/api/health").
Proof.
  unfold Routes.fetch. eqb_cases; cbn [orb andb negb].
  all: repeat split; intros; subst;
    repeat match goal with H : _ /\ _ |- _ => destruct H end;
    subst; try discriminate; try congruence; try tauto.
  all: try (left; reflexivity); try (right; reflexivity).
  all: try match goal with H : _ \/ _ |- _ => destruct H end;
    try congruence; try discriminate.
Qed.

Lemma api_routes_witness :
  Routes.fetch (lit "POST") (lit "/api/chat") = Routes.ToChat.
Proof.
  apply (proj2 (proj1 (api_routes (lit "POST") (lit "/api/chat")))).
  split; reflexivity.
Defined.

(* ------------------------------------------------------------------ *)
(** ** The tables: reading a chat *)

Lemma insert_by_time_perm (m : message_row) (l : list message_row) :
  Permutation (insert_by_time m l) (m :: l).
Proof.
  induction l as [|x l IH]; [reflexivity|]. cbn [insert_by_time].
  destruct (m_created_at m <=? m_created_at x)%N; [reflexivity|].
  rewrite IH. apply perm_swap.
Qed.

Lemma order_by_created_at_perm (l : list message_row) :
  Permutation (order_by_created_at l) l.
Proof.
  unfold order_by_created_at. induction l as [|x l IH]; [reflexivity|].
  cbn [fold_right]. rewrite insert_by_time_perm. constructor. exact IH.
Qed.

Lemma insert_by_time_sorted (m : message_row) (l : list message_row) :
  StronglySorted Tables.by_time l ->
  StronglySorted Tables.by_time (insert_by_time m l).
Proof.
  induction 1 as [|x l S IH F]; [repeat constructor|]. cbn [insert_by_time].
  destruct (N.leb_spec (m_created_at m) (m_created_at x)) as [L|G].
  - constructor; [constructor; assumption|].
    constructor; [exact L|].
    eapply Forall_impl; [|exact F]. unfold Tables.by_time. intros y Y. lia.
  - constructor; [exact IH|].
    eapply Permutation_Forall; [symmetry; apply insert_by_time_perm|].
    constructor; [unfold Tables.by_time; lia | exact F].
Qed.

Lemma order_by_created_at_sorted (l : list message_row) :
  StronglySorted Tables.by_time (order_by_created_at l).
Proof.
  unfold order_by_created_at. induction l as [|x l IH]; [constructor|].
  cbn [fold_right]. apply insert_by_time_sorted. exact IH.
Qed.

Lemma In_firstn {A} (n : nat) (l : list A) (x : A) :
  In x (firstn n l) -> In x l.
Proof.
  intros I. rewrite <- (firstn_skipn n l). apply in_or_app. left. exact I.
Qed.

Lemma In_skipn {A} (n : nat) (l : list A) (x : A) :
  In x (skipn n l) -> In x l.
Proof.
  intros I. rewrite <- (firstn_skipn n l). apply in_or_app. right. exact I.
Qed.

Lemma routeGetChat_run (chatId : jsstring) (w : world) :
  Routes.routeGetChat chatId w =
    (Returned (if Tables.known chatId (DB w)
               then Routes.Found chatId (select_messages (DB w) chatId 1000)
               else Routes.Failed 404 (lit "Chat not found")), w).
Proof.
  cbv [Routes.routeGetChat bind chatExists getMessages read_db ret
       Tables.known].
  destruct (existsb _ _); reflexivity.
Qed.

(** X11 — Reading a chat. [routeGetChat] changes nothing. It answers 404
    when the chat has no row. Otherwise it answers with messages of that
    chat only, ordered by time of writing: the earliest 1000 of them, and
    all of them when the chat has no more than 1000. *)
Theorem get_chat_own_messages (chatId : jsstring) (w : world) :
  exists r, Routes.routeGetChat chatId w = (Returned r, w) /\
    ((Tables.known chatId (DB w) = false /\
      r = Routes.Failed 404 (lit "Chat not found")) \/
     (Tables.known chatId (DB w) = true /\
      exists msgs later,
        r = Routes.Found chatId msgs /\
        Permutation (msgs ++ later) (Tables.own chatId (DB w)) /\
        StronglySorted Tables.by_time (msgs ++ later) /\
        Forall (fun m => chat_id m = chatId) msgs /\
        length msgs = Nat.min 1000 (length (Tables.own chatId (DB w))))).
Proof.
  rewrite routeGetChat_run. eexists. split; [reflexivity|].
  destruct (Tables.known chatId (DB w)); [right | left; split; reflexivity].
  split; [reflexivity|].
  exists (select_messages (DB w) chatId 1000),
         (skipn 1000 (order_by_created_at (Tables.own chatId (DB w)))).
  unfold select_messages. fold (Tables.own chatId (DB w)).
  rewrite firstn_skipn.
  split; [reflexivity|]. split; [apply order_by_created_at_perm|].
  split; [apply order_by_created_at_sorted|]. split.
  - apply Forall_forall. intros m I. apply In_firstn in I.
    apply (Permutation_in _ (order_by_created_at_perm _)) in I.
    apply filter_In in I as [_ E]. apply str_eqb_eq. exact E.
  - rewrite length_firstn, order_by_created_at_length. reflexivity.
Qed.

(* ------------------------------------------------------------------ *)
(** ** The tables: deleting and creating a chat *)

Section Keys.

Context {A : Type}.
Variable key : A -> jsstring.

Lemma filter_out_same (x : jsstring) (l : list A) :
  filter (fun a => str_eqb (key a) x)
    (filter (fun a => negb (str_eqb (key a) x)) l) = [].
Proof.
  induction l as [|a l IH]; [reflexivity|]. cbn [filter].
  destruct (str_eqb (key a) x) eqn:E; cbn [negb filter]; [exact IH|].
  rewrite E. exact IH.
Qed.

Lemma filter_out_other (x y : jsstring) (l : list A) :
  y <> x ->
  filter (fun a => str_eqb (key a) y)
    (filter (fun a => negb (str_eqb (key a) x)) l) =
  filter (fun a => str_eqb (key a) y) l.
Proof.
  intros N. induction l as [|a l IH]; [reflexivity|]. cbn [filter].
  destruct (str_eqb (key a) x) eqn:E; cbn [negb filter].
  - apply str_eqb_eq in E.
    assert (F : str_eqb (key a) y = false)
      by (apply str_eqb_neq; congruence).
    rewrite F. exact IH.
  - rewrite IH. reflexivity.
Qed.

Lemma existsb_filter_nil (p : A -> bool) (l : list A) :
  existsb p l = match filter p l with [] => false | _ :: _ => true end.
Proof.
  induction l as [|a l IH]; [reflexivity|]. cbn [existsb filter].
  destruct (p a); [reflexivity | exact IH].
Qed.

End Keys.

Lemma routeDeleteChat_run (chatId : jsstring) (w : world) :
  Routes.routeDeleteChat chatId w =
    if Tables.known chatId (DB w) then
      (Returned Routes.Deleted,
       {| DB := {| chats := filter (fun c => negb (str_eqb (id c) chatId))
                              (chats (DB w));
                   messages := filter (fun m => negb (str_eqb (chat_id m) chatId))
                                 (messages (DB w)) |};
          clock := clock w; log := log w |})
    else (Returned (Routes.Failed 404 (lit "Chat not found")), w).
Proof.
  cbv [Routes.routeDeleteChat Routes.deleteChat bind chatExists read_db
       write_db ret Tables.known].
  destruct (existsb _ _); reflexivity.
Qed.

Lemma unknown_not_validated (request : IndexTs.Request) (w : world) :
  Tables.known (IndexTs.chat_of request) (DB w) = false ->
  IndexTs.validated request w = false.
Proof.
  unfold Tables.known, IndexTs.validated. intros ->.
  destruct (IndexTs.json_body request), (IndexTs.chat_of request),
    (IndexTs.content_of request); reflexivity.
Qed.

(** X12 — Deleting a chat. [routeDeleteChat] answers 404 and changes
    nothing when the chat has no row. Otherwise it removes the row of the
    chat and every message of the chat, and nothing else: the rows and
    the messages of the other chats are as before. Afterwards a read of
    the chat is answered 404, and a send to it is rejected without
    anything being written. *)
Theorem delete_chat_removes (chatId : jsstring) (w : world) :
  let r := Routes.routeDeleteChat chatId w in
  (Tables.known chatId (DB w) = false ->
   r = (Returned (Routes.Failed 404 (lit "Chat not found")), w)) /\
  (Tables.known chatId (DB w) = true ->
   fst r = Returned Routes.Deleted /\
   log (snd r) = log w /\
   (forall c, In c (chats (DB (snd r))) <->
              In c (chats (DB w)) /\ id c <> chatId) /\
   (forall m, In m (messages (DB (snd r))) <->
              In m (messages (DB w)) /\ chat_id m <> chatId) /\
   (forall other, other <> chatId ->
      Tables.known other (DB (snd r)) = Tables.known other (DB w) /\
      Tables.own other (DB (snd r)) = Tables.own other (DB w)) /\
   Routes.routeGetChat chatId (snd r) =
     (Returned (Routes.Failed 404 (lit "Chat not found")), snd r) /\
   (forall P request env dsRes,
      IndexTs.chat_of request = chatId ->
      exists status message,
        IndexTs.routeChat P request env dsRes (snd r) =
          (Returned (IndexTs.Respond status (IndexTs.ErrorMessage message)),
           snd r) /\
        (status = 400%N \/ status = 404%N))).
Proof.
  cbv zeta. rewrite routeDeleteChat_run. split; intros K; rewrite K.
  { reflexivity. }
  cbn [fst snd DB log chats messages].
  assert (G : Tables.known chatId
                {| chats := filter (fun c => negb (str_eqb (id c) chatId))
                              (chats (DB w));
                   messages := filter (fun m => negb (str_eqb (chat_id m) chatId))
                                 (messages (DB w)) |} = false).
  { unfold Tables.known. cbn [chats].
    rewrite existsb_filter_nil, (filter_out_same id). reflexivity. }
  split; [reflexivity|]. split; [reflexivity|]. split; [|split; [|split; [|split]]].
  - intros c. rewrite filter_In, negb_true_iff, str_eqb_neq. reflexivity.
  - intros m. rewrite filter_In, negb_true_iff, str_eqb_neq. reflexivity.
  - intros other N. unfold Tables.known, Tables.own. cbn [chats messages].
    rewrite !existsb_filter_nil, (filter_out_other id), (filter_out_other chat_id)
      by exact N.
    split; reflexivity.
  - rewrite routeGetChat_run. cbn [DB]. rewrite G. reflexivity.
  - intros P request env dsRes E. apply route_rejected.
    apply unknown_not_validated. rewrite E. exact G.
Qed.

Lemma delete_chat_removes_witness :
  fst (Routes.routeDeleteChat (lit "c1") Scenes.two_chats) =
    Returned Routes.Deleted /\
  Tables.own (lit "c2") (DB (snd (Routes.routeDeleteChat (lit "c1")
                                    Scenes.two_chats))) =
    Tables.own (lit "c2") (DB Scenes.two_chats).
Proof.
  pose proof (proj2 (delete_chat_removes (lit "c1") Scenes.two_chats) eq_refl)
    as (F & _ & _ & _ & O & _).
  split; [exact F|].
  exact (proj2 (O (lit "c2") ltac:(discriminate))).
Defined.

Lemma routeCreateChat_run (uuid : jsstring) (title : option jsstring)
    (w : world) :
  Routes.routeCreateChat true uuid title w =
    (Returned (Routes.Created uuid),
     {| DB := {| chats := chats (DB w) ++
                   [{| id := uuid; title := title;
                       created_at := hd 0%N (clock w) |}];
                 messages := messages (DB w) |};
        clock := tl (clock w); log := log w |}).
Proof.
  cbv [Routes.routeCreateChat Routes.createChat bind Date_now read_db
       write_db ret negb].
  destruct w as [d [|t ts] l]; reflexivity.
Qed.

(** X13 — Creating a chat. Without the database binding
    [routeCreateChat] answers 500 and changes nothing; it does not throw.
    With it, and an id that no chat has yet, the answer is the new id;
    the chat then has a row with the title given and the time of the
    call, the other chats and all the messages are as before, a read of
    the new chat finds it, and a send to it with content is accepted. *)
Theorem created_chat_is_ready (bound : bool) (uuid : jsstring)
    (title : option jsstring) (w : world) :
  let r := Routes.routeCreateChat bound uuid title w in
  (bound = false ->
   r = (Returned (Routes.Failed 500 (lit "D1 binding 'DB' missing")), w)) /\
  (bound = true -> Tables.known uuid (DB w) = false ->
   fst r = Returned (Routes.Created uuid) /\
   log (snd r) = log w /\
   chats (DB (snd r)) =
     chats (DB w) ++ [{| id := uuid; title := title;
                         created_at := hd 0%N (clock w) |}] /\
   messages (DB (snd r)) = messages (DB w) /\
   Routes.routeGetChat uuid (snd r) =
     (Returned (Routes.Found uuid (select_messages (DB w) uuid 1000)), snd r) /\
   (forall request,
      IndexTs.chat_of request = uuid -> uuid <> [] ->
      IndexTs.content_of request <> [] ->
      IndexTs.validated request (snd r) = true)).
Proof.
  cbv zeta. split; intros ->; [reflexivity|]. intros _.
  rewrite routeCreateChat_run. cbn [fst snd DB log chats messages].
  assert (K : Tables.known uuid
                {| chats := chats (DB w) ++
                     [{| id := uuid; title := title;
                         created_at := hd 0%N (clock w) |}];
                   messages := messages (DB w) |} = true).
  { unfold Tables.known. cbn [chats]. rewrite existsb_app. cbn [existsb id].
    rewrite str_eqb_refl, orb_true_r. reflexivity. }
  repeat split.
  - rewrite routeGetChat_run. cbn [DB]. rewrite K. reflexivity.
  - intros request E NU NC. unfold IndexTs.validated.
    destruct (IndexTs.json_body request) as [b|] eqn:J.
    + rewrite E. destruct uuid as [|u0 us]; [contradiction|].
      destruct (IndexTs.content_of request) as [|c0 cs]; [contradiction|].
      exact K.
    + unfold IndexTs.chat_of in E. rewrite J in E. symmetry in E. contradiction.
Qed.

Lemma created_chat_is_ready_witness :
  IndexTs.validated Examples.hello
    (snd (Routes.routeCreateChat true (lit "c1") None Examples.empty_world)) =
    true.
Proof.
  pose proof (proj2 (created_chat_is_ready true (lit "c1") None
                       Examples.empty_world) eq_refl eq_refl)
    as (_ & _ & _ & _ & _ & V).
  apply (V Examples.hello eq_refl); discriminate.
Defined.

(* ------------------------------------------------------------------ *)
(** ** The tables: listing the chats *)

Lemma insert_by_activity_perm (x : Routes.chat_summary)
    (l : list Routes.chat_summary) :
  Permutation (Routes.insert_by_activity x l) (x :: l).
Proof.
  induction l as [|y l IH]; [reflexivity|]. cbn [Routes.insert_by_activity].
  destruct (Routes.last_activity y <=? Routes.last_activity x)%N; [reflexivity|].
  rewrite IH. apply perm_swap.
Qed.

Lemma order_by_last_activity_perm (l : list Routes.chat_summary) :
  Permutation (Routes.order_by_last_activity l) l.
Proof.
  unfold Routes.order_by_last_activity.
  induction l as [|x l IH]; [reflexivity|].
  cbn [fold_right]. rewrite insert_by_activity_perm. constructor. exact IH.
Qed.

Lemma insert_by_activity_sorted (x : Routes.chat_summary)
    (l : list Routes.chat_summary) :
  StronglySorted Tables.by_activity l ->
  StronglySorted Tables.by_activity (Routes.insert_by_activity x l).
Proof.
  induction 1 as [|y l S IH F]; [repeat constructor|].
  cbn [Routes.insert_by_activity].
  destruct (N.leb_spec (Routes.last_activity y) (Routes.last_activity x))
    as [L|G].
  - constructor; [constructor; assumption|].
    constructor; [exact L|].
    eapply Forall_impl; [|exact F]. unfold Tables.by_activity. intros z Z. lia.
  - constructor; [exact IH|].
    eapply Permutation_Forall; [symmetry; apply insert_by_activity_perm|].
    constructor; [unfold Tables.by_activity; lia | exact F].
Qed.

Lemma order_by_last_activity_sorted (l : list Routes.chat_summary) :
  StronglySorted Tables.by_activity (Routes.order_by_last_activity l).
Proof.
  unfold Routes.order_by_last_activity.
  induction l as [|x l IH]; [constructor|].
  cbn [fold_right]. apply insert_by_activity_sorted. exact IH.
Qed.

Lemma StronglySorted_app_r {A} (R : A -> A -> Prop) (a b : list A) :
  StronglySorted R (a ++ b) -> StronglySorted R b.
Proof.
  induction a as [|x a IH]; [trivial|]. cbn [app]. intros S.
  apply StronglySorted_inv in S as [S _]. exact (IH S).
Qed.

Lemma StronglySorted_app_l {A} (R : A -> A -> Prop) (a b : list A) :
  StronglySorted R (a ++ b) -> StronglySorted R a.
Proof.
  induction a as [|x a IH]; [constructor|]. cbn [app]. intros S.
  apply StronglySorted_inv in S as [S F]. constructor; [exact (IH S)|].
  apply Forall_app in F as [F _]. exact F.
Qed.

Lemma routeListChats_run (limit offset : option Z) (w : world) :
  Routes.routeListChats limit offset w =
    (Returned (Routes.Listed
                 (Routes.select_chats (DB w) (Routes.limit_of limit)
                    (Routes.offset_of offset))), w).
Proof. reflexivity. Qed.

(** X14 — A page of the chat list. [routeListChats] changes nothing. Its
    rows are a stretch of the summaries of all the chats ordered by last
    activity, the most recent first: the stretch starts after [offset]
    rows (none when [offset] is absent or negative) and holds [limit]
    rows, as far as there are that many. [limit] is 100 when absent and
    never more than 200, so a page has at most 200 rows; a negative
    [limit] gives every row after the offset. *)
Theorem list_chats_page (limit offset : option Z) (w : world) :
  let all := map (Routes.summary (DB w)) (chats (DB w)) in
  let skipped := Routes.offset_of offset in
  exists rows before after,
    Routes.routeListChats limit offset w = (Returned (Routes.Listed rows), w) /\
    Permutation (before ++ rows ++ after) all /\
    StronglySorted Tables.by_activity (before ++ rows ++ after) /\
    length before = Nat.min skipped (length all) /\
    (match offset with
     | Some o => (o <= 0)%Z
     | None => True
     end -> before = []) /\
    ((0 <= Routes.limit_of limit)%Z ->
     length rows =
       Nat.min (Z.to_nat (Routes.limit_of limit)) (length all - skipped) /\
     length rows <= 200) /\
    (limit = None -> length rows <= 100) /\
    ((Routes.limit_of limit < 0)%Z -> after = []).
Proof.
  cbv zeta. rewrite routeListChats_run.
  set (sorted := Routes.order_by_last_activity
                   (map (Routes.summary (DB w)) (chats (DB w)))).
  assert (L : length sorted = length (map (Routes.summary (DB w)) (chats (DB w))))
    by (apply Permutation_length, order_by_last_activity_perm).
  exists (Routes.select_chats (DB w) (Routes.limit_of limit)
            (Routes.offset_of offset)),
         (firstn (Routes.offset_of offset) sorted),
         (if (Routes.limit_of limit <? 0)%Z then []
          else skipn (Z.to_nat (Routes.limit_of limit))
                 (skipn (Routes.offset_of offset) sorted)).
  assert (E : firstn (Routes.offset_of offset) sorted ++
              Routes.select_chats (DB w) (Routes.limit_of limit)
                (Routes.offset_of offset) ++
              (if (Routes.limit_of limit <? 0)%Z then []
               else skipn (Z.to_nat (Routes.limit_of limit))
                      (skipn (Routes.offset_of offset) sorted)) = sorted).
  { unfold Routes.select_chats, Routes.LIMIT_OFFSET. fold sorted.
    destruct (Routes.limit_of limit <? 0)%Z.
    - rewrite app_nil_r. apply firstn_skipn.
    - rewrite firstn_skipn. apply firstn_skipn. }
  split; [reflexivity|]. rewrite E.
  split; [apply order_by_last_activity_perm|].
  split; [apply order_by_last_activity_sorted|].
  split; [rewrite length_firstn, L; reflexivity|].
  split.
  { intros O. replace (Routes.offset_of offset) with 0; [reflexivity|].
    unfold Routes.offset_of. destruct offset as [o|]; [|reflexivity].
    rewrite Z.max_r by exact O. reflexivity. }
  unfold Routes.select_chats, Routes.LIMIT_OFFSET. fold sorted.
  split; [|split].
  - intros NN. destruct (Z.ltb_spec (Routes.limit_of limit) 0) as [G|_]; [lia|].
    rewrite length_firstn, length_skipn, L. split; [reflexivity|].
    assert (Routes.limit_of limit <= 200)%Z
      by (unfold Routes.limit_of; apply Z.le_min_r).
    lia.
  - intros ->. cbn [Routes.limit_of]. cbn.
    rewrite length_firstn. lia.
  - intros G. destruct (Z.ltb_spec (Routes.limit_of limit) 0) as [_|G']; [|lia].
    reflexivity.
Qed.

Lemma list_chats_page_witness :
  exists rows,
    Routes.routeListChats (Some 1%Z) None Scenes.two_chats =
      (Returned (Routes.Listed rows), Scenes.two_chats) /\
    length rows = 1.
Proof.
  destruct (list_chats_page (Some 1%Z) None Scenes.two_chats)
    as (rows & before & after & R & _ & _ & _ & _ & N & _).
  exists rows. split; [exact R|].
  exact (proj1 (N ltac:(discriminate))).
Defined.

Lemma MAX_created_at_spec (ms : list message_row) :
  match Routes.MAX_created_at ms with
  | None => ms = []
  | Some t =>
      (exists m, In m ms /\ m_created_at m = t) /\
      Forall (fun m => (m_created_at m <= t)%N) ms
  end.
Proof.
  induction ms as [|m r IH]; [reflexivity|]. cbn [Routes.MAX_created_at].
  destruct (Routes.MAX_created_at r) as [t|].
  - destruct IH as [(x & I & E) F]. split.
    + destruct (N.max_spec (m_created_at m) t) as [[_ ->] | [_ ->]].
      * exists x. split; [right; exact I | exact E].
      * exists m. split; [left; reflexivity | reflexivity].
    + constructor; [lia|].
      eapply Forall_impl; [|exact F]. cbv beta. intros y Y. lia.
  - subst r. split.
    + exists m. split; [left; reflexivity | reflexivity].
    + constructor; [lia | constructor].
Qed.

(** X15 — A row of the chat list. Every row [listChats] gives is the
    summary of a chat of the table: its id and time of creation, the
    number of messages stored for it, and as last activity the time of
    its latest message, or its time of creation when it has none. The
    title of a row is never empty: it is the title of the chat, and
    [Untitled] when the chat has none or an empty one. *)
Theorem list_chats_rows (limit : Z) (offset : nat) (d : D1Database)
    (r : Routes.chat_summary) :
  In r (Routes.select_chats d limit offset) ->
  exists c, In c (chats d) /\
    Routes.s_id r = id c /\
    Routes.s_created_at r = created_at c /\
    Routes.message_count r = length (Tables.own (id c) d) /\
    match Tables.own (id c) d with
    | [] => Routes.last_activity r = created_at c
    | _ :: _ =>
        (exists m, In m (Tables.own (id c) d) /\
                   m_created_at m = Routes.last_activity r) /\
        Forall (fun m => (m_created_at m <= Routes.last_activity r)%N)
          (Tables.own (id c) d)
    end /\
    Routes.s_title r <> [] /\
    match title c with
    | Some (x :: y) => Routes.s_title r = x :: y
    | _ => Routes.s_title r = lit "Untitled"
    end.
Proof.
  intros I.
  assert (J : In r (map (Routes.summary d) (chats d))).
  { apply (Permutation_in _ (order_by_last_activity_perm _)).
    unfold Routes.select_chats, Routes.LIMIT_OFFSET in I.
    destruct (limit <? 0)%Z; [|apply In_firstn in I]; apply In_skipn in I;
      exact I. }
  apply in_map_iff in J as (c & <- & C). exists c.
  split; [exact C|]. split; [reflexivity|]. split; [reflexivity|].
  split; [reflexivity|]. split; [|split].
  - unfold Routes.summary. cbn [Routes.last_activity].
    fold (Tables.own (id c) d).
    pose proof (MAX_created_at_spec (Tables.own (id c) d)) as M.
    destruct (Routes.MAX_created_at (Tables.own (id c) d)) as [t|].
    + destruct (Tables.own (id c) d) as [|m ms]; [|exact M].
      destruct M as [(x & [] & _) _].
    + rewrite M. reflexivity.
  - unfold Routes.summary. cbn [Routes.s_title].
    destruct (title c) as [[|x y]|]; discriminate.
  - unfold Routes.summary. cbn [Routes.s_title].
    destruct (title c) as [[|x y]|]; reflexivity.
Qed.

Lemma list_chats_rows_witness :
  exists c, In c (chats (DB Scenes.two_chats)) /\
    Routes.message_count
      (hd (Routes.summary (DB Scenes.two_chats)
             {| id := []; title := None; created_at := 0 |})
          (Routes.select_chats (DB Scenes.two_chats) 1 0)) =
      length (Tables.own (id c) (DB Scenes.two_chats)).
Proof.
  destruct (list_chats_rows 1 0 (DB Scenes.two_chats)
              (hd (Routes.summary (DB Scenes.two_chats)
                     {| id := []; title := None; created_at := 0 |})
                  (Routes.select_chats (DB Scenes.two_chats) 1 0))
              (or_introl eq_refl))
    as (c & C & _ & _ & N & _).
  exists c. split; [exact C | exact N].
Defined.

(* ------------------------------------------------------------------ *)
(** ** A send, then a read *)

Lemma select_messages_snoc (cs : list chat_row) (d : D1Database)
    (m : message_row) (n : nat) :
  Forall (fun x => (m_created_at x <= m_created_at m)%N)
    (Tables.own (chat_id m) d) ->
  length (Tables.own (chat_id m) d) < n ->
  select_messages {| chats := cs; messages := messages d ++ [m] |}
    (chat_id m) n =
  select_messages d (chat_id m) n ++ [m].
Proof.
  unfold Tables.own. intros F L. unfold select_messages. cbn [messages].
  rewrite filter_app. cbn [filter]. rewrite str_eqb_refl.
  rewrite (order_by_created_at_snoc _ _ F).
  rewrite !firstn_all2; [reflexivity | |].
  - rewrite order_by_created_at_length. lia.
  - rewrite length_app, order_by_created_at_length. cbn [length]. lia.
Qed.

Lemma select_messages_all (d : D1Database) (chatId : jsstring) (n : nat) :
  length (Tables.own chatId d) <= n ->
  select_messages d chatId n = order_by_created_at (Tables.own chatId d).
Proof.
  intros L. unfold select_messages. fold (Tables.own chatId d).
  apply firstn_all2. rewrite order_by_created_at_length. exact L.
Qed.

Lemma known_update_title (chatId x t : jsstring) (cs : list chat_row) :
  existsb (fun c => str_eqb (id c) x) (map (update_title chatId t) cs) =
  existsb (fun c => str_eqb (id c) x) cs.
Proof.
  induction cs as [|c cs IH]; [reflexivity|]. cbn [map existsb].
  rewrite IH. unfold update_title at 1.
  destruct (str_eqb (id c) chatId && title_empty c); reflexivity.
Qed.

(** X16 — A send, then a read. After a streamed send on a chat whose
    stored messages are not later than the clock, with room left under
    the 1000 rows a read returns, a read of the chat shows what it
    showed before, then the user message, then the reply as the relay
    captured it. The reply is missing when the captured text is empty or
    white space, and when a read of the upstream body failed: what had
    been streamed to the page until then is not stored. *)
Theorem send_then_get (P : jsstring -> option json)
    (request : IndexTs.Request) (env : IndexTs.Env) (u : IndexTs.upstream)
    (w : world) (chunks : list (list byte)) (e : ending) :
  IndexTs.validated request w = true ->
  IndexTs.has_credential request env = true ->
  IndexTs.stream_of request = true ->
  IndexTs.up_ok u = true ->
  IndexTs.up_body u = Some (chunks, e) ->
  let chat := IndexTs.chat_of request in
  let text := assistant (IndexTs.captured P capture_init chunks) in
  let t1 := hd 0%N (clock w) in
  let t2 := hd 0%N (tl (clock w)) in
  Forall (fun m => (m_created_at m <= t1)%N) (Tables.own chat (DB w)) ->
  (t1 <= t2)%N ->
  length (Tables.own chat (DB w)) + 2 <= 1000 ->
  let w' := snd (IndexTs.serve P request env (Some u) w) in
  Routes.routeGetChat chat w' =
    (Returned
       (Routes.Found chat
          (select_messages (DB w) chat 1000 ++
           {| chat_id := chat; m_role := RUser;
              content := JStr (IndexTs.content_of request);
              m_created_at := t1 |} ::
           match e, trim text with
           | EndDone, _ :: _ =>
               [{| chat_id := chat; m_role := RAssistant;
                   content := JStr text; m_created_at := t2 |}]
           | _, _ => []
           end)), w').
Proof.
  intros V K S O B chat text t1 t2 F T L w'.
  destruct (has_credential_key request env K) as (c & k & AK).
  set (user_row := {| chat_id := chat; m_role := RUser;
                      content := JStr (IndexTs.content_of request);
                      m_created_at := t1 |}).
  assert (U : forall cs,
             select_messages
               {| chats := cs; messages := messages (DB w) ++ [user_row] |}
               chat 1000 =
             select_messages (DB w) chat 1000 ++ [user_row]).
  { intros cs. apply (select_messages_snoc cs (DB w) user_row 1000).
    - exact F.
    - cbn [chat_id user_row]. lia. }
  subst w'.
  rewrite (serve_streamed P request env u w c k chunks e V AK S O B).
  fold chat.
  set (cs := map (update_title chat
                    (slice0 48 (trim (IndexTs.content_of request))))
               (chats (DB w))).
  assert (Kn : forall ms,
             Tables.known chat {| chats := cs; messages := ms |} = true).
  { intros ms. unfold Tables.known, cs. cbn [chats].
    rewrite known_update_title. unfold IndexTs.validated in V.
    fold chat in V.
    destruct (IndexTs.json_body request); [|discriminate].
    destruct chat; [discriminate|].
    destruct (IndexTs.content_of request); [discriminate | exact V]. }
  assert (G : forall w1 ms, DB w1 = {| chats := cs; messages := ms |} ->
             Routes.routeGetChat chat w1 =
               (Returned (Routes.Found chat
                            (select_messages {| chats := cs; messages := ms |}
                               chat 1000)), w1)).
  { intros w1 ms D. rewrite routeGetChat_run, D, Kn. reflexivity. }
  destruct e.
  - fold text. destruct (trim text) as [|x y] eqn:TT.
    + rewrite drain_done_empty by exact TT. cbn [snd].
      match goal with
      | |- Routes.routeGetChat _ ?w1 = _ =>
          rewrite (G w1 (messages (DB w) ++ [user_row]) eq_refl), U
      end.
      reflexivity.
    + rewrite drain_done_text by (fold text; rewrite TT; discriminate).
      cbn [snd]. fold text.
      set (reply := {| chat_id := chat; m_role := RAssistant;
                       content := JStr text; m_created_at := t2 |}).
      match goal with
      | |- Routes.routeGetChat _ ?w1 = _ =>
          rewrite (G w1 ((messages (DB w) ++ [user_row]) ++ [reply]) eq_refl)
      end.
      pose proof (select_messages_snoc cs
                    {| chats := cs; messages := messages (DB w) ++ [user_row] |}
                    reply 1000) as Q.
      change (chat_id reply) with chat in Q. cbn [messages] in Q.
      rewrite Q.
      * rewrite U, <- app_assoc. reflexivity.
      * unfold Tables.own. cbn [messages]. rewrite filter_app.
        cbn [filter]. change (chat_id user_row) with chat.
        rewrite str_eqb_refl. apply Forall_app. split.
        -- eapply Forall_impl; [|exact F].
           change (m_created_at reply) with t2. cbv beta. intros a A. lia.
        -- constructor; [exact T | constructor].
      * unfold Tables.own. cbn [messages].
        rewrite filter_app, length_app.
        cbn [filter]. change (chat_id user_row) with chat.
        rewrite str_eqb_refl.
        unfold Tables.own in L. cbn [length]. lia.
  - rewrite drain_failed. cbn [snd].
    match goal with
    | |- Routes.routeGetChat _ ?w1 = _ =>
        rewrite (G w1 (messages (DB w) ++ [user_row]) eq_refl), U
    end.
    reflexivity.
Qed.

Lemma send_then_get_witness :
  Routes.routeGetChat (lit "c1")
    (snd (IndexTs.serve JsonRef.JSON_parse Examples.hello Examples.a_key
            (Some (Examples.streaming_reply [Examples.hi_chunk] EndDone))
            Examples.one_chat)) =
    (Returned
       (Routes.Found (lit "c1")
          [{| chat_id := lit "c1"; m_role := RUser;
              content := JStr (lit "hello"); m_created_at := 5 |};
           {| chat_id := lit "c1"; m_role := RAssistant;
              content := JStr (lit "Hi"); m_created_at := 9 |}]),
     snd (IndexTs.serve JsonRef.JSON_parse Examples.hello Examples.a_key
            (Some (Examples.streaming_reply [Examples.hi_chunk] EndDone))
            Examples.one_chat)).
Proof.
  refine (send_then_get JsonRef.JSON_parse Examples.hello Examples.a_key
            (Examples.streaming_reply [Examples.hi_chunk] EndDone)
            Examples.one_chat [Examples.hi_chunk] EndDone
            eq_refl eq_refl eq_refl eq_refl eq_refl _ _ _).
  - constructor.
  - vm_compute. discriminate.
  - vm_compute. repeat constructor.
Defined.

(* ------------------------------------------------------------------ *)
(** ** The earlier relay: what it sends upstream *)

Section EarlierRoute.

Variable P : jsstring -> option json.

(** The part after [await fetch] only adds to the log and leaves the
    chats as they are. *)
Lemma after_fetch_extends (chatId : jsstring) (stream : bool)
    (u : IndexTs.upstream) (w : world) :
  exists tail,
    log (snd (IndexTs.after_fetch P chatId stream u w)) = log w ++ tail /\
    chats (DB (snd (IndexTs.after_fetch P chatId stream u w))) = chats (DB w).
Proof.
  destruct stream.
  - unfold IndexTs.after_fetch. cbn [negb].
    destruct (negb (IndexTs.up_ok u) &&
              match IndexTs.up_body u with Some _ => true | None => false end).
    + unfold bind. rewrite text_run.
      destruct (IndexTs.up_body u) as [[chunks [|]]|];
        (exists [ReadText]; split; reflexivity).
    + destruct (IndexTs.up_body u) as [[chunks e]|];
        (exists []; rewrite app_nil_r; split; reflexivity).
  - rewrite after_fetch_buffered, text_run.
    destruct (IndexTs.up_body u) as [[chunks [|]]|];
      try (exists [ReadText]; split; reflexivity);
      match goal with
      | |- context [try_catch (match P ?t with _ => _ end) ?w0] =>
          destruct (try_reply P chatId t w0)
            as (w1 & E & C & [[L _] | (msg & v & L & _)])
      end; rewrite E; cbn [snd]; rewrite L, C; cbn [emit snd log DB chats].
    + exists [ReadText]. split; reflexivity.
    + exists [ReadText; InsertMessage chatId RAssistant msg].
      rewrite <- app_assoc. split; reflexivity.
    + exists [ReadText]. split; reflexivity.
    + exists [ReadText; InsertMessage chatId RAssistant msg].
      rewrite <- app_assoc. split; reflexivity.
Qed.

(** A validated request to the earlier relay: the user message is stored,
    then the credential is looked for, then the upstream call is issued
    with the history read back and the user message appended. *)
Lemma earlier_route_validated (request : IndexTs.Request) (env : IndexTs.Env)
    (dsRes : option IndexTs.upstream) (w : world) :
  IndexTs.validated request w = true ->
  Part000Chat.routeChat P request env dsRes w =
    let chat := IndexTs.chat_of request in
    let said := IndexTs.content_of request in
    let w1 :=
      {| DB := {| chats := chats (DB w);
                  messages := messages (DB w) ++
                    [{| chat_id := chat; m_role := RUser; content := JStr said;
                        m_created_at := hd 0%N (clock w) |}] |};
         clock := tl (clock w);
         log := log w ++ [InsertMessage chat RUser (JStr said)] |} in
    match IndexTs.api_key request env with
    | Some (c :: k) =>
        let w2 :=
          {| DB := DB w1; clock := clock w1;
             log := log w1 ++
               [Fetch (c :: k)
                  {| model := IndexTs.DS_MODEL;
                     p_messages :=
                       IndexTs.system_message ::
                       map IndexTs.of_row
                         (slice_last 30 (select_messages (DB w1) chat 1000)) ++
                       [Part000Chat.appended said];
                     p_stream := IndexTs.stream_of request |}] |} in
        match dsRes with
        | None => (Thrown, w2)
        | Some u =>
            IndexTs.after_fetch P chat (IndexTs.stream_of request) u w2
        end
    | _ => (Returned (IndexTs.badJSON 401 "Missing DEEPSEEK_API_KEY"), w1)
    end.
Proof.
  unfold IndexTs.validated, IndexTs.chat_of, IndexTs.content_of,
    IndexTs.stream_of, Part000Chat.routeChat.
  destruct (IndexTs.json_body request) as [b|]; [|discriminate].
  destruct (match IndexTs.b_chat_id b with Some s => s | None => [] end)
    as [|c0 cs]; [discriminate|].
  destruct (trim match IndexTs.b_content b with Some s => s | None => [] end)
    as [|t0 ts]; [discriminate|].
  intros E. unfold bind at 1. unfold chatExists at 1.
  unfold bind at 1. unfold read_db at 1. unfold ret at 1. rewrite E.
  cbn [negb]. unfold bind at 1. rewrite insertMessage_run.
  unfold bind at 1. unfold getMessages, bind, read_db, ret.
  cbn [DB clock log chats messages]. cbv zeta.
  destruct (IndexTs.api_key request env) as [[|c k]|]; try reflexivity.
  unfold emit. cbn [DB clock log chats messages].
  destruct dsRes; reflexivity.
Qed.

(** X17 — The earlier relay repeats the user message. The [routeChat] of
    [src/unnamed/part_000] stores the user message, reads the history
    back, and appends the user message to it again: when the stored
    message is the latest of the chat, the messages it sends upstream end
    with the user's text twice. It never sets the title of the chat. *)
Theorem earlier_relay_repeats_user_message (request : IndexTs.Request)
    (env : IndexTs.Env) (dsRes : option IndexTs.upstream) (w : world) :
  IndexTs.validated request w = true ->
  IndexTs.has_credential request env = true ->
  let chat := IndexTs.chat_of request in
  let said := IndexTs.content_of request in
  let user_row := {| chat_id := chat; m_role := RUser; content := JStr said;
                     m_created_at := hd 0%N (clock w) |} in
  let w' := snd (Part000Chat.routeChat P request env dsRes w) in
  Forall (fun m => (m_created_at m <= hd 0 (clock w))%N)
    (Tables.own chat (DB w)) ->
  length (Tables.own chat (DB w)) < 1000 ->
  exists key front rest,
    log w' =
      log w ++
      InsertMessage chat RUser (JStr said) ::
      Fetch key
        {| model := IndexTs.DS_MODEL;
           p_messages := front ++ [IndexTs.of_row user_row;
                                   Part000Chat.appended said];
           p_stream := IndexTs.stream_of request |} :: rest /\
    cm_content (IndexTs.of_row user_row) = JStr said /\
    cm_content (Part000Chat.appended said) = JStr said /\
    chats (DB w') = chats (DB w).
Proof.
  intros V K chat said user_row w' F L.
  destruct (has_credential_key request env K) as (c & k & AK).
  subst w'. rewrite (earlier_route_validated request env dsRes w V), AK.
  cbv zeta. fold chat said. cbn [DB].
  pose proof (select_messages_snoc (chats (DB w)) (DB w) user_row 1000 F L)
    as Q.
  change (chat_id user_row) with chat in Q. fold user_row. rewrite Q. clear Q.
  set (old := select_messages (DB w) chat 1000).
  assert (SL : exists front,
             slice_last 30 (old ++ [user_row]) = front ++ [user_row]).
  { unfold slice_last. rewrite length_app. cbn [length].
    exists (skipn (length old + 1 - 30) old).
    rewrite skipn_app.
    replace (length old + 1 - 30 - length old) with 0 by lia.
    reflexivity. }
  destruct SL as [front SL]. rewrite SL.
  exists (c :: k), (IndexTs.system_message :: map IndexTs.of_row front).
  rewrite map_app. cbn [map app]. rewrite <- app_assoc. cbn [app].
  destruct dsRes as [u|].
  - match goal with
    | |- context [IndexTs.after_fetch P ?ch ?st ?u ?w0] =>
        destruct (after_fetch_extends ch st u w0) as (tail & T & C)
    end.
    exists tail. rewrite T, C. cbn [log DB chats clock].
    rewrite <- !app_assoc. cbn [app]. repeat split.
  - exists []. cbn [snd log DB chats]. rewrite <- !app_assoc. cbn [app].
    repeat split.
Qed.

End EarlierRoute.

Lemma earlier_relay_repeats_user_message_witness :
  exists key front rest,
    log (snd (Part000Chat.routeChat JsonRef.JSON_parse Examples.hello
                Examples.a_key None Examples.one_chat)) =
      log Examples.one_chat ++
      InsertMessage (lit "c1") RUser (JStr (lit "hello")) ::
      Fetch key
        {| model := IndexTs.DS_MODEL;
           p_messages :=
             front ++
             [IndexTs.of_row {| chat_id := lit "c1"; m_role := RUser;
                                content := JStr (lit "hello");
                                m_created_at := 5 |};
              Part000Chat.appended (lit "hello")];
           p_stream := true |} :: rest.
Proof.
  destruct (earlier_relay_repeats_user_message JsonRef.JSON_parse
              Examples.hello Examples.a_key None Examples.one_chat
              eq_refl eq_refl (Forall_nil _) ltac:(vm_compute; repeat constructor))
    as (key & front & rest & L & _).
  exists key, front, rest. exact L.
Defined.

(* ------------------------------------------------------------------ *)
(** ** The page reading the relay's response *)

Lemma decode_stream_ascii (v : list byte) :
  Forall (fun b => (Byte.to_N b < 128)%N) v ->
  fst (decode new_TextDecoder v true) = map Byte.to_N v.
Proof.
  intros F. unfold decode.
  cbn [do_not_flush new_TextDecoder]. rewrite (utf8_bytes_ascii v F).
  pose proof (serialize_small (map Byte.to_N v)) as S.
  destruct (serialize false (map Byte.to_N v)) as [s b]. cbn [fst] in *.
  apply S. apply Forall_map. exact F.
Qed.

Lemma decode_once_chunks_ascii (chunks : list (list byte)) :
  Forall (fun b => (Byte.to_N b < 128)%N) (concat chunks) ->
  concat (map decode_once chunks) = map Byte.to_N (concat chunks).
Proof.
  induction chunks as [|v r IH]; [reflexivity|].
  cbn [concat map]. intros A. apply Forall_app in A as [Av Ar].
  rewrite map_app, (decode_once_ascii v Av), (IH Ar). reflexivity.
Qed.

Lemma stored_frame_ascii :
  Forall (fun b => (Byte.to_N b < 128)%N) (encode IndexTs.STORED_FRAME) /\
  map Byte.to_N (encode IndexTs.STORED_FRAME) = IndexTs.STORED_FRAME.
Proof.
  split; [|reflexivity].
  vm_compute. repeat (constructor; [reflexivity|]). constructor.
Qed.

Lemma split_stored_frame :
  split IndexTs.STORED_FRAME BLANK =
    [lit "data: " ++ IndexTs.STORED_PAYLOAD; []].
Proof. reflexivity. Qed.

Section PageAndRelay.

Variable P : jsstring -> option json.

(** What the relay enqueues on a streamed request whose upstream body
    ends. *)
Lemma served_chunks (request : IndexTs.Request) (env : IndexTs.Env)
    (u : IndexTs.upstream) (w : world) (chunks : list (list byte)) :
  IndexTs.validated request w = true ->
  IndexTs.has_credential request env = true ->
  IndexTs.stream_of request = true ->
  IndexTs.up_ok u = true ->
  IndexTs.up_body u = Some (chunks, EndDone) ->
  log w = [] ->
  enqueued (log (snd (IndexTs.serve P request env (Some u) w))) =
    chunks ++ [encode IndexTs.STORED_FRAME].
Proof.
  intros V K S O B L.
  destruct (has_credential_key request env K) as (c & k & AK).
  rewrite (serve_streamed_log P request env u w c k chunks EndDone V AK S O B).
  unfold IndexTs.fetched, IndexTs.user_stored. cbn [log]. rewrite L.
  rewrite !enqueued_app, enqueued_tee. cbn [app enqueued].
  destruct (trim (assistant (IndexTs.captured P capture_init chunks)));
    reflexivity.
Qed.

(** The relay's frame after a whole number of frames: the capture is as
    it was. *)
Lemma capture_stored_frame (a : jsstring) :
  P IndexTs.STORED_PAYLOAD = Some (JObj [(lit "__stored", JBool true)]) ->
  capture_chunk P {| buffer := []; assistant := a |} IndexTs.STORED_FRAME =
    {| buffer := []; assistant := a |}.
Proof.
  intros HP. rewrite capture_chunk_eq. cbn [buffer assistant app].
  rewrite split_stored_frame. cbn [last removelast fold_left].
  unfold capture_event, frame.
  change (data_line (lit "data: " ++ IndexTs.STORED_PAYLOAD))
    with (Some (lit "data: " ++ IndexTs.STORED_PAYLOAD)).
  cbv beta iota.
  change (strip_data (lit "data: " ++ IndexTs.STORED_PAYLOAD))
    with IndexTs.STORED_PAYLOAD.
  change (str_eqb IndexTs.STORED_PAYLOAD DONE) with false.
  cbv iota. rewrite HP. reflexivity.
Qed.

(** X18 — The page shows what the relay stores. When [onSend] of
    [public/chat.js] posts a text to the relay and reads the whole of
    the streamed response, the text it has shown is the text the relay
    captured, which is the assistant message the relay stored if it is
    not blank; the relay's own frame adds nothing to it, and the page
    then reloads the chat. This holds wherever the upstream body is cut
    into chunks, for an upstream body of ASCII bytes that ends with the
    blank line of a frame. *)
Theorem page_shows_what_is_stored (chatId input : jsstring)
    (env : IndexTs.Env) (u : IndexTs.upstream) (w : world)
    (chunks : list (list byte)) (load_ok : bool) :
  let request := Pages.posted chatId (trim input) in
  IndexTs.validated request w = true ->
  IndexTs.has_credential request env = true ->
  IndexTs.up_ok u = true ->
  IndexTs.up_body u = Some (chunks, EndDone) ->
  log w = [] ->
  Forall (fun b => (Byte.to_N b < 128)%N) (concat chunks) ->
  buffer (IndexTs.captured P capture_init chunks) = [] ->
  P IndexTs.STORED_PAYLOAD = Some (JObj [(lit "__stored", JBool true)]) ->
  let w' := snd (IndexTs.serve P request env (Some u) w) in
  let page := ChatJs.onSend P input false (Some (Pages.streamed (log w')))
                load_ok in
  let text := assistant (IndexTs.captured P capture_init chunks) in
  ChatJs.full page = text /\
  ChatJs.buffer page = [] /\
  In Browser.LoadChat (ChatJs.actions page) /\
  (trim text <> [] ->
   In (InsertMessage chatId RAssistant (JStr (ChatJs.full page))) (log w')) /\
  (trim text = [] -> inserts RAssistant (log w') = 0).
Proof.
  intros request V K O B L A E HP w' page text.
  assert (S : IndexTs.stream_of request = true) by reflexivity.
  assert (T : trim input <> []).
  { intros Z. unfold IndexTs.validated, request, Pages.posted in V.
    cbn in V. rewrite Z in V.
    change (trim []) with (@nil N) in V. destruct chatId; discriminate V. }
  pose proof (served_chunks request env u w chunks V K S O B L) as Q.
  fold w' in Q.
  set (st := ChatJs.read_loop P
               {| ChatJs.buffer := []; ChatJs.full := [];
                  ChatJs.dec := new_TextDecoder;
                  ChatJs.actions := [Browser.PostChat (trim input)] |}
               (chunks ++ [encode IndexTs.STORED_FRAME])).
  assert (C : {| buffer := ChatJs.buffer st; assistant := ChatJs.full st |} =
              {| buffer := []; assistant := text |}).
  { unfold st. rewrite chatjs_loop.
    cbn [ChatJs.buffer ChatJs.full ChatJs.dec].
    change {| buffer := []; assistant := [] |} with capture_init.
    rewrite capture_chunks, decode_stream_new.
    rewrite concat_app. cbn [concat]. rewrite app_nil_r.
    rewrite decode_stream_ascii
      by (apply Forall_app; split; [exact A | apply stored_frame_ascii]).
    rewrite map_app, (proj2 stored_frame_ascii).
    rewrite <- capture_chunk_app.
    assert (G : capture_chunk P capture_init (map Byte.to_N (concat chunks)) =
                {| buffer := []; assistant := text |}).
    { unfold text. rewrite <- (decode_once_chunks_ascii chunks A).
      rewrite <- capture_chunks. fold (IndexTs.captured P capture_init chunks).
      destruct (IndexTs.captured P capture_init chunks) as [b a].
      cbn [buffer assistant] in *. rewrite E. reflexivity. }
    rewrite G. apply (capture_stored_frame text HP). }
  assert (CB : ChatJs.buffer st = []) by exact (f_equal buffer C).
  assert (CF : ChatJs.full st = text) by exact (f_equal assistant C).
  assert (PG : page =
                 if load_ok then ChatJs.act Browser.LoadChat st
                 else ChatJs.act Browser.ShowNetworkError
                        (ChatJs.act Browser.LoadChat st)).
  { unfold page, ChatJs.onSend, Pages.streamed.
    cbn [Browser.r_ok Browser.r_done Browser.r_chunks negb]. rewrite Q.
    destruct (trim input) as [|t0 ts]; [contradiction | reflexivity]. }
  assert (F : ChatJs.full page = text)
    by (rewrite PG; destruct load_ok; exact CF).
  split; [exact F|]. split.
  { rewrite PG; destruct load_ok; exact CB. }
  split.
  { rewrite PG; destruct load_ok; cbn [ChatJs.act ChatJs.actions];
      rewrite ?in_app_iff; cbn [In]; tauto. }
  destruct (has_credential_key request env K) as (c & k & AK).
  unfold w'.
  rewrite (serve_streamed_log P request env u w c k chunks EndDone V AK S O B).
  fold text. split.
  - intros NB. rewrite F. destruct (trim text) as [|x y]; [contradiction|].
    rewrite !in_app_iff. right. right. cbn [In app]. auto.
  - intros ->. unfold IndexTs.fetched, IndexTs.user_stored. cbn [log].
    rewrite L. rewrite !inserts_app, inserts_tee. reflexivity.
Qed.

End PageAndRelay.

Lemma page_shows_what_is_stored_witness :
  ChatJs.full
    (ChatJs.onSend JsonRef.JSON_parse (lit " hello ") false
       (Some (Pages.streamed
                (log (snd (IndexTs.serve JsonRef.JSON_parse
                             (Pages.posted (lit "c1") (trim (lit " hello ")))
                             Examples.a_key
                             (Some (Examples.streaming_reply
                                      [firstn 20 Examples.hi_chunk;
                                       skipn 20 Examples.hi_chunk] EndDone))
                             Examples.one_chat)))))
       true) =
  assistant (IndexTs.captured JsonRef.JSON_parse capture_init
               [firstn 20 Examples.hi_chunk; skipn 20 Examples.hi_chunk]).
Proof.
  refine (proj1 (page_shows_what_is_stored JsonRef.JSON_parse (lit "c1")
                   (lit " hello ") Examples.a_key
                   (Examples.streaming_reply
                      [firstn 20 Examples.hi_chunk; skipn 20 Examples.hi_chunk]
                      EndDone)
                   Examples.one_chat
                   [firstn 20 Examples.hi_chunk; skipn 20 Examples.hi_chunk]
                   true eq_refl eq_refl eq_refl eq_refl eq_refl _ eq_refl
                   eq_refl)).
  vm_compute. repeat (constructor; [reflexivity|]). constructor.
Defined.

(* ------------------------------------------------------------------ *)
(** ** The sidebar page reading the relay's response *)

Lemma last_not_cut (s sep : jsstring) :
  sep <> [] -> cut sep (last (split s sep) []) = None.
Proof.
  intros N. destruct (split_pieces s sep N) as [F _].
  pose proof (split_not_nil s sep N) as NE.
  destruct (exists_last NE) as (l & x & E). rewrite E in *.
  rewrite last_last. apply Forall_app in F as [_ F].
  inversion F; assumption.
Qed.

Section SidebarLoop.

Variable P : jsstring -> option json.

Lemma part004_event_rebuffered (b : jsstring) (d : TextDecoder)
    (st : Part004.state) (evt : jsstring) :
  Part004.on_event P (Pages.rebuffered b d st) evt =
  Pages.rebuffered b d (Part004.on_event P st evt).
Proof.
  unfold Part004.on_event.
  destruct (data_line evt) as [line|]; [|reflexivity].
  destruct (str_eqb (strip_data line) DONE); [reflexivity|].
  destruct (P (strip_data line)) as [j|]; [|reflexivity].
  destruct (truthy (Some j) && truthy (prop (lit "__stored") j));
    [reflexivity|].
  destruct (truthy (Some (or_empty (delta_content j)))); reflexivity.
Qed.

Lemma part004_events_rebuffered (b : jsstring) (d : TextDecoder)
    (evs : list jsstring) (st : Part004.state) :
  fold_left (Part004.on_event P) evs (Pages.rebuffered b d st) =
  Pages.rebuffered b d (fold_left (Part004.on_event P) evs st).
Proof.
  revert st; induction evs as [|e evs IH]; intros st; [reflexivity|].
  cbn [fold_left]. rewrite part004_event_rebuffered. apply IH.
Qed.

Lemma rebuffered_twice (b b' : jsstring) (d d' : TextDecoder)
    (st : Part004.state) :
  Pages.rebuffered b d (Pages.rebuffered b' d' st) = Pages.rebuffered b d st.
Proof. reflexivity. Qed.

Lemma rebuffered_same (st : Part004.state) :
  Pages.rebuffered (Part004.buffer st) (Part004.dec st) st = st.
Proof. destruct st; reflexivity. Qed.

Lemma part004_chunk (st : Part004.state) (v : list byte) :
  Part004.on_chunk P st v =
    fold_left (Part004.on_event P)
      (removelast (split (Part004.buffer st ++
                          fst (decode (Part004.dec st) v true)) BLANK))
      (Pages.rebuffered
         (last (split (Part004.buffer st ++
                       fst (decode (Part004.dec st) v true)) BLANK) [])
         (snd (decode (Part004.dec st) v true)) st).
Proof.
  unfold Part004.on_chunk.
  destruct (decode (Part004.dec st) v true) as [s d]. cbn [fst snd].
  rewrite pop_split by apply BLANK_not_nil. reflexivity.
Qed.

(** The read loop of the sidebar page handles the events of the whole
    text its decoder returns, wherever the chunks are cut. *)
Lemma part004_loop (chunks : list (list byte)) (st : Part004.state) :
  cut BLANK (Part004.buffer st) = None ->
  let whole := Part004.buffer st ++
               concat (decode_stream (Part004.dec st) chunks) in
  exists d,
    Part004.read_loop P st chunks =
      fold_left (Part004.on_event P) (removelast (split whole BLANK))
        (Pages.rebuffered (last (split whole BLANK) []) d st).
Proof.
  unfold Part004.read_loop.
  revert st; induction chunks as [|v r IH]; intros st C; cbv zeta.
  - exists (Part004.dec st). cbn [decode_stream concat fold_left].
    rewrite app_nil_r, (split_unfold _ _ BLANK_not_nil), C.
    cbn [removelast last fold_left]. symmetry. apply rebuffered_same.
  - cbn [fold_left decode_stream].
    pose proof (part004_chunk st v) as K.
    destruct (decode (Part004.dec st) v true) as [s d1]. cbn [fst snd] in K.
    cbn [concat].
    set (s1 := split (Part004.buffer st ++ s) BLANK) in *.
    rewrite part004_events_rebuffered in K.
    assert (B1 : Part004.buffer (Part004.on_chunk P st v) = last s1 [])
      by (rewrite K; reflexivity).
    assert (D1 : Part004.dec (Part004.on_chunk P st v) = d1)
      by (rewrite K; reflexivity).
    destruct (IH (Part004.on_chunk P st v)) as [d2 E].
    { rewrite B1. apply last_not_cut, BLANK_not_nil. }
    cbv zeta in E. rewrite B1, D1 in E. rewrite E. exists d2.
    rewrite app_assoc.
    rewrite (split_app (Part004.buffer st ++ s) _ BLANK BLANK_not_nil).
    fold s1.
    set (s2 := split (last s1 [] ++ concat (decode_stream d1 r)) BLANK).
    assert (N2 : s2 <> []) by apply split_not_nil, BLANK_not_nil.
    destruct (removelast_last_app (removelast s1) s2 [] N2) as [-> ->].
    rewrite fold_left_app. f_equal.
    rewrite K at 1. rewrite rebuffered_twice.
    rewrite part004_events_rebuffered. reflexivity.
Qed.

(** An event that does not carry the relay's signal is handled as by the
    relay: the text it adds to the bubble is the text the relay adds to
    its capture. *)
Lemma part004_event_plain (st : Part004.state) (evt : jsstring) :
  (forall line j, data_line evt = Some line ->
     P (strip_data line) = Some j ->
     truthy (prop (lit "__stored") j) = false) ->
  exists shown,
    Part004.on_event P st evt =
      {| Part004.buffer := Part004.buffer st;
         Part004.full := capture_event P (Part004.full st) evt;
         Part004.stored := Part004.stored st;
         Part004.dec := Part004.dec st;
         Part004.actions :=
           Part004.actions st ++ map Browser.AppendText shown |} /\
    capture_event P (Part004.full st) evt =
      Part004.full st ++ concat shown.
Proof.
  intros H. unfold Part004.on_event, capture_event, frame.
  destruct (data_line evt) as [line|].
  2:{ exists []. cbn [map concat]. rewrite !app_nil_r.
      destruct st; split; reflexivity. }
  destruct (str_eqb (strip_data line) DONE).
  { exists []. cbn [map concat]. rewrite !app_nil_r.
    destruct st; split; reflexivity. }
  destruct (P (strip_data line)) as [j|] eqn:Pj.
  2:{ exists []. cbn [map concat]. rewrite !app_nil_r.
      destruct st; split; reflexivity. }
  rewrite (H line j eq_refl Pj), andb_false_r. cbv zeta.
  destruct (truthy (Some (or_empty (delta_content j)))).
  - exists [ToString (or_empty (delta_content j))]. cbn [map concat].
    rewrite app_nil_r. split; reflexivity.
  - exists []. cbn [map concat]. rewrite !app_nil_r.
    destruct st; split; reflexivity.
Qed.

Lemma part004_events_plain (evs : list jsstring) (st : Part004.state) :
  (forall evt line j, In evt evs -> data_line evt = Some line ->
     P (strip_data line) = Some j ->
     truthy (prop (lit "__stored") j) = false) ->
  exists shown,
    fold_left (Part004.on_event P) evs st =
      {| Part004.buffer := Part004.buffer st;
         Part004.full := fold_left (capture_event P) evs (Part004.full st);
         Part004.stored := Part004.stored st;
         Part004.dec := Part004.dec st;
         Part004.actions :=
           Part004.actions st ++ map Browser.AppendText shown |} /\
    fold_left (capture_event P) evs (Part004.full st) =
      Part004.full st ++ concat shown.
Proof.
  revert st; induction evs as [|e evs IH]; intros st H.
  - exists []. cbn [fold_left map concat]. rewrite !app_nil_r.
    destruct st; split; reflexivity.
  - cbn [fold_left].
    destruct (part004_event_plain st e) as (sh1 & E1 & F1).
    { intros line j. apply (H e). left. reflexivity. }
    destruct (IH (Part004.on_event P st e)) as (sh2 & E2 & F2).
    { intros evt line j I. apply (H evt). right. exact I. }
    exists (sh1 ++ sh2). rewrite E2. rewrite E1 in F2 |- *.
    cbn [Part004.buffer Part004.full Part004.stored Part004.dec
         Part004.actions] in *.
    rewrite F2, F1, map_app, concat_app, <- !app_assoc.
    split; reflexivity.
Qed.

(** X19 — The sidebar page confirms storage. When [onSend] of
    [src/unnamed/part_004] posts a text to the relay and reads the whole
    of the streamed response, it finds the relay's signal in it and
    reloads the chat at once, with no delayed reload; until then it has
    appended to the bubble pieces that make up the text the relay
    captured, which is the assistant message the relay stored if it is
    not blank. This holds wherever the upstream body is cut into chunks,
    for an upstream body of ASCII bytes that ends with the blank line of
    a frame and has no frame with a truthy [__stored] of its own. *)
Theorem sidebar_confirms_storage (chatId input : jsstring)
    (env : IndexTs.Env) (u : IndexTs.upstream) (w : world)
    (chunks : list (list byte)) (load_ok : bool) :
  let request := Pages.posted chatId (trim input) in
  IndexTs.validated request w = true ->
  IndexTs.has_credential request env = true ->
  IndexTs.up_ok u = true ->
  IndexTs.up_body u = Some (chunks, EndDone) ->
  log w = [] ->
  Forall (fun b => (Byte.to_N b < 128)%N) (concat chunks) ->
  buffer (IndexTs.captured P capture_init chunks) = [] ->
  (forall evt line j,
     In evt (removelast (split (map Byte.to_N (concat chunks)) BLANK)) ->
     data_line evt = Some line ->
     P (strip_data line) = Some j ->
     truthy (prop (lit "__stored") j) = false) ->
  P IndexTs.STORED_PAYLOAD = Some (JObj [(lit "__stored", JBool true)]) ->
  let w' := snd (IndexTs.serve P request env (Some u) w) in
  let page := Part004.onSend P input false (Some chatId)
                (Some (Pages.streamed (log w'))) load_ok in
  let text := assistant (IndexTs.captured P capture_init chunks) in
  Part004.stored page = true /\
  Part004.full page = text /\
  (exists shown,
     concat shown = text /\
     Part004.actions page =
       Browser.PostChat (trim input) :: map Browser.AppendText shown ++
       Browser.LoadChat ::
       (if load_ok then [Browser.RefreshChats]
        else [Browser.ShowNetworkError])) /\
  (trim text <> [] ->
   In (InsertMessage chatId RAssistant (JStr (Part004.full page))) (log w')).
Proof.
  intros request V K O B L A E H HP w' page text.
  assert (S : IndexTs.stream_of request = true) by reflexivity.
  assert (T : trim input <> [] /\ chatId <> []).
  { unfold IndexTs.validated, request, Pages.posted in V. cbn in V.
    destruct chatId as [|c0 cs]; [discriminate V|].
    split; [|discriminate]. intros Z. rewrite Z in V.
    change (trim []) with (@nil N) in V. discriminate V. }
  destruct T as [T NC].
  pose proof (served_chunks P request env u w chunks V K S O B L) as Q.
  fold w' in Q.
  set (st0 := {| Part004.buffer := []; Part004.full := [];
                 Part004.stored := false; Part004.dec := new_TextDecoder;
                 Part004.actions := [Browser.PostChat (trim input)] |}).
  set (st := Part004.read_loop P st0
               (chunks ++ [encode IndexTs.STORED_FRAME])).
  assert (G : capture_chunk P capture_init (map Byte.to_N (concat chunks)) =
              {| buffer := []; assistant := text |}).
  { unfold text. rewrite <- (decode_once_chunks_ascii chunks A).
    rewrite <- capture_chunks. fold (IndexTs.captured P capture_init chunks).
    destruct (IndexTs.captured P capture_init chunks) as [b a].
    cbn [buffer assistant] in *. rewrite E. reflexivity. }
  rewrite capture_chunk_eq in G. cbn [buffer assistant capture_init app] in G.
  assert (GB : last (split (map Byte.to_N (concat chunks)) BLANK) [] = [])
    by exact (f_equal buffer G).
  assert (GT : fold_left (capture_event P)
                 (removelast (split (map Byte.to_N (concat chunks)) BLANK)) [] =
               text)
    by exact (f_equal assistant G).
  assert (ST : exists d shown,
             concat shown = text /\
             st = {| Part004.buffer := []; Part004.full := text;
                     Part004.stored := true; Part004.dec := d;
                     Part004.actions :=
                       Browser.PostChat (trim input) ::
                       map Browser.AppendText shown |}).
  { destruct (part004_loop (chunks ++ [encode IndexTs.STORED_FRAME]) st0
                eq_refl) as [d D].
    fold st in D. cbv zeta in D. cbn [Part004.buffer Part004.dec st0 app] in D.
    rewrite decode_stream_new in D.
    rewrite concat_app in D. cbn [concat] in D. rewrite app_nil_r in D.
    rewrite decode_stream_ascii in D
      by (apply Forall_app; split; [exact A | apply stored_frame_ascii]).
    rewrite map_app, (proj2 stored_frame_ascii) in D.
    rewrite (split_app _ _ BLANK BLANK_not_nil), GB in D.
    cbn [app] in D. rewrite split_stored_frame in D.
    destruct (removelast_last_app
                (removelast (split (map Byte.to_N (concat chunks)) BLANK))
                [lit "data: " ++ IndexTs.STORED_PAYLOAD; []] []
                ltac:(discriminate)) as [R1 R2].
    rewrite R1, R2 in D. cbn [removelast last] in D.
    rewrite fold_left_app in D. cbn [fold_left] in D.
    destruct (part004_events_plain
                (removelast (split (map Byte.to_N (concat chunks)) BLANK))
                (Pages.rebuffered [] d st0) H) as (shown & E1 & F1).
    rewrite E1 in D.
    cbn [Pages.rebuffered Part004.buffer Part004.full Part004.stored
         Part004.dec Part004.actions st0] in D, F1.
    rewrite GT in D, F1. cbn [app] in D, F1.
    exists d, shown. split; [symmetry; exact F1|].
    rewrite D. unfold Part004.on_event.
    change (data_line (lit "data: " ++ IndexTs.STORED_PAYLOAD))
      with (Some (lit "data: " ++ IndexTs.STORED_PAYLOAD)).
    cbv beta iota.
    change (strip_data (lit "data: " ++ IndexTs.STORED_PAYLOAD))
      with IndexTs.STORED_PAYLOAD.
    change (str_eqb IndexTs.STORED_PAYLOAD DONE) with false.
    cbv iota. rewrite HP. reflexivity. }
  destruct ST as (d & shown & SH & ST).
  assert (PG : page =
                 if load_ok
                 then Part004.act Browser.RefreshChats
                        (Part004.act Browser.LoadChat st)
                 else Part004.act Browser.ShowNetworkError
                        (Part004.act Browser.LoadChat st)).
  { unfold page, Part004.onSend, Pages.streamed.
    cbn [Browser.r_ok Browser.r_done Browser.r_chunks negb]. rewrite Q.
    destruct (trim input) as [|t0 ts]; [contradiction|].
    destruct chatId as [|c0 cs]; [contradiction|].
    assert (SS : Part004.stored st = true) by (rewrite ST; reflexivity).
    match goal with
    | |- context [Part004.read_loop P ?s0 ?cs] =>
        change (Part004.read_loop P s0 cs) with st
    end.
    rewrite SS. reflexivity. }
  assert (F : Part004.full page = text)
    by (rewrite PG, ST; destruct load_ok; reflexivity).
  split; [rewrite PG, ST; destruct load_ok; reflexivity|].
  split; [exact F|]. split.
  { exists shown. split; [exact SH|].
    rewrite PG, ST. destruct load_ok;
      cbn [Part004.act Part004.actions]; rewrite <- !app_assoc; reflexivity. }
  destruct (has_credential_key request env K) as (c & k & AK).
  unfold w'.
  rewrite (serve_streamed_log P request env u w c k chunks EndDone V AK S O B).
  fold text.
  intros NB. rewrite F. destruct (trim text) as [|x y]; [contradiction|].
  rewrite !in_app_iff. right. right. cbn [In app]. auto.
Qed.

End SidebarLoop.

Lemma sidebar_confirms_storage_witness :
  Part004.stored
    (Part004.onSend JsonRef.JSON_parse (lit " hello ") false
       (Some (lit "c1"))
       (Some (Pages.streamed
                (log (snd (IndexTs.serve JsonRef.JSON_parse
                             (Pages.posted (lit "c1") (trim (lit " hello ")))
                             Examples.a_key
                             (Some (Examples.streaming_reply
                                      [firstn 20 Examples.hi_chunk;
                                       skipn 20 Examples.hi_chunk] EndDone))
                             Examples.one_chat)))))
       true) = true.
Proof.
  refine (proj1 (sidebar_confirms_storage JsonRef.JSON_parse (lit "c1")
                   (lit " hello ") Examples.a_key
                   (Examples.streaming_reply
                      [firstn 20 Examples.hi_chunk; skipn 20 Examples.hi_chunk]
                      EndDone)
                   Examples.one_chat
                   [firstn 20 Examples.hi_chunk; skipn 20 Examples.hi_chunk]
                   true eq_refl eq_refl eq_refl eq_refl eq_refl _ eq_refl _
                   eq_refl)).
  - vm_compute. repeat (constructor; [reflexivity|]). constructor.
  - intros evt line j I D Pj. vm_compute in I. destruct I as [<- | []].
    vm_compute in D. inversion D; subst line.
    vm_compute in Pj. inversion Pj; subst j. reflexivity.
Defined.

(* ------------------------------------------------------------------ *)
(** ** The tables stay consistent *)

Section Consistency.

Variable P : jsstring -> option json.

(** What a reply adds to [messages]: rows of the chat of the request. *)
Lemma after_fetch_messages (chatId : jsstring) (stream : bool)
    (u : IndexTs.upstream) (w : world) :
  let run :=
    match IndexTs.after_fetch P chatId stream u w with
    | (Returned r, w') => IndexTs.stream_body P r w'
    | (Thrown, w') => (Thrown, w')
    end in
  exists rows,
    messages (DB (snd run)) = messages (DB w) ++ rows /\
    Forall (fun m => chat_id m = chatId) rows.
Proof.
  cbv zeta. destruct stream.
  1: unfold IndexTs.after_fetch; cbn [negb].
  - destruct (negb (IndexTs.up_ok u) &&
              match IndexTs.up_body u with Some _ => true | None => false end).
    + unfold bind. rewrite text_run.
      destruct (IndexTs.up_body u) as [[chunks [|]]|];
        (exists []; rewrite app_nil_r; split; [reflexivity | constructor]).
    + destruct (IndexTs.up_body u) as [[chunks e]|].
      * unfold ret at 1. unfold IndexTs.stream_body, bind, ret.
        destruct e.
        -- destruct (trim (assistant (IndexTs.captured P capture_init chunks)))
             as [|c0 r0] eqn:T.
           ++ rewrite drain_done_empty by exact T.
              exists []; rewrite app_nil_r; split; [reflexivity | constructor].
           ++ rewrite drain_done_text by (rewrite T; discriminate).
              eexists; split; [reflexivity|].
              constructor; [reflexivity | constructor].
        -- rewrite drain_failed.
           exists []; rewrite app_nil_r; split; [reflexivity | constructor].
      * exists []. rewrite app_nil_r. split; [reflexivity | constructor].
  - rewrite after_fetch_buffered, text_run.
    destruct (IndexTs.up_body u) as [[chunks [|]]|];
      try (exists []; rewrite app_nil_r; split; [reflexivity | constructor]);
      match goal with
      | |- context [try_catch (match P ?t with _ => _ end) ?w0] =>
          destruct (try_reply P chatId t w0)
            as (w1 & E & C & [[_ M] | (msg & v & _ & M)])
      end; rewrite E; cbn [IndexTs.stream_body ret snd]; rewrite M;
        cbn [emit snd DB messages].
    + exists []. rewrite app_nil_r. split; [reflexivity | constructor].
    + eexists. split; [reflexivity|].
      constructor; [reflexivity | constructor].
    + exists []. rewrite app_nil_r. split; [reflexivity | constructor].
    + eexists. split; [reflexivity|].
      constructor; [reflexivity | constructor].
Qed.

(** The tables after a whole request: the ids of the chats are as before,
    and the messages added are of the chat of the request, which has a
    row. *)
Lemma serve_tables (request : IndexTs.Request) (env : IndexTs.Env)
    (dsRes : option IndexTs.upstream) (w : world) :
  let w' := snd (IndexTs.serve P request env dsRes w) in
  map id (chats (DB w')) = map id (chats (DB w)) /\
  exists rows,
    messages (DB w') = messages (DB w) ++ rows /\
    Forall (fun m => Tables.known (chat_id m) (DB w) = true) rows.
Proof.
  cbv zeta. destruct (IndexTs.validated request w) eqn:V.
  - assert (Kn : Tables.known (IndexTs.chat_of request) (DB w) = true).
    { unfold IndexTs.validated in V. unfold Tables.known.
      destruct (IndexTs.json_body request); [|discriminate].
      destruct (IndexTs.chat_of request); [discriminate|].
      destruct (IndexTs.content_of request); [discriminate | exact V]. }
    assert (Ids : map id (map (update_title (IndexTs.chat_of request)
                                 (slice0 48 (trim (IndexTs.content_of request))))
                            (chats (DB w))) = map id (chats (DB w))).
    { rewrite map_map. apply map_ext. intros c. unfold update_title.
      destruct (_ && _); reflexivity. }
    destruct (serve_validated P request env dsRes w V) as (tail & _ & C & _).
    split; [rewrite C; exact Ids|].
    unfold IndexTs.serve.
    rewrite (bind_run _ _ _ _ (route_validated P request env dsRes w V)).
    destruct (IndexTs.api_key request env) as [[|c k]|].
    + eexists. split; [reflexivity|]. constructor; [exact Kn | constructor].
    + destruct dsRes as [u|].
      * destruct (after_fetch_messages (IndexTs.chat_of request)
                    (IndexTs.stream_of request) u
                    (IndexTs.fetched (c :: k) request w)) as (rows & M & F).
        cbv zeta in M. rewrite M. cbn [IndexTs.fetched IndexTs.user_stored DB messages].
        rewrite <- app_assoc. eexists. split; [reflexivity|].
        constructor; [exact Kn|].
        eapply Forall_impl; [|exact F]. cbv beta. intros m ->. exact Kn.
      * eexists. split; [reflexivity|]. constructor; [exact Kn | constructor].
    + eexists. split; [reflexivity|]. constructor; [exact Kn | constructor].
  - destruct (route_rejected P request env dsRes w V) as (status & msg & R & _).
    unfold IndexTs.serve. rewrite (bind_run _ _ _ _ R).
    cbn [IndexTs.stream_body ret snd]. split; [reflexivity|].
    exists []. rewrite app_nil_r. split; [reflexivity | constructor].
Qed.

Lemma known_ids (x : jsstring) (d d' : D1Database) :
  map id (chats d') = map id (chats d) ->
  Tables.known x d' = Tables.known x d.
Proof.
  unfold Tables.known. generalize (chats d) (chats d').
  induction l as [|c l IH]; intros [|c' l'] E; try discriminate E;
    [reflexivity|].
  cbn [map] in E. inversion E as [[E1 E2]]. cbn [existsb].
  rewrite E1, (IH l' E2). reflexivity.
Qed.

Lemma delete_keeps_consistent (chatId : jsstring) (w : world) :
  Tables.consistent (DB w) ->
  Tables.consistent (DB (snd (Routes.routeDeleteChat chatId w))).
Proof.
  intros [ND OR]. rewrite routeDeleteChat_run.
  destruct (Tables.known chatId (DB w)) eqn:K; [|split; assumption].
  cbn [snd DB]. split.
  - cbn [chats]. clear -ND. induction (chats (DB w)) as [|c l IH];
      [constructor|].
    cbn [map] in ND. inversion ND as [|? ? NI ND']; subst.
    cbn [filter]. destruct (negb (str_eqb (id c) chatId)); [|exact (IH ND')].
    cbn [map]. constructor; [|exact (IH ND')].
    intros I. apply NI. apply in_map_iff in I as (c' & E & I).
    apply filter_In in I as [I _]. apply in_map_iff. exists c'. auto.
  - cbn [messages]. apply Forall_forall. intros m I.
    apply filter_In in I as [I N].
    apply negb_true_iff, str_eqb_neq in N.
    rewrite Forall_forall in OR. pose proof (OR m I) as Km.
    unfold Tables.known in *. cbn [chats].
    rewrite existsb_filter_nil, (filter_out_other id) by exact N.
    rewrite <- existsb_filter_nil. exact Km.
Qed.

Lemma validated_known (request : IndexTs.Request) (w : world) :
  IndexTs.validated request w = true ->
  Tables.known (IndexTs.chat_of request) (DB w) = true.
Proof.
  unfold IndexTs.validated, Tables.known. intros V.
  destruct (IndexTs.json_body request); [|discriminate].
  destruct (IndexTs.chat_of request); [discriminate|].
  destruct (IndexTs.content_of request); [discriminate | exact V].
Qed.

Lemma user_stored_consistent (request : IndexTs.Request) (w : world) :
  IndexTs.validated request w = true ->
  Tables.consistent (DB w) ->
  Tables.consistent (DB (IndexTs.user_stored request w)).
Proof.
  intros V [ND OR].
  assert (Ids : map id (chats (DB (IndexTs.user_stored request w))) =
                map id (chats (DB w))).
  { cbn [IndexTs.user_stored DB chats]. rewrite map_map. apply map_ext.
    intros c. unfold update_title. destruct (_ && _); reflexivity. }
  split; [rewrite Ids; exact ND|].
  cbn [IndexTs.user_stored DB messages]. apply Forall_app. split.
  - eapply Forall_impl; [|exact OR]. cbv beta. intros m Km.
    rewrite (known_ids _ _ _ Ids). exact Km.
  - constructor; [|constructor]. cbn [chat_id].
    rewrite (known_ids _ _ _ Ids). apply validated_known, V.
Qed.

(** X20 — The tables, one request at a time. Take tables in which no two
    chats have the same id and every message belongs to a chat that has
    a row. They are still so after a chat-send that is served to the end
    of its stream before anything else is served, whatever the upstream
    reply and however it ends, after a chat is created with an id no
    chat has, and after a chat is deleted; reading a chat and listing
    the chats change nothing. It is not so when requests overlap: the
    reply of a streamed send is stored when the upstream body ends, after
    [routeChat] has returned, and if the chat is deleted in between, the
    reply is stored all the same and belongs to no chat. *)
Theorem consistent_one_at_a_time (w : world) :
  Tables.consistent (DB w) ->
  (forall request env dsRes,
     Tables.consistent (DB (snd (IndexTs.serve P request env dsRes w)))) /\
  (forall bound uuid title,
     Tables.known uuid (DB w) = false ->
     Tables.consistent
       (DB (snd (Routes.routeCreateChat bound uuid title w)))) /\
  (forall chatId,
     Tables.consistent (DB (snd (Routes.routeDeleteChat chatId w)))) /\
  (forall chatId, snd (Routes.routeGetChat chatId w) = w) /\
  (forall limit offset, snd (Routes.routeListChats limit offset w) = w) /\
  (forall request env u chunks,
     IndexTs.validated request w = true ->
     IndexTs.has_credential request env = true ->
     IndexTs.stream_of request = true ->
     IndexTs.up_ok u = true ->
     IndexTs.up_body u = Some (chunks, EndDone) ->
     trim (assistant (IndexTs.captured P capture_init chunks)) <> [] ->
     let chat := IndexTs.chat_of request in
     let answered := IndexTs.routeChat P request env (Some u) w in
     let deleted := snd (Routes.routeDeleteChat chat (snd answered)) in
     let ended :=
       snd (IndexTs.stream_body P
              (IndexTs.RespondStream 200 chat chunks EndDone) deleted) in
     fst answered =
       Returned (IndexTs.RespondStream 200 chat chunks EndDone) /\
     Tables.consistent (DB (snd answered)) /\
     Tables.consistent (DB deleted) /\
     Tables.known chat (DB ended) = false /\
     In {| chat_id := chat; m_role := RAssistant;
           content :=
             JStr (assistant (IndexTs.captured P capture_init chunks));
           m_created_at := hd 0%N (clock deleted) |}
        (messages (DB ended)) /\
     ~ Tables.consistent (DB ended)).
Proof.
  intros Co. pose proof Co as [ND OR].
  split; [|split; [|split; [|split; [|split]]]].
  - intros request env dsRes.
    destruct (serve_tables request env dsRes w) as (Ids & rows & M & F).
    cbv zeta in *. split; [rewrite Ids; exact ND|].
    rewrite M. apply Forall_app. split.
    + eapply Forall_impl; [|exact OR]. cbv beta. intros m Km.
      rewrite (known_ids _ _ _ Ids). exact Km.
    + eapply Forall_impl; [|exact F]. cbv beta. intros m Km.
      rewrite (known_ids _ _ _ Ids). exact Km.
  - intros [|] uuid title Fr; [|split; assumption].
    rewrite routeCreateChat_run. cbn [snd DB chats messages]. split.
    + cbn [chats]. rewrite map_app. cbn [map id].
      apply Permutation_NoDup with (l := uuid :: map id (chats (DB w))).
      * apply Permutation_cons_append.
      * constructor; [|exact ND]. intros I. apply in_map_iff in I as (c & E & I).
        unfold Tables.known in Fr.
        assert (X : existsb (fun c => str_eqb (id c) uuid) (chats (DB w)) = true).
        { apply existsb_exists. exists c. split; [exact I|].
          apply str_eqb_eq. exact E. }
        congruence.
    + cbn [messages]. eapply Forall_impl; [|exact OR]. cbv beta.
      intros m Km. unfold Tables.known in *. cbn [chats].
      rewrite existsb_app, Km. reflexivity.
  - intros chatId. apply delete_keeps_consistent, Co.
  - intros chatId. rewrite routeGetChat_run. reflexivity.
  - intros limit offset. reflexivity.
  - intros request env u chunks V K S O B NB chat answered deleted ended.
    destruct (has_credential_key request env K) as (c & k & AK).
    assert (A : answered =
                (Returned (IndexTs.RespondStream 200 chat chunks EndDone),
                 IndexTs.fetched (c :: k) request w)).
    { unfold answered. rewrite (route_validated P request env (Some u) w V), AK.
      unfold IndexTs.after_fetch. rewrite S, O, B. reflexivity. }
    assert (CA : Tables.consistent (DB (snd answered))).
    { rewrite A. cbn [snd IndexTs.fetched DB].
      apply user_stored_consistent; assumption. }
    assert (CD : Tables.consistent (DB deleted))
      by (apply delete_keeps_consistent, CA).
    assert (KD : Tables.known chat (DB deleted) = false).
    { unfold deleted. rewrite routeDeleteChat_run.
      destruct (Tables.known chat (DB (snd answered))) eqn:Kn;
        [|exact Kn].
      cbn [snd DB]. unfold Tables.known. cbn [chats].
      rewrite existsb_filter_nil, (filter_out_same id). reflexivity. }
    assert (E : ended =
                {| DB := {| chats := chats (DB deleted);
                            messages := messages (DB deleted) ++
                              [{| chat_id := chat; m_role := RAssistant;
                                  content :=
                                    JStr (assistant
                                            (IndexTs.captured P capture_init
                                               chunks));
                                  m_created_at := hd 0%N (clock deleted) |}] |};
                   clock := tl (clock deleted);
                   log := log deleted ++ IndexTs.tee chunks ++
                          [Read ReadDone;
                           InsertMessage chat RAssistant
                             (JStr (assistant
                                      (IndexTs.captured P capture_init chunks)));
                           Enqueue (encode IndexTs.STORED_FRAME); Close] |}).
    { unfold ended, IndexTs.stream_body, bind.
      rewrite drain_done_text by exact NB. reflexivity. }
    assert (KE : Tables.known chat (DB ended) = false)
      by (rewrite E; exact KD).
    assert (IE : In {| chat_id := chat; m_role := RAssistant;
                       content :=
                         JStr (assistant
                                 (IndexTs.captured P capture_init chunks));
                       m_created_at := hd 0%N (clock deleted) |}
                    (messages (DB ended))).
    { rewrite E. cbn [DB messages]. apply in_or_app. right. left.
      reflexivity. }
    split; [rewrite A; reflexivity|].
    split; [exact CA|]. split; [exact CD|]. split; [exact KE|].
    split; [exact IE|].
    intros [_ F]. rewrite Forall_forall in F.
    pose proof (F _ IE) as X. cbn [chat_id] in X. congruence.
Qed.

End Consistency.

Lemma consistent_one_at_a_time_witness :
  Tables.consistent
    (DB (snd (IndexTs.serve JsonRef.JSON_parse Examples.hello Examples.a_key
                (Some (Examples.streaming_reply [Examples.hi_chunk] EndDone))
                Examples.one_chat))) /\
  ~ Tables.consistent
      (DB (snd (IndexTs.stream_body JsonRef.JSON_parse
                  (IndexTs.RespondStream 200 (lit "c1") [Examples.hi_chunk]
                     EndDone)
                  (snd (Routes.routeDeleteChat (lit "c1")
                          (snd (IndexTs.routeChat JsonRef.JSON_parse
                                  Examples.hello Examples.a_key
                                  (Some (Examples.streaming_reply
                                           [Examples.hi_chunk] EndDone))
                                  Examples.one_chat))))))).
Proof.
  assert (Co : Tables.consistent (DB Examples.one_chat)).
  { split.
    - cbn. constructor; [intros [] | constructor].
    - constructor. }
  destruct (consistent_one_at_a_time JsonRef.JSON_parse Examples.one_chat Co)
    as (Sv & _ & _ & _ & _ & Ov).
  split.
  - apply Sv.
  - refine (proj2 (proj2 (proj2 (proj2 (proj2
              (Ov Examples.hello Examples.a_key
                 (Examples.streaming_reply [Examples.hi_chunk] EndDone)
                 [Examples.hi_chunk] eq_refl eq_refl eq_refl eq_refl eq_refl
                 _)))))).
    vm_compute. discriminate.
Defined.

(* ------------------------------------------------------------------ *)
(** ** The sidebar page reading the earlier relay *)

Section EarlierRelayAndSidebar.

Variable P : jsstring -> option json.

(** X21 — The earlier relay and the delayed reload. The [streamOut] of
    [src/unnamed/part_000] enqueues the upstream chunks and nothing
    else, and when it stores the reply it does so after it has closed
    the stream. The sidebar page of [src/unnamed/part_004] reading that
    response finds no signal in it, unless an upstream frame has a
    truthy [__stored]: it does not reload the chat at once but 300 ms
    after the stream has ended. *)
Theorem earlier_relay_delayed_reload (chatId input : jsstring)
    (chunks : list (list byte)) (w : world) (load_ok : bool) :
  log w = [] ->
  trim input <> [] -> chatId <> [] ->
  (forall evt line j,
     In evt (removelast
               (split (fst (decode new_TextDecoder (concat chunks) true))
                  BLANK)) ->
     data_line evt = Some line ->
     P (strip_data line) = Some j ->
     truthy (prop (lit "__stored") j) = false) ->
  let w' := snd (Part000.drain P chatId capture_init chunks EndDone w) in
  let text := assistant (IndexTs.captured P capture_init chunks) in
  let page := Part004.onSend P input false (Some chatId)
                (Some (Pages.streamed (log w'))) load_ok in
  enqueued (log w') = chunks /\
  (trim text <> [] ->
   before Close (InsertMessage chatId RAssistant (JStr text)) (log w')) /\
  Part004.stored page = false /\
  exists shown,
    Part004.actions page =
      Browser.PostChat (trim input) :: map Browser.AppendText shown ++
      [Browser.LoadChatLater 300; Browser.RefreshChats].
Proof.
  intros L T NC H w' text page.
  assert (Q : enqueued (log w') = chunks).
  { unfold w'. rewrite drain0_done_log, L. cbn [app].
    rewrite enqueued_app, enqueued_tee.
    destruct (trim (assistant (IndexTs.captured P capture_init chunks)));
      cbn [enqueued app]; apply app_nil_r. }
  split; [exact Q|]. split.
  { intros NB. unfold w'. rewrite drain0_done_log, L. fold text.
    destruct (trim text) as [|x y]; [contradiction|].
    exists (IndexTs.tee chunks ++ [Read ReadDone]), [], [].
    cbn [app]. rewrite <- app_assoc. reflexivity. }
  set (st0 := {| Part004.buffer := []; Part004.full := [];
                 Part004.stored := false; Part004.dec := new_TextDecoder;
                 Part004.actions := [Browser.PostChat (trim input)] |}).
  set (st := Part004.read_loop P st0 chunks).
  assert (ST : exists shown,
             Part004.stored st = false /\
             Part004.actions st =
               Browser.PostChat (trim input) :: map Browser.AppendText shown).
  { destruct (part004_loop P chunks st0 eq_refl) as [d D].
    fold st in D. cbv zeta in D. cbn [Part004.buffer Part004.dec st0 app] in D.
    rewrite decode_stream_new in D.
    match type of D with
    | _ = fold_left _ ?evs ?s0 =>
        destruct (part004_events_plain P evs s0 H) as (shown & E1 & _)
    end.
    rewrite E1 in D. exists shown. rewrite D. split; reflexivity. }
  destruct ST as (shown & SS & SA).
  assert (PG : page =
                 Part004.act Browser.RefreshChats
                   (Part004.act (Browser.LoadChatLater 300) st)).
  { unfold page, Part004.onSend, Pages.streamed.
    cbn [Browser.r_ok Browser.r_done Browser.r_chunks negb]. rewrite Q.
    destruct (trim input) as [|t0 ts]; [contradiction|].
    destruct chatId as [|c0 cs]; [contradiction|].
    match goal with
    | |- context [Part004.read_loop P ?s0 ?cs] =>
        change (Part004.read_loop P s0 cs) with st
    end.
    rewrite SS. reflexivity. }
  split; [rewrite PG; exact SS|].
  exists shown. rewrite PG. cbn [Part004.act Part004.actions].
  rewrite SA, <- app_assoc. reflexivity.
Qed.

End EarlierRelayAndSidebar.

Lemma earlier_relay_delayed_reload_witness :
  Part004.stored
    (Part004.onSend JsonRef.JSON_parse (lit "hello") false (Some (lit "c1"))
       (Some (Pages.streamed
                (log (snd (Part000.drain JsonRef.JSON_parse (lit "c1")
                             capture_init [Examples.hi_chunk] EndDone
                             Examples.one_chat)))))
       true) = false.
Proof.
  refine (proj1 (proj2 (proj2
            (earlier_relay_delayed_reload JsonRef.JSON_parse (lit "c1")
               (lit "hello") [Examples.hi_chunk] Examples.one_chat true
               eq_refl _ _ _)))).
  - discriminate.
  - discriminate.
  - intros evt line j I D Pj. vm_compute in I. destruct I as [<- | []].
    vm_compute in D. inversion D; subst line.
    vm_compute in Pj. inversion Pj; subst j. reflexivity.
Defined.

(* ------------------------------------------------------------------ *)
(** ** A send that fails *)

Section FailedSend.

Variable P : jsstring -> option json.

(** X22 — A send that fails. When the relay has no credential, or the
    upstream call is answered with an error, a send posted by the page
    is answered with a status that is not a success: 401, respectively
    the upstream status. Either page then shows the status in the bubble
    and does nothing more: it does not reload the chat. The user message
    is stored all the same, with no reply after it. A send the relay
    rejects at validation is shown in the same way and stores nothing. *)
Theorem failed_send_is_shown (chatId input : jsstring) (env : IndexTs.Env)
    (dsRes : option IndexTs.upstream) (w : world) (load_ok : bool) :
  let request := Pages.posted chatId (trim input) in
  let run := IndexTs.serve P request env dsRes w in
  trim input <> [] -> chatId <> [] ->
  IndexTs.validated request w = false \/
  IndexTs.has_credential request env = false \/
  (exists u chunks,
     dsRes = Some u /\ IndexTs.up_ok u = false /\
     IndexTs.up_body u = Some (chunks, EndDone)) ->
  exists status body,
    fst run = Returned (IndexTs.Respond status body, []) /\
    Browser.r_ok (Pages.buffered status) = false /\
    ChatJs.actions
      (ChatJs.onSend P input false (Some (Pages.buffered status)) load_ok) =
      [Browser.PostChat (trim input); Browser.ShowHttpError status] /\
    Part004.actions
      (Part004.onSend P input false (Some chatId)
         (Some (Pages.buffered status)) load_ok) =
      [Browser.PostChat (trim input); Browser.ShowHttpError status] /\
    messages (DB (snd run)) =
      messages (DB w) ++
      (if IndexTs.validated request w
       then [{| chat_id := chatId; m_role := RUser;
                content := JStr (trim input);
                m_created_at := hd 0%N (clock w) |}]
       else []).
Proof.
  intros request run T NC Hc.
  assert (Shown : forall status,
             Browser.r_ok (Pages.buffered status) = false ->
             ChatJs.actions
               (ChatJs.onSend P input false (Some (Pages.buffered status))
                  load_ok) =
               [Browser.PostChat (trim input); Browser.ShowHttpError status] /\
             Part004.actions
               (Part004.onSend P input false (Some chatId)
                  (Some (Pages.buffered status)) load_ok) =
               [Browser.PostChat (trim input); Browser.ShowHttpError status]).
  { intros status NO. unfold ChatJs.onSend, Part004.onSend. rewrite NO.
    destruct (trim input) as [|t0 ts]; [contradiction|].
    destruct chatId as [|c0 cs]; [contradiction|].
    split; reflexivity. }
  assert (CO : IndexTs.content_of request = trim input).
  { unfold request, Pages.posted, IndexTs.content_of. cbn.
    apply trim_idempotent. }
  assert (CH : IndexTs.chat_of request = chatId) by reflexivity.
  destruct (IndexTs.validated request w) eqn:V.
  - destruct Hc as [Hc | Hc]; [discriminate Hc|].
    subst run. unfold IndexTs.serve.
    rewrite (bind_run _ _ _ _ (route_validated P request env dsRes w V)).
    destruct (IndexTs.has_credential request env) eqn:K.
    + destruct Hc as [Hc | (u & chunks & -> & O & B)]; [discriminate Hc|].
      destruct (has_credential_key request env K) as (c & k & AK).
      rewrite AK. unfold IndexTs.after_fetch.
      change (IndexTs.stream_of request) with true. rewrite O, B.
      cbn [negb andb]. unfold bind. rewrite text_run, B.
      exists (IndexTs.up_status u), (IndexTs.Text (fst (decode new_TextDecoder (concat chunks) false))).
      split; [reflexivity|].
      assert (NO : Browser.r_ok (Pages.buffered (IndexTs.up_status u)) = false)
        by exact O.
      split; [exact NO|]. destruct (Shown _ NO) as [S1 S2].
      split; [exact S1|]. split; [exact S2|].
      cbn [snd IndexTs.stream_body ret emit DB IndexTs.fetched
           IndexTs.user_stored messages].
      rewrite CH, CO. reflexivity.
    + unfold IndexTs.has_credential in K.
      exists 401%N, (IndexTs.ErrorMessage (lit "Missing DEEPSEEK_API_KEY")).
      destruct (Shown 401%N eq_refl) as [S1 S2].
      destruct (IndexTs.api_key request env) as [[|c k]|];
        try discriminate K;
        (split; [reflexivity|]; split; [reflexivity|];
         split; [exact S1|]; split; [exact S2|];
         unfold IndexTs.badJSON, IndexTs.stream_body, ret,
           IndexTs.user_stored;
         cbn [snd DB messages]; rewrite CH, CO; reflexivity).
  - destruct (route_rejected P request env dsRes w V)
      as (status & msg & R & St).
    subst run. unfold IndexTs.serve. rewrite (bind_run _ _ _ _ R).
    exists status, (IndexTs.ErrorMessage msg).
    assert (NO : Browser.r_ok (Pages.buffered status) = false)
      by (destruct St as [-> | ->]; reflexivity).
    destruct (Shown _ NO) as [S1 S2].
    split; [reflexivity|]. split; [exact NO|].
    split; [exact S1|]. split; [exact S2|].
    cbn [snd IndexTs.stream_body ret]. rewrite app_nil_r. reflexivity.
Qed.

End FailedSend.

Lemma failed_send_is_shown_witness :
  exists status body,
    fst (IndexTs.serve JsonRef.JSON_parse
           (Pages.posted (lit "c1") (trim (lit "hello"))) Examples.no_key None
           Examples.one_chat) =
      Returned (IndexTs.Respond status body, []) /\
    Browser.r_ok (Pages.buffered status) = false.
Proof.
  destruct (failed_send_is_shown JsonRef.JSON_parse (lit "c1") (lit "hello")
              Examples.no_key None Examples.one_chat true
              ltac:(discriminate) ltac:(discriminate)
              (or_intror (or_introl eq_refl)))
    as (status & body & R & NO & _).
  exists status, body. split; [exact R | exact NO].
Defined.
